(** * The Remote coordinator of payshares-lib (src/remote.js)

    A shallow embedding of the parts of [Remote] that maintain state: the
    constructor's option handling, the online/offline state machine, the
    ledger tracker, transaction de-duplication, server selection, the string
    dispatch of [request], and the account sequence cache.

    Conventions.
    - A JavaScript value is a [JS.value]; [typeof], truthiness and the
      relational operators are written out as the language defines them.
    - A JavaScript number is a [JS.number]: finite doubles are the rationals
      they denote (rounding is not modelled; the code adds one, subtracts one
      and scales by 1000), with [Infinity], [-Infinity] and [NaN] kept apart.
      A statement that reads such a result as an integer bounds the operands
      to the integers up to [2^53], where the double result is the exact
      one.
    - Counters that the code itself starts at 0 and steps by one
      ([_connection_count]) are integers.
    - Objects used as dictionaries are finite maps keyed by strings.
    - A method that emits events or calls a collaborator returns the list of
      those effects, oldest first, next to the new state.
    - A method that can [throw] returns an [JS.outcome]. *)

From Stdlib Require Import ZArith QArith Lqa Lia List String Ascii Bool Sorted.
From stdpp Require Import base gmap strings list.
Import ListNotations.

Local Open Scope string_scope.
Local Open Scope Z_scope.
Local Open Scope list_scope.

(* ===================================================================== *)
(** ** JavaScript values *)
(* ===================================================================== *)

Module JS.

Inductive number : Type :=
| Fin (q : Q)
| PosInf
| NegInf
| NaN.

Definition of_Z (z : Z) : number := Fin (inject_Z z).

(** [a + b] on numbers. *)
Definition add (a b : number) : number :=
  match a, b with
  | NaN, _ | _, NaN => NaN
  | Fin x, Fin y => Fin (Qred (x + y))
  | PosInf, NegInf | NegInf, PosInf => NaN
  | PosInf, _ | _, PosInf => PosInf
  | NegInf, _ | _, NegInf => NegInf
  end.

(** [a * b] for a finite, non-zero, positive left factor (the constructor
    scales seconds to milliseconds with [1000 * x]). *)
Definition scale (k : Z) (b : number) : number :=
  match b with
  | Fin y => Fin (Qred (inject_Z k * y))
  | other => other
  end.

(** [a >= b]; every comparison with [NaN] is false. *)
Definition ge (a b : number) : bool :=
  match a, b with
  | NaN, _ | _, NaN => false
  | Fin x, Fin y => Qle_bool y x
  | PosInf, _ => true
  | _, NegInf => true
  | _, _ => false
  end.

(** [a > b]. *)
Definition gt (a b : number) : bool :=
  match a, b with
  | NaN, _ | _, NaN => false
  | Fin x, Fin y => negb (Qle_bool x y)
  | PosInf, PosInf => false
  | PosInf, _ => true
  | Fin _, NegInf => true
  | _, _ => false
  end.

(** [a < b]. *)
Definition lt (a b : number) : bool := gt b a.

Inductive value : Type :=
| VUndefined
| VNull
| VBool (b : bool)
| VNumber (n : number)
| VString (s : string)
| VObject (ref : nat)
| VFunction (ref : nat).

(** The [typeof] operator. *)
Definition typeof (v : value) : string :=
  match v with
  | VUndefined => "undefined"
  | VNull => "object"
  | VBool _ => "boolean"
  | VNumber _ => "number"
  | VString _ => "string"
  | VObject _ => "object"
  | VFunction _ => "function"
  end.

Definition number_truthy (n : number) : bool :=
  match n with
  | NaN => false
  | Fin q => negb (Qeq_bool q 0)
  | _ => true
  end.

(** [Boolean(v)], the truthiness used by [if], [!], [&&] and [||]. *)
Definition truthy (v : value) : bool :=
  match v with
  | VUndefined | VNull => false
  | VBool b => b
  | VNumber n => number_truthy n
  | VString s => negb (String.eqb s EmptyString)
  | VObject _ | VFunction _ => true
  end.

(** A plain object read by property name; an absent property reads as
    [undefined]. *)
Definition get (o : gmap string value) (k : string) : value :=
  default VUndefined (o !! k).

(** ToNumber of a field that is [undefined] or a number. *)
Definition to_number (v : option number) : number :=
  match v with
  | Some n => n
  | None => NaN
  end.

Inductive error : Type :=
| TypeError (msg : string)
| Error (msg : string).

(** What a call yields: a returned value or a thrown error. *)
Inductive outcome (A : Type) : Type :=
| Return (a : A)
| Throw (e : error).

Arguments Return {A} a.
Arguments Throw {A} e.

End JS.

Import JS.

(* ===================================================================== *)
(** ** Ledger tracker: [_handleLedgerClosed] and [serverSubscribed] *)
(* ===================================================================== *)

Module Ledger.

(** The fields of [Remote] written by the two ledger handlers. *)
Record tracker : Type := {
  _ledger_time : value;
  _ledger_hash : value;
  _ledger_current_index : option number;
  _stand_alone : option bool;
  _testnet : option bool
}.

(** The constructor leaves all five [void(0)]. *)
Definition init : tracker :=
  {| _ledger_time := VUndefined;
     _ledger_hash := VUndefined;
     _ledger_current_index := None;
     _stand_alone := None;
     _testnet := None |}.

(** A [ledgerClosed] message: the parsed JSON object. *)
Definition message : Type := gmap string value.

(** The reply to a subscribe request. The server sends [ledger_index] as a
    number when it sends it at all. *)
Record ack : Type := {
  stand_alone : value;
  testnet : value;
  ledger_hash : value;
  ledger_index : option number;
  ledger_time : value
}.

Inductive event : Type :=
| Ledger_closed_msg (m : message)
| Ledger_closed_ack (a : ack)
| Subscribed.

Definition is_type (t : string) (v : value) : bool :=
  String.eqb (typeof v) t.

(** [Remote.isValidLedgerData]; the message is already known to be an
    object. [fee_base] is tested twice in the source. *)
Definition isValidLedgerData (m : message) : bool :=
  is_type "number" (get m "fee_base")
  && is_type "number" (get m "fee_ref")
  && is_type "number" (get m "fee_base")
  && is_type "string" (get m "ledger_hash")
  && is_type "number" (get m "ledger_index")
  && is_type "number" (get m "ledger_time")
  && is_type "number" (get m "reserve_base")
  && is_type "number" (get m "reserve_inc")
  && is_type "number" (get m "txn_count").

(** The number held by a field that passed the [typeof] test. *)
Definition number_of (v : value) : number :=
  match v with
  | VNumber n => n
  | _ => NaN
  end.

(** [message.ledger_index >= this._ledger_current_index]. *)
Definition ledgerAdvanced (t : tracker) (m : message) : bool :=
  JS.ge (number_of (get m "ledger_index"))
        (to_number (_ledger_current_index t)).

Definition _handleLedgerClosed (t : tracker) (m : message)
  : tracker * list event :=
  if negb (isValidLedgerData m) then (t, [])
  else if ledgerAdvanced t m then
    ({| _ledger_time := get m "ledger_time";
        _ledger_hash := get m "ledger_hash";
        _ledger_current_index :=
          Some (JS.add (number_of (get m "ledger_index")) (of_Z 1));
        _stand_alone := _stand_alone t;
        _testnet := _testnet t |},
     [Ledger_closed_msg m])
  else (t, []).

(** [message.ledger_hash && message.ledger_index]. *)
Definition ack_has_ledger (a : ack) : bool :=
  truthy (ledger_hash a)
  && match ledger_index a with
     | Some n => number_truthy n
     | None => false
     end.

(** [serverSubscribed], the success listener that
    [_serverPrepareSubscribe] puts on the subscribe request. *)
Definition serverSubscribed (t : tracker) (a : ack)
  : tracker * list event :=
  let sa := Some (truthy (stand_alone a)) in
  let tn := Some (truthy (testnet a)) in
  if ack_has_ledger a then
    ({| _ledger_time := ledger_time a;
        _ledger_hash := ledger_hash a;
        _ledger_current_index :=
          Some (JS.add (to_number (ledger_index a)) (of_Z 1));
        _stand_alone := sa;
        _testnet := tn |},
     [Ledger_closed_ack a; Subscribed])
  else
    ({| _ledger_time := _ledger_time t;
        _ledger_hash := _ledger_hash t;
        _ledger_current_index := _ledger_current_index t;
        _stand_alone := sa;
        _testnet := tn |},
     [Subscribed]).

(** What reaches the tracker: a [ledgerClosed] message routed by
    [_handleMessage], or the success of a subscribe request. *)
Inductive inbound : Type :=
| LedgerClosed (m : message)
| SubscribeAck (a : ack).

Definition handle (t : tracker) (i : inbound) : tracker * list event :=
  match i with
  | LedgerClosed m => _handleLedgerClosed t m
  | SubscribeAck a => serverSubscribed t a
  end.

(** Handlers run to completion one after the other. *)
Fixpoint run (t : tracker) (msgs : list inbound) : tracker * list event :=
  match msgs with
  | [] => (t, [])
  | i :: rest =>
      let '(t1, e1) := handle t i in
      let '(t2, e2) := run t1 rest in
      (t2, e1 ++ e2)
  end.

(** A well-formed [ledgerClosed] message closing ledger [idx]. *)
Definition closed (idx : Z) (hash : string) : message :=
  list_to_map
    [("type", VString "ledgerClosed");
     ("fee_base", VNumber (of_Z 10));
     ("fee_ref", VNumber (of_Z 10));
     ("ledger_hash", VString hash);
     ("ledger_index", VNumber (of_Z idx));
     ("ledger_time", VNumber (of_Z 1000));
     ("reserve_base", VNumber (of_Z 50));
     ("reserve_inc", VNumber (of_Z 10));
     ("txn_count", VNumber (of_Z 0))].

End Ledger.

(* ===================================================================== *)
(** ** Server pool, connection state machine and request routing *)
(* ===================================================================== *)

(** What [Remote] reads and writes on a [Server] object (server.js is a
    collaborator). [opts_primary] is the [primary] flag of the options the
    server was added with. *)
Module Server.

Record t : Type := {
  opts_primary : bool;
  _score : number;
  _fee : number;
  _connected : bool;
  _primary : bool
}.

Definition set_primary (b : bool) (s : t) : t :=
  {| opts_primary := opts_primary s;
     _score := _score s;
     _fee := _fee s;
     _connected := _connected s;
     _primary := b |}.

End Server.

(* ===================================================================== *)
(** ** The properties of a Remote object *)
(* ===================================================================== *)

Module Proto.

(** A property read as [this[name]] is a function or something else. A
    function is known by the name remote.js (or the runtime) gives it. *)
Inductive property : Type :=
| Method (fn : string)
| Field.

(** Every assignment [Remote.prototype.<property> = function ...] of
    remote.js, in source order: the property and the function bound to it.
    Two properties assigned in one chain share the function. *)
Definition Remote_prototype : list (string * string) :=
  [
    ("_setState", "_setState"); ("setServerFatal", "setServerFatal");
    ("setSecret", "setSecret");
    ("getPendingTransactions", "getPendingTransactions");
    ("addServer", "addServer"); ("connect", "connect");
    ("disconnect", "disconnect"); ("_handleMessage", "_handleMessage");
    ("_handleLedgerClosed", "_handleLedgerClosed");
    ("_handleServerStatus", "_handleServerStatus");
    ("_handleTransaction", "_handleTransaction");
    ("_handlePathFind", "_handlePathFind");
    ("getLedgerHash", "getLedgerHash");
    ("_setPrimaryServer", "setPrimaryServer");
    ("setPrimaryServer", "setPrimaryServer"); ("_getServer", "getServer");
    ("getServer", "getServer"); ("request", "request");
    ("ping", "requestPing"); ("requestPing", "requestPing");
    ("requestServerInfo", "requestServerInfo");
    ("requestLedger", "requestLedger");
    ("requestLedgerClosed", "requestLedgerHash");
    ("requestLedgerHash", "requestLedgerHash");
    ("requestLedgerHeader", "requestLedgerHeader");
    ("requestLedgerCurrent", "requestLedgerCurrent");
    ("requestLedgerEntry", "requestLedgerEntry");
    ("requestSubscribe", "requestSubscribe");
    ("requestUnsubscribe", "requestUnsubscribe");
    ("requestTransactionEntry", "requestTransactionEntry");
    ("requestTransaction", "requestTx"); ("requestTx", "requestTx");
    ("requestAccountInfo", "requestAccountInfo");
    ("requestAccountCurrencies", "requestAccountCurrencies");
    ("requestAccountLines", "requestAccountLines");
    ("requestAccountOffers", "requestAccountOffers");
    ("requestAccountTransactions", "requestAccountTx");
    ("requestAccountTx", "requestAccountTx");
    ("requestTxHistory", "requestTxHistory");
    ("requestBookOffers", "requestBookOffers");
    ("requestWalletAccounts", "requestWalletAccounts");
    ("requestSign", "requestSign"); ("requestSubmit", "requestSubmit");
    ("_serverPrepareSubscribe", "_serverPrepareSubscribe");
    ("ledgerAccept", "requestLedgerAccept");
    ("requestLedgerAccept", "requestLedgerAccept");
    ("requestAccountBalance", "requestAccountBalance");
    ("requestAccountFlags", "requestAccountFlags");
    ("requestOwnerCount", "requestOwnerCount");
    ("getAccount", "getAccount"); ("addAccount", "addAccount");
    ("account", "findAccount"); ("findAccount", "findAccount");
    ("pathFind", "createPathFind"); ("createPathFind", "createPathFind");
    ("book", "createOrderBook"); ("createOrderBook", "createOrderBook");
    ("accountSeq", "getAccountSequence");
    ("getAccountSequence", "getAccountSequence");
    ("setAccountSeq", "setAccountSeq");
    ("accountSeqCache", "accountSeqCache");
    ("dirtyAccountRoot", "dirtyAccountRoot");
    ("requestStellarBalance", "requestStellarBalance");
    ("requestStellarPathFind", "requestStellarPathFind");
    ("requestPathFindCreate", "requestPathFindCreate");
    ("requestPathFindClose", "requestPathFindClose");
    ("requestUnlList", "requestUnlList");
    ("requestUnlAdd", "requestUnlAdd");
    ("requestUnlDelete", "requestUnlDelete");
    ("requestPeers", "requestPeers"); ("requestConnect", "requestConnect");
    ("transaction", "createTransaction");
    ("createTransaction", "createTransaction"); ("feeTx", "feeTx");
    ("feeTxUnit", "feeTxUnit"); ("reserve", "reserve")
  ].

(** Inherited through [util.inherits(Remote, EventEmitter)]. *)
Definition EventEmitter_prototype : list string :=
  ["setMaxListeners"; "emit"; "addListener"; "on"; "once";
   "removeListener"; "removeAllListeners"; "listeners"].

Definition Object_prototype : list string :=
  ["constructor"; "toString"; "toLocaleString"; "valueOf";
   "hasOwnProperty"; "isPrototypeOf"; "propertyIsEnumerable"].

(** The data properties the constructor (and [EventEmitter.call]) put on
    the instance. *)
Definition own_fields : list string :=
  ["domain"; "_events"; "_maxListeners";
   "trusted"; "state"; "_server_fatal"; "local_sequence"; "local_fee";
   "local_signing"; "canonical_signing"; "fee_cushion"; "max_fee";
   "_ledger_current_index"; "_ledger_hash"; "_ledger_time";
   "_stand_alone"; "_testnet"; "_transaction_subs"; "_connection_count";
   "_connected"; "_connection_offset"; "_submission_timeout";
   "_received_tx"; "_cur_path_find"; "_servers"; "_primary_server";
   "accounts"; "_accounts"; "_books"; "secrets"; "ledgers"].

(** Property lookup on an instance built by remote.js alone: own
    properties first, then the prototype chain. *)
Definition Remote_object : gmap string property :=
  list_to_map
    (map (fun f => (f, Field)) own_fields
     ++ map (fun pf => (fst pf, Method (snd pf))) Remote_prototype
     ++ map (fun f => (f, Method f)) EventEmitter_prototype
     ++ map (fun f => (f, Method f)) Object_prototype).

End Proto.

Module Core.

(** [servers] holds the Server objects by reference; [_servers] and
    [_primary_server] hold references into it, so that a flag written
    through one is seen through the other. *)
Record remote : Type := {
  state : string;
  _online_state : option string;
  _connected : bool;
  _connection_count : Z;
  servers : gmap nat Server.t;
  _servers : list nat;
  _primary_server : option nat
}.

(** The fields as the constructor leaves them when no server is
    configured. *)
Definition init : remote :=
  {| state := "offline";
     _online_state := None;
     _connected := false;
     _connection_count := 0;
     servers := ∅;
     _servers := [];
     _primary_server := None |}.

(** A request as the router sees it: [server] is the [server] field, which
    is unset, [null] (the named host was not found) or a Server. *)
Inductive pinned : Type :=
| Unset
| Null
| Pinned (ref : nat).

Record Request : Type := {
  rid : nat;
  server : pinned
}.

Inductive effect : Type :=
| Emit_state (s : string)
| Emit (name : string)
| Once (name : string) (listener : value)
| Once_connect_request (r : Request)
| Server_disconnect (ref : nat)
| Server_request (ref : nat) (r : Request)
| Request_error (r : Request) (msg : string).

Definition with_state (r : remote) (s : string) (os : option string)
    (c : bool) : remote :=
  {| state := s;
     _online_state := os;
     _connected := c;
     _connection_count := _connection_count r;
     servers := servers r;
     _servers := _servers r;
     _primary_server := _primary_server r |}.

Definition with_count (r : remote) (n : Z) : remote :=
  {| state := state r;
     _online_state := _online_state r;
     _connected := _connected r;
     _connection_count := n;
     servers := servers r;
     _servers := _servers r;
     _primary_server := _primary_server r |}.

Definition with_pool (r : remote) (h : gmap nat Server.t) (l : list nat)
    (p : option nat) : remote :=
  {| state := state r;
     _online_state := _online_state r;
     _connected := _connected r;
     _connection_count := _connection_count r;
     servers := h;
     _servers := l;
     _primary_server := p |}.

(** [Remote.prototype._setState]. *)
Definition _setState (r : remote) (s : string) : remote * list effect :=
  if String.eqb (state r) s then (r, [])
  else if String.eqb s "online" then
    (with_state r s (Some "open") true,
     [Emit_state s; Emit "connect"; Emit "connected"])
  else if String.eqb s "offline" then
    (with_state r s (Some "closed") false,
     [Emit_state s; Emit "disconnect"; Emit "disconnected"])
  else
    (with_state r s (_online_state r) (_connected r), [Emit_state s]).

(** [Remote.prototype._setPrimaryServer]. *)
Definition _setPrimaryServer (r : remote) (ref : nat) : remote :=
  let h1 :=
    match _primary_server r with
    | Some old => alter (Server.set_primary false) old (servers r)
    | None => servers r
    end in
  with_pool r (alter (Server.set_primary true) ref h1) (_servers r)
            (Some ref).

(** [Remote.prototype.addServer]: the new Server object gets the next free
    reference and is pushed onto [_servers]. *)
Definition addServer (r : remote) (s : Server.t) : remote :=
  let ref := fresh (dom (servers r)) in
  with_pool r (<[ref := s]> (servers r)) (_servers r ++ [ref])
            (_primary_server r).

Definition opts_primary_of (r : remote) (ref : nat) : bool :=
  match servers r !! ref with
  | Some s => Server.opts_primary s
  | None => false
  end.

(** [serverConnect], the listener [addServer] puts on the server's
    [connect] event; [ref] is the server of that closure. *)
Definition serverConnect (r : remote) (ref : nat) : remote * list effect :=
  let r1 := with_count r (_connection_count r + 1) in
  let r2 := if opts_primary_of r1 ref then _setPrimaryServer r1 ref else r1 in
  let '(r3, e3) :=
    if _connection_count r2 =? 1 then _setState r2 "online" else (r2, []) in
  let e4 :=
    if _connection_count r3 =? Z.of_nat (length (_servers r3))
    then [Emit "ready"] else [] in
  (r3, e3 ++ e4).

(** [serverDisconnect], the listener on the server's [disconnect] event. *)
Definition serverDisconnect (r : remote) (ref : nat)
  : remote * list effect :=
  let r1 := with_count r (_connection_count r - 1) in
  if _connection_count r1 =? 0 then _setState r1 "offline" else (r1, []).

Inductive signal : Type :=
| Connect (ref : nat)
| Disconnect (ref : nat).

Definition deliver (r : remote) (s : signal) : remote * list effect :=
  match s with
  | Connect ref => serverConnect r ref
  | Disconnect ref => serverDisconnect r ref
  end.

(** The state after a sequence of signals, and the effects of each. *)
Fixpoint deliver_all (r : remote) (ss : list signal)
  : remote * list (list effect) :=
  match ss with
  | [] => (r, [])
  | s :: rest =>
      let '(r1, e1) := deliver r s in
      let '(r2, es) := deliver_all r1 rest in
      (r2, e1 :: es)
  end.

(** [sortByScore], the comparator inside [getServer]. *)
Definition sortByScore (a b : Server.t) : Z :=
  let aScore := JS.add (Server._score a) (Server._fee a) in
  let bScore := JS.add (Server._score b) (Server._fee b) in
  if JS.gt aScore bScore then 1
  else if JS.lt aScore bScore then -1
  else 0.

(** [Array.prototype.sort] with a comparator, as a stable insertion sort:
    the language leaves the algorithm to the engine, and only the order of
    elements that compare equal depends on it. *)
Fixpoint sort_insert {A} (cmp : A -> A -> Z) (x : A) (l : list A) : list A :=
  match l with
  | [] => [x]
  | y :: rest =>
      if cmp x y <=? 0 then x :: y :: rest
      else y :: sort_insert cmp x rest
  end.

Definition array_sort {A} (cmp : A -> A -> Z) (l : list A) : list A :=
  foldr (sort_insert cmp) [] l.

Definition deref (h : gmap nat Server.t) (ref : nat) : option Server.t :=
  h !! ref.

Definition is_connected (h : gmap nat Server.t) (ref : nat) : bool :=
  match deref h ref with
  | Some s => Server._connected s
  | None => false
  end.

Definition compare_refs (h : gmap nat Server.t) (a b : nat) : Z :=
  match deref h a, deref h b with
  | Some sa, Some sb => sortByScore sa sb
  | _, _ => 0
  end.

(** The loop [while (!server._connected) server = this._servers[++index]]
    over the array from [index] on. Reading one past the end gives
    [undefined], and the loop test then reads a property of
    [undefined]. *)
Fixpoint first_connected (h : gmap nat Server.t) (from : list nat)
  : outcome nat :=
  match from with
  | [] => Throw (TypeError "Cannot read property '_connected' of undefined")
  | ref :: rest =>
      if is_connected h ref then Return ref else first_connected h rest
  end.

(** [Remote.prototype.getServer] (also [_getServer]); the sort is done in
    place, so the remote is returned as well. *)
Definition getServer (r : remote) : remote * outcome nat :=
  let primary_up :=
    match _primary_server r with
    | Some p => is_connected (servers r) p
    | None => false
    end in
  match _primary_server r, primary_up with
  | Some p, true => (r, Return p)
  | _, _ =>
      let sorted := array_sort (compare_refs (servers r)) (_servers r) in
      (with_pool r (servers r) sorted (_primary_server r),
       first_connected (servers r) sorted)
  end.

(** The part of [Remote.prototype.request] that routes a Request object
    (lines after the [instanceof Request] test). *)
Definition route (r : remote) (q : Request)
  : remote * list effect * outcome unit :=
  if (length (_servers r) =? 0)%nat then
    (r, [Request_error q "No servers available"], Return tt)
  else if negb (_connected r) then
    (r, [Once_connect_request q], Return tt)
  else
    match server q with
    | Null => (r, [Request_error q "Server does not exist"], Return tt)
    | Pinned ref => (r, [Server_request ref q], Return tt)
    | Unset =>
        match getServer r with
        | (r1, Return ref) => (r1, [Server_request ref q], Return tt)
        | (r1, Throw e) => (r1, [], Throw e)
        end
    end.

(** The three fee and reserve queries; each names the server it delegates
    to. A server reference is always truthy, so the [!server] test of the
    source never fires. *)
Inductive query : Type :=
| FeeTx (units : number)
| FeeTxUnit
| Reserve (owner_count : number).

Definition delegate (r : remote) (q : query)
  : remote * outcome (nat * query) :=
  match getServer r with
  | (r1, Return ref) => (r1, Return (ref, q))
  | (r1, Throw e) => (r1, Throw e)
  end.

Definition feeTx (r : remote) (units : number) := delegate r (FeeTx units).
Definition feeTxUnit (r : remote) := delegate r FeeTxUnit.
Definition reserve (r : remote) (owner_count : number) :=
  delegate r (Reserve owner_count).

(** *** Calls through a property of [this]

    [request] with a command name and [disconnect] both call a function
    they find by property name on the Remote. [this] is the property table
    of the instance; [apply f r args] is the call of the function known as
    [f] on the remote [r]. *)
Section Methods.

Variable apply :
  string -> remote -> list value -> remote * list effect * outcome value.

Import Proto.

(** The name looked up for a command: [request_] is prepended unless the
    command already starts with it. *)
Definition method_name (cmd : string) : string :=
  if String.prefix "request_" cmd then cmd else "request_" +:+ cmd.

Inductive request_arg : Type :=
| By_name (cmd : string) (args : list value)
| By_request (q : Request)
| By_other (v : value).

(** [Remote.prototype.request]. *)
Definition request (this : gmap string property) (r : remote)
    (a : request_arg) : remote * list effect * outcome value :=
  match a with
  | By_name cmd args =>
      let name := method_name cmd in
      match this !! name with
      | Some (Method f) => apply f r args
      | _ => (r, [], Throw (Error ("Command does not exist: " +:+ name)))
      end
  | By_other _ => (r, [], Throw (Error "Argument is not a Request"))
  | By_request q =>
      match route r q with
      | (r1, e, Return _) => (r1, e, Return VUndefined)
      | (r1, e, Throw err) => (r1, e, Throw err)
      end
  end.

(** [Remote.prototype.disconnect]. What a server does when told to
    disconnect comes back to the Remote as a [Disconnect] signal. *)
Definition disconnect (this : gmap string property) (r : remote)
    (callback : value) : remote * list effect * outcome unit :=
  if (length (_servers r) =? 0)%nat then
    (r, [], Throw (Error "No servers available, not disconnecting"))
  else
    let e1 :=
      if String.eqb (typeof callback) "function"
      then [Once "disconnect" callback] else [] in
    let e2 := map Server_disconnect (_servers r) in
    match this !! "_set_state" with
    | Some (Method f) =>
        match apply f r [VString "offline"] with
        | (r1, e3, Return _) => (r1, e1 ++ e2 ++ e3, Return tt)
        | (r1, e3, Throw err) => (r1, e1 ++ e2 ++ e3, Throw err)
        end
    | _ => (r, e1 ++ e2, Throw (TypeError "undefined is not a function"))
    end.

End Methods.

End Core.

(* ===================================================================== *)
(** ** Transaction de-duplication and fan-out *)
(* ===================================================================== *)

(** The [lru-cache] package as [Remote] uses it: [LRU({ max: n })], [get]
    and [set]. Entries are kept most recently used first; a hit in [get]
    makes the entry the most recent one, [set] puts the entry in front and
    drops entries from the far end while there are more than [max]. *)
Module LRU.

Record t : Type := {
  max : nat;
  items : list (string * value)
}.

Definition create (n : nat) : t := {| max := n; items := [] |}.

Fixpoint lookup (k : string) (l : list (string * value)) : option value :=
  match l with
  | [] => None
  | (k', v) :: rest => if String.eqb k' k then Some v else lookup k rest
  end.

Definition without (k : string) (l : list (string * value))
  : list (string * value) :=
  List.filter (fun kv => negb (String.eqb (fst kv) k)) l.

(** Reading without touching the order ([peek] in the package). *)
Definition peek (k : string) (c : t) : option value := lookup k (items c).

Definition get (k : string) (c : t) : option value * t :=
  match lookup k (items c) with
  | Some v => (Some v, {| max := max c; items := (k, v) :: without k (items c) |})
  | None => (None, c)
  end.

Definition set (k : string) (v : value) (c : t) : t :=
  {| max := max c; items := take (max c) ((k, v) :: without k (items c)) |}.

End LRU.

Module Dedup.

(** An Account or OrderBook object registered with the Remote: its
    identity and its [notify] property. *)
Record listener : Type := {
  oref : nat;
  notify_prop : value
}.

Section Fanout.

(** [meta.js] is a collaborator: the metadata of a message and the two
    queries [Remote] makes on [new Meta(metadata)]. *)
Variable metadata : Type.
Variable getAffectedAccounts : metadata -> list string.
Variable getAffectedBooks : metadata -> list string.

(** A [transaction] message. [meta] is [message.meta || message.metadata]
    when that is truthy; [tx_Account] and [tx_Destination] are the two
    fields of [message.transaction] read for proposed transactions. *)
Record message : Type := {
  hash : string;
  validated : value;
  meta : option metadata;
  tx_Account : option string;
  tx_Destination : option string
}.

Record remote : Type := {
  _received_tx : LRU.t;
  _accounts : gmap string listener;
  _books : gmap string listener
}.

(** As the constructor leaves them. *)
Definition init : remote :=
  {| _received_tx := LRU.create 100; _accounts := ∅; _books := ∅ |}.

Inductive effect : Type :=
| Notify (target : nat) (m : message)
| Emit_transaction (m : message)
| Emit_transaction_all (m : message).

Definition with_cache (r : remote) (c : LRU.t) : remote :=
  {| _received_tx := c; _accounts := _accounts r; _books := _books r |}.

(** The inner function [notify], with [this] bound to [dict]. *)
Definition notify (dict : gmap string listener) (m : message)
    (el : string) : list effect :=
  match dict !! el with
  | Some item =>
      if String.eqb (typeof (notify_prop item)) "function"
      then [Notify (oref item) m] else []
  | None => []
  end.

(** A property name made from a field that may be absent. *)
Definition key_of (f : option string) : string :=
  default "undefined" f.

(** Everything after the de-duplication test. *)
Definition fan_out (r : remote) (m : message) : list effect :=
  match meta m with
  | Some md =>
      flat_map (notify (_accounts r) m) (getAffectedAccounts md)
      ++ flat_map (notify (_books r) m) (getAffectedBooks md)
  | None =>
      flat_map (notify (_accounts r) m)
               [key_of (tx_Account m); key_of (tx_Destination m)]
  end
  ++ [Emit_transaction m; Emit_transaction_all m].

(** [Remote.prototype._handleTransaction]. *)
Definition _handleTransaction (r : remote) (m : message)
  : remote * list effect :=
  let '(hit, c1) := LRU.get (hash m) (_received_tx r) in
  if truthy (default VUndefined hit) then (with_cache r c1, [])
  else
    let c2 :=
      if truthy (validated m) then LRU.set (hash m) (VBool true) c1
      else c1 in
    (with_cache r c2, fan_out r m).

(** Deliveries handled one after the other; the effects of each. *)
Fixpoint deliver_all (r : remote) (ms : list message)
  : remote * list (list effect) :=
  match ms with
  | [] => (r, [])
  | m :: rest =>
      let '(r1, e1) := _handleTransaction r m in
      let '(r2, es) := deliver_all r1 rest in
      (r2, e1 :: es)
  end.

End Fanout.

Arguments hash {metadata} m.
Arguments validated {metadata} m.
Arguments meta {metadata} m.
Arguments tx_Account {metadata} m.
Arguments tx_Destination {metadata} m.
Arguments Notify {metadata} target m.
Arguments Emit_transaction {metadata} m.
Arguments Emit_transaction_all {metadata} m.
Arguments fan_out {metadata} getAffectedAccounts getAffectedBooks r m.
Arguments _handleTransaction {metadata} getAffectedAccounts
  getAffectedBooks r m.
Arguments deliver_all {metadata} getAffectedAccounts getAffectedBooks r ms.

End Dedup.

(* ===================================================================== *)
(** ** Account sequence cache *)
(* ===================================================================== *)

Module SeqCache.

(** An entry of [this.accounts]. *)
Record account_info : Type := {
  seq : option number;
  caching_seq_request : option nat
}.

Definition empty_info : account_info :=
  {| seq := None; caching_seq_request := None |}.

(** A listener registered with [once] on a Request. The first two are the
    closures of [accountSeqCache] for the entry under [account]; the other
    two are the wrappers [Request.callback] makes around a callback. *)
Inductive listener : Type :=
| AccountRootSuccess (account : string)
| AccountRootError (account : string)
| Callback_success (cb : nat)
| Callback_error (cb : nat).

(** A Request object as [accountSeqCache] uses it. *)
Record request : Type := {
  command : string;
  entry_type : string;
  account_root : string;
  ledger : value;
  listeners : list (string * listener)
}.

Record remote : Type := {
  accounts : gmap string account_info;
  requests : gmap nat request
}.

Definition init : remote := {| accounts := ∅; requests := ∅ |}.

(** The reply to a ledger_entry request, as far as it is read here:
    [message.node.Sequence]. *)
Record response : Type := {
  node_Sequence : option number
}.

Inductive result : Type :=
| Ok (m : response)
| Failed (err : value).

Inductive effect : Type :=
| Called (cb : nat) (res : result).

Definition upper (c : ascii) : ascii :=
  let n := nat_of_ascii c in
  if ((97 <=? n)%nat && (n <=? 122)%nat)%bool then ascii_of_nat (n - 32)
  else c.

(** [String.prototype.toUpperCase] on characters below 256. Among these
    only [a] to [z] have an upper case in ASCII (the sharp s becomes [SS]),
    so a string is mapped to [ADVANCE] or [REWIND] here exactly when
    JavaScript maps it there. *)
Fixpoint toUpperCase (s : string) : string :=
  match s with
  | EmptyString => EmptyString
  | String c rest => String (upper c) (toUpperCase rest)
  end.

(** [{ ADVANCE: 1, REWIND: -1 }[key] || 0]. *)
Definition change_of (key : string) : number :=
  if String.eqb key "ADVANCE" then of_Z 1
  else if String.eqb key "REWIND" then of_Z (-1)
  else of_Z 0.

Section Accounts.

(** [UInt160.json_rewrite] (uint160.js is a collaborator). *)
Variable json_rewrite : string -> string.

Definition with_accounts (r : remote) (a : gmap string account_info)
  : remote :=
  {| accounts := a; requests := requests r |}.

(** [Remote.prototype.getAccountSequence] (also [accountSeq]). The value
    returned is [accountInfo.seq] as it was; [None] is [undefined]. *)
Definition getAccountSequence (r : remote) (account : string)
    (advance : value) : remote * outcome (option number) :=
  let account := json_rewrite account in
  match accounts r !! account with
  | None => (r, Return None)
  | Some accountInfo =>
      match advance with
      | VString a =>
          let seq0 := seq accountInfo in
          let change := change_of (toUpperCase a) in
          let info1 :=
            {| seq := Some (JS.add (to_number seq0) change);
               caching_seq_request := caching_seq_request accountInfo |} in
          (with_accounts r (<[account := info1]> (accounts r)),
           Return seq0)
      | VUndefined | VNull =>
          (r, Throw (TypeError "Cannot read property 'toUpperCase'"))
      | _ => (r, Throw (TypeError "undefined is not a function"))
      end
  end.

(** [Remote.prototype.setAccountSeq]. *)
Definition setAccountSeq (r : remote) (account : string)
    (sequence : number) : remote :=
  let account := json_rewrite account in
  let info0 := default empty_info (accounts r !! account) in
  with_accounts r
    (<[account := {| seq := Some sequence;
                     caching_seq_request := caching_seq_request info0 |}]>
       (accounts r)).

End Accounts.

Definition add_listeners (q : request) (ls : list (string * listener))
  : request :=
  {| command := command q;
     entry_type := entry_type q;
     account_root := account_root q;
     ledger := ledger q;
     listeners := listeners q ++ ls |}.

(** Modelled from the spec: request.js is not part of the sources. The
    Request contract gives [callback(fn, successEventName?,
    errorEventName?)] as a registration: [fn] is called with the message
    when the success event is emitted and with the error when the error
    event is. No callback, nothing registered. *)
Definition Request_callback (q : request) (callback : option nat)
    (successEvent errorEvent : string) : request :=
  match callback with
  | Some cb =>
      add_listeners q [(successEvent, Callback_success cb);
                       (errorEvent, Callback_error cb)]
  | None => q
  end.

(** [Remote.prototype.accountSeqCache], called with an account and a
    ledger. Returns the Request it hands back, by reference. *)
Definition accountSeqCache (r : remote) (account : string) (ledger : value)
    (callback : option nat) : remote * nat :=
  let account_info := default empty_info (accounts r !! account) in
  let accounts1 := <[account := account_info]> (accounts r) in
  match caching_seq_request account_info with
  | Some rid =>
      let reqs :=
        alter (fun q => Request_callback q callback
                          "success_account_seq_cache"
                          "error_account_seq_cache") rid (requests r) in
      ({| accounts := accounts1; requests := reqs |}, rid)
  | None =>
      let rid := fresh (dom (requests r)) in
      let q0 :=
        {| command := "ledger_entry";
           entry_type := "account_root";
           account_root := account;
           ledger := ledger;
           listeners := [("success", AccountRootSuccess account);
                         ("error", AccountRootError account)] |} in
      let q1 := Request_callback q0 callback
                  "success_account_seq_cache" "error_account_seq_cache" in
      ({| accounts :=
            <[account := {| seq := seq account_info;
                            caching_seq_request := Some rid |}]> accounts1;
          requests := <[rid := q1]> (requests r) |},
       rid)
  end.

(** [delete account_info.caching_seq_request]. *)
Definition clear_marker (i : account_info) : account_info :=
  {| seq := seq i; caching_seq_request := None |}.

(** What a reply carries into the listeners. *)
Definition call_listener (res : result) (l : listener) : list effect :=
  match l, res with
  | Callback_success cb, Ok _ => [Called cb res]
  | Callback_error cb, Failed _ => [Called cb res]
  | _, _ => []
  end.

(** The listeners of [name] on [q], and [q] without them: every listener
    here was added with [once]. *)
Definition take_listeners (name : string) (q : request)
  : list listener * request :=
  (map snd (List.filter (fun nl => String.eqb (fst nl) name) (listeners q)),
   {| command := command q;
      entry_type := entry_type q;
      account_root := account_root q;
      ledger := ledger q;
      listeners :=
        List.filter (fun nl => negb (String.eqb (fst nl) name)) (listeners q) |}).

(** [request.emit(name, ...)] for the two events the closures emit; only
    callback wrappers listen to these. *)
Definition emit_cache_event (r : remote) (rid : nat) (name : string)
    (res : result) : remote * list effect :=
  match requests r !! rid with
  | None => (r, [])
  | Some q =>
      let '(ls, q1) := take_listeners name q in
      ({| accounts := accounts r; requests := <[rid := q1]> (requests r) |},
       flat_map (call_listener res) ls)
  end.

(** One listener of [success] or [error] on request [rid]. *)
Definition run_listener (rid : nat) (res : result)
    (acc : remote * list effect) (l : listener) : remote * list effect :=
  let '(r, done) := acc in
  match l, res with
  | AccountRootSuccess account, Ok m =>
      let info1 := {| seq := node_Sequence m; caching_seq_request := None |} in
      let r1 :=
        {| accounts := <[account := info1]> (accounts r);
           requests := requests r |} in
      let '(r2, e) := emit_cache_event r1 rid "success_account_seq_cache" res in
      (r2, done ++ e)
  | AccountRootError account, Failed _ =>
      let info := default empty_info (accounts r !! account) in
      let r1 :=
        {| accounts := <[account := clear_marker info]> (accounts r);
           requests := requests r |} in
      let '(r2, e) := emit_cache_event r1 rid "error_account_seq_cache" res in
      (r2, done ++ e)
  | _, _ => (r, done ++ call_listener res l)
  end.

(** The reply to request [rid] arrives: the Request emits [success] with
    the message, or [error]. *)
Definition reply (r : remote) (rid : nat) (res : result)
  : remote * list effect :=
  match requests r !! rid with
  | None => (r, [])
  | Some q =>
      let name := match res with Ok _ => "success" | Failed _ => "error" end in
      let '(ls, q1) := take_listeners name q in
      let r1 :=
        {| accounts := accounts r; requests := <[rid := q1]> (requests r) |} in
      foldl (run_listener rid res) (r1, []) ls
  end.

End SeqCache.

(* ===================================================================== *)
(** ** The constructor's options *)
(* ===================================================================== *)

Module Config.

(** The option-derived fields of a Remote once the type checks of the
    constructor are passed. They are kept as values, because the checks
    test their [typeof]. *)
Record settings : Type := {
  trusted : value;
  local_sequence : value;
  local_fee : value;
  local_signing : value;
  canonical_signing : value;
  fee_cushion : value;
  max_fee : value;
  _connection_offset : value;
  _submission_timeout : value
}.

Definition is_type (t : string) (v : value) : bool :=
  String.eqb (typeof v) t.

(** [(typeof v === t) ? v : d]. *)
Definition or_default (t : string) (v d : value) : value :=
  if is_type t v then v else d.

(** [1000 * v] for a [v] that is a number. *)
Definition times_1000 (v : value) : value :=
  match v with
  | VNumber n => VNumber (JS.scale 1000 n)
  | _ => VNumber NaN
  end.

(** [/^(undefined|t)$/.test(typeof v)]. *)
Definition undefined_or (t : string) (v : value) : bool :=
  is_type "undefined" v || is_type t v.

(** The message of the [TypeError] for option [name]. *)
Definition not_a (name kind : string) : string :=
  let dq := String (ascii_of_nat 34) EmptyString in
  "Remote " +:+ dq +:+ name +:+ dq +:+ " configuration is not " +:+ kind.

Definition check (ok : bool) (msg : string) (k : outcome settings)
  : outcome settings :=
  if ok then k else Throw (TypeError msg).

(** [function Remote(opts)] from its first line to the last type check;
    [opts] is the options object ([{}] when none is given). The rest of the
    constructor registers servers and listeners. *)
Definition Remote (opts : gmap string value) : outcome settings :=
  let trusted := VBool (truthy (get opts "trusted")) in
  let local_sequence := VBool (truthy (get opts "local_sequence")) in
  let local_fee := or_default "boolean" (get opts "local_fee") (VBool true) in
  let local_signing :=
    or_default "boolean" (get opts "local_signing") (VBool true) in
  let canonical_signing :=
    or_default "boolean" (get opts "canonical_signing") (VBool true) in
  let fee_cushion :=
    or_default "number" (get opts "fee_cushion") (VNumber (Fin (12 # 10))) in
  let max_fee := or_default "number" (get opts "max_fee") (VNumber PosInf) in
  let _connection_offset :=
    times_1000
      (or_default "number" (get opts "connection_offset") (VNumber (of_Z 0))) in
  let _submission_timeout :=
    times_1000
      (or_default "number" (get opts "submission_timeout")
         (VNumber (of_Z 10))) in
  let local_sequence :=
    if truthy local_signing then VBool true else local_sequence in
  let local_fee := if truthy local_signing then VBool true else local_fee in
  check (is_type "number" _connection_offset)
    (not_a "connection_offset" "a Number")
  (check (is_type "number" _submission_timeout)
    (not_a "submission_timeout" "a Number")
  (check (is_type "number" max_fee)
    (not_a "max_fee" "a Number")
  (check (is_type "number" fee_cushion)
    (not_a "fee_cushion" "a Number")
  (check (is_type "boolean" local_signing)
    (not_a "local_signing" "a Boolean")
  (check (is_type "boolean" local_fee)
    (not_a "local_fee" "a Boolean")
  (check (is_type "boolean" local_sequence)
    (not_a "local_sequence" "a Boolean")
  (check (undefined_or "number" (get opts "ping"))
    (not_a "ping" "a Number")
  (check (undefined_or "object" (get opts "storage"))
    (not_a "storage" "an Object")
  (Return
     {| trusted := trusted;
        local_sequence := local_sequence;
        local_fee := local_fee;
        local_signing := local_signing;
        canonical_signing := canonical_signing;
        fee_cushion := fee_cushion;
        max_fee := max_fee;
        _connection_offset := _connection_offset;
        _submission_timeout := _submission_timeout |}))))))))).

End Config.

(* ===================================================================== *)
(** ** Inbound messages and [ledgerAccept] *)
(* ===================================================================== *)

Module Inbound.
Import Ledger.

(** What [_handleMessage] holds after [JSON.parse]: [null], an object, or
    anything else (a payload that does not parse stays the string it
    was). *)
Inductive parsed : Type :=
| P_null
| P_object (o : gmap string value)
| P_other (v : value).

(** What a message leads to, next to the events of the ledger tracker. *)
Inductive effect : Type :=
| Ledger_event (e : Ledger.event)
| Emit_error (name : string)
| Emit_server_status (o : gmap string value)
| To_handleTransaction (o : gmap string value)
| To_handlePathFind (o : gmap string value).

(** [Remote.isValidMessage] on an object. *)
Definition isValidMessage (o : gmap string value) : bool :=
  is_type "string" (get o "type").

Definition string_of (v : value) : string :=
  match v with
  | VString s => s
  | _ => EmptyString
  end.

(** [v] is [undefined] or [null]: reading a property of it throws. *)
Definition nullish (v : value) : bool :=
  match v with
  | VUndefined | VNull => true
  | _ => false
  end.

(** [this.emit('error', new StellarError('remoteUnexpected', ...))]. An
    EventEmitter that has no listener for [error] throws the error instead
    of emitting it; the constructor of Remote adds none, so [listens] says
    whether somebody else did. The StellarError is given as the [Error]
    with its message. *)
Definition emit_error (listens : bool) : list effect * outcome unit :=
  ([Emit_error "remoteUnexpected"],
   if listens then Return tt
   else Throw (Error "Unexpected response from remote")).

(** [Remote.prototype._handleMessage], with the ledger tracker as the
    state. Reading [null.type] in [isValidMessage] throws, and so does
    [_handleTransaction] when it reads [message.transaction.hash] of a
    message without a [transaction]. *)
Definition _handleMessage (listens : bool) (t : tracker) (p : parsed)
  : tracker * list effect * outcome unit :=
  match p with
  | P_null => (t, [], Throw (TypeError "Cannot read property 'type' of null"))
  | P_other _ => (t, fst (emit_error listens), snd (emit_error listens))
  | P_object o =>
      if negb (isValidMessage o) then
        (t, fst (emit_error listens), snd (emit_error listens))
      else
        let type := string_of (get o "type") in
        if String.eqb type "ledgerClosed" then
          let '(t1, es) := _handleLedgerClosed t o in
          (t1, map Ledger_event es, Return tt)
        else if String.eqb type "serverStatus" then
          (t, [Emit_server_status o], Return tt)
        else if String.eqb type "transaction" then
          if nullish (get o "transaction") then
            (t, [], Throw (TypeError "Cannot read property 'hash' of undefined"))
          else (t, [To_handleTransaction o], Return tt)
        else if String.eqb type "find_path" then
          (t, [To_handlePathFind o], Return tt)
        else (t, [], Return tt)
  end.

(** [Remote.prototype.ledgerAccept]: the error event, or the
    [ledger_accept] request sent. *)
Inductive accept : Type :=
| Not_stand_alone
| Ledger_accept_requested.

Definition ledgerAccept (t : tracker) : accept :=
  if negb (default false (_stand_alone t)) then Not_stand_alone
  else Ledger_accept_requested.

End Inbound.

(* ===================================================================== *)
(** ** Listeners of [transaction_all] *)
(* ===================================================================== *)

Module Subscriptions.

(** The two fields the listener hooks of the constructor use. *)
Record remote : Type := {
  _transaction_subs : Z;
  _connected : bool
}.

Inductive effect : Type :=
| Subscribe (streams : list string)
| Unsubscribe (streams : list string).

(** [!self._transaction_subs && self._connected]. *)
Definition none_and_connected (r : remote) : bool :=
  (_transaction_subs r =? 0) && _connected r.

(** [listenerAdded], the listener of [newListener]. *)
Definition listenerAdded (r : remote) (type : string) : remote * list effect :=
  if String.eqb type "transaction_all" then
    ({| _transaction_subs := _transaction_subs r + 1;
        _connected := _connected r |},
     if none_and_connected r then [Subscribe ["transactions"]] else [])
  else (r, []).

(** [listenerRemoved], the listener of [removeListener]. *)
Definition listenerRemoved (r : remote) (type : string)
  : remote * list effect :=
  if String.eqb type "transaction_all" then
    let r1 := {| _transaction_subs := _transaction_subs r - 1;
                 _connected := _connected r |} in
    (r1, if none_and_connected r1 then [Unsubscribe ["transactions"]] else [])
  else (r, []).

(** The feeds [_serverPrepareSubscribe] asks for. *)
Definition feeds (r : remote) : list string :=
  ["ledger"; "server"]
  ++ (if _transaction_subs r =? 0 then [] else ["transactions"]).

Inductive change : Type :=
| Added (type : string)
| Removed (type : string).

Definition apply_change (r : remote) (c : change) : remote * list effect :=
  match c with
  | Added type => listenerAdded r type
  | Removed type => listenerRemoved r type
  end.

Fixpoint run (r : remote) (cs : list change) : remote * list effect :=
  match cs with
  | [] => (r, [])
  | c :: rest =>
      let '(r1, e1) := apply_change r c in
      let '(r2, e2) := run r1 rest in
      (r2, e1 ++ e2)
  end.

End Subscriptions.

(* ===================================================================== *)
(** ** Connecting *)
(* ===================================================================== *)

Module Connecting.
Import Core Proto.

(** [Server_connect n ref]: [ref.connect()] is called by the run of
    [nextServer] that the connection offset timer started as its [n]-th
    (the run that [connect] itself makes is the one with [n = 0]). *)
Inductive effect : Type :=
| Of_disconnect (e : Core.effect)
| Once_connect (listener : value)
| Server_connect (after : nat) (ref : nat).

(** One run of the inner function [nextServer] with index [i], on the
    Remote as it is when the run is made: it connects [self._servers[i]]
    and, when [i + 1] is still inside the pool, sets the timer for the run
    with [i + 1], whose index is handed back. *)
Definition nextServer (r : remote) (i : nat)
  : list effect * option nat * outcome unit :=
  match _servers r !! i with
  | None =>
      ([], None, Throw (TypeError "Cannot read property 'connect' of undefined"))
  | Some ref =>
      ([Server_connect i ref],
       if (S i <? length (_servers r))%nat then Some (S i) else None,
       Return tt)
  end.

Section Methods.

Variable apply :
  string -> remote -> list value
  -> remote * list Core.effect * outcome value.

(** [Remote.prototype.connect]: the Remote, the effects, the index the
    timer was set for (if it was set), and the outcome. *)
Definition connect (this : gmap string property) (r : remote)
    (online : value) : remote * list effect * option nat * outcome unit :=
  if (length (_servers r) =? 0)%nat then
    (r, [], None, Throw (Error "No servers available."))
  else
    let go (pre : list effect) :=
      let '(e, timer, o) := nextServer r 0 in (r, pre ++ e, timer, o) in
    if String.eqb (typeof online) "undefined" then go []
    else if String.eqb (typeof online) "function" then go [Once_connect online]
    else if negb (truthy online) then
      match disconnect apply this r VUndefined with
      | (r1, e, o) => (r1, map Of_disconnect e, None, o)
      end
    else go [].

End Methods.

End Connecting.

(* ===================================================================== *)
(** ** The account root cache of [requestLedgerEntry] *)
(* ===================================================================== *)

Module RootCache.

(** A ledger node as the cache uses it. *)
Record node : Type := {
  Account : string;
  Sequence : option number
}.

(** [ledger] holds [_ledger_hash]; [account_root] is
    [ledgers.current.account_root]. *)
Record remote : Type := {
  ledger : Ledger.tracker;
  account_root : gmap string node
}.

(** A [ledger_entry] request of type [account_root]: the account it asks
    for ([message.account_root]) and whether the listener that fills the
    cache is on it. *)
Record request : Type := {
  message_account_root : string;
  caching : bool
}.

Inductive effect : Type :=
| Emit_success (n : node)
| Request_default.

(** The function put in place of [request.request]. *)
Definition request_request (r : remote) (q : request)
  : request * list effect :=
  if negb (truthy (Ledger._ledger_hash (ledger r))) then
    match account_root r !! message_account_root q with
    | Some n => (q, [Emit_success n])
    | None =>
        ({| message_account_root := message_account_root q;
            caching := true |},
         [Request_default])
    end
  else (q, [Request_default]).

(** The request emits [success] with a message whose node is [n]: the
    listener, if it is there, files the node under [n.Account] and is
    gone. *)
Definition success (r : remote) (q : request) (n : node)
  : remote * request :=
  (if caching q
   then {| ledger := ledger r;
           account_root := <[Account n := n]> (account_root r) |}
   else r,
   {| message_account_root := message_account_root q; caching := false |}).

(** [Remote.prototype.dirtyAccountRoot]. *)
Definition dirtyAccountRoot (json_rewrite : string -> string) (r : remote)
    (account : string) : remote :=
  {| ledger := ledger r;
     account_root := delete (json_rewrite account) (account_root r) |}.

End RootCache.

(* ===================================================================== *)
(** ** Accounts and order books by name *)
(* ===================================================================== *)

Module Registry.
Import Dedup.

(** [Remote.prepareTrade]. *)
Definition prepareTrade (currency issuer : string) : string :=
  currency
  +:+ (if String.eqb currency "STR" then EmptyString else "/" +:+ issuer).

(** The key under which [createOrderBook] files a book. *)
Definition book_key (currency_gets issuer_gets currency_pays issuer_pays
    : string) : string :=
  prepareTrade currency_gets issuer_gets
  +:+ ":" +:+ prepareTrade currency_pays issuer_pays.

Inductive effect : Type :=
| New_Account (accountID : string)
| New_OrderBook (key : string).

Section Objects.

(** [uint160.js], [account.js] and [orderbook.js] are collaborators: the
    rewriting of an account name, the object [new Account(remote, id)]
    makes and its [isValid()], the object [new OrderBook(...)] makes and
    its [is_valid()]. *)
Variable json_rewrite : string -> string.
Variable Account_new : string -> listener.
Variable isValid : listener -> bool.
Variable OrderBook_new : string -> string -> string -> string -> string -> listener.
Variable is_valid : listener -> bool.

Definition with_accounts (r : remote) (a : gmap string listener) : remote :=
  {| _received_tx := _received_tx r; _accounts := a; _books := _books r |}.

Definition with_books (r : remote) (b : gmap string listener) : remote :=
  {| _received_tx := _received_tx r; _accounts := _accounts r; _books := b |}.

(** [Remote.prototype.getAccount]. *)
Definition getAccount (r : remote) (accountID : string) : option listener :=
  _accounts r !! json_rewrite accountID.

(** [Remote.prototype.addAccount]. *)
Definition addAccount (r : remote) (accountID : string)
  : remote * listener * list effect :=
  let account := Account_new accountID in
  (if isValid account
   then with_accounts r (<[accountID := account]> (_accounts r))
   else r,
   account, [New_Account accountID]).

(** [Remote.prototype.findAccount] (also [account]). *)
Definition findAccount (r : remote) (accountID : string)
  : remote * listener * list effect :=
  match getAccount r accountID with
  | Some account => (r, account, [])
  | None => addAccount r accountID
  end.

(** [Remote.prototype.createOrderBook] (also [book]), called with four
    strings. *)
Definition createOrderBook (r : remote)
    (currency_gets issuer_gets currency_pays issuer_pays : string)
  : remote * listener * list effect :=
  let key := book_key currency_gets issuer_gets currency_pays issuer_pays in
  match _books r !! key with
  | Some book => (r, book, [])
  | None =>
      let book := OrderBook_new currency_gets issuer_gets currency_pays
                    issuer_pays key in
      (if is_valid book then with_books r (<[key := book]> (_books r)) else r,
       book, [New_OrderBook key])
  end.

End Objects.

End Registry.

(* ===================================================================== *)
(** ** Requests built from options *)
(* ===================================================================== *)

(** [requestLedger] and [requestAccountTx] fill [request.message] from an
    options object. The message a new Request starts with is made by
    request.js and is a parameter here; an options object is the finite map
    of its own enumerable properties. *)
Module Builders.

(** [v === void(0)]. *)
Definition is_undefined (v : value) : bool :=
  match v with
  | VUndefined => true
  | _ => false
  end.

(** [v === 'text']. *)
Definition is_string (v : value) (text : string) : bool :=
  match v with
  | VString s => String.eqb s text
  | _ => false
  end.

(** *** [requestLedger] *)

(** The labels of the inner [switch]. *)
Definition ledger_flags : list string :=
  ["full"; "expand"; "transactions"; "accounts"].

Section Ledger.

(** [Object.keys] of the object behind a reference. *)
Variable keys : nat -> list string.

(** [Remote.prototype.requestLedger]: the message of the new request and
    the callback handed to [request.callback]. [typeof null] is ['object'],
    and [Object.keys(null)] throws. *)
Definition requestLedger (message0 : gmap string value)
    (ledger options callback : value) : outcome (gmap string value * value) :=
  let m1 :=
    if truthy ledger then <["ledger" := ledger]> message0 else message0 in
  if String.eqb (typeof options) "object" then
    match options with
    | VObject ref =>
        Return
          (foldl (fun m o =>
                    if bool_decide (o ∈ ledger_flags)
                    then <[o := VBool true]> m else m)
                 m1 (keys ref),
           callback)
    | _ => Throw (TypeError "Object.keys called on non-object")
    end
  else if String.eqb (typeof options) "function" then
    Return (m1, options)
  else
    Return (<["full" := VBool true]> m1, callback).

End Ledger.

(** *** [requestAccountTx] *)

(** The labels of the [switch] over the option names. *)
Definition account_tx_fields : list string :=
  ["account"; "ledger_index_min"; "ledger_index_max"; "binary"; "count";
   "descending"; "offset"; "limit"; "forward"; "marker"].

(** What [request.filter] was called with, once it accepted it: the
    closure of [propertiesFilter] over [{ Destination: account }] or
    [{ Account: account }], or a function. *)
Inductive filter : Type :=
| By_Destination (account : value)
| By_Account (account : value)
| By_function (fn : value).

Record account_tx : Type := {
  tx_message : gmap string value;
  tx_filter : option filter;
  tx_callback : value
}.

(** [if (options.<from> !== void(0)) options.<to> = options.<from>]. *)
Definition alias (from to : string) (options : gmap string value)
    : gmap string value :=
  if is_undefined (get options from) then options
  else <[to := get options from]> options.

Section AccountTx.

(** The built-in [Boolean], and the function [propertiesFilter] returns
    for an object. *)
Variable Boolean : nat.
Variable propertiesFilter : value -> nat.

(** [accountTxFilter], up to the registration of its handler. *)
Definition accountTxFilter (fn : value) : outcome filter :=
  if negb (String.eqb (typeof fn) "function") then
    Throw (Error "Missing filter function")
  else Return (By_function fn).

(** [Remote.prototype.requestAccountTx] on an options object: the options
    object as the call leaves it, and the request or the error. The body
    of the [forEach] sees [this[o]] as the value [v] of the property. *)
Definition requestAccountTx (message0 : gmap string value)
    (options : gmap string value) (callback : value)
    : gmap string value * outcome account_tx :=
  let options1 := alias "min_ledger" "ledger_index_min" options in
  let options2 := alias "max_ledger" "ledger_index_max" options1 in
  let message1 :=
    map_fold (fun o v (m : gmap string value) =>
                if bool_decide (o ∈ account_tx_fields)
                then <[o := v]> m else m)
             message0 options2 in
  let options3 :=
    if negb (String.eqb (typeof (get options2 "parseBinary")) "boolean")
    then <["parseBinary" := VBool true]> options2 else options2 in
  let options4 :=
    if truthy (get options3 "binary")
       || (truthy (get options3 "map") || truthy (get options3 "reduce"))
    then <["filter" := if truthy (get options3 "filter")
                       then get options3 "filter"
                       else VFunction Boolean]> options3
    else options3 in
  let made f :=
    {| tx_message := message1; tx_filter := f; tx_callback := callback |} in
  if truthy (get options4 "filter") then
    if is_string (get options4 "filter") "inbound" then
      (options4, Return (made (Some (By_Destination (get options4 "account")))))
    else if is_string (get options4 "filter") "outbound" then
      (options4, Return (made (Some (By_Account (get options4 "account")))))
    else
      let options5 :=
        if String.eqb (typeof (get options4 "filter")) "object"
        then <["filter" := VFunction (propertiesFilter (get options4 "filter"))]>
               options4
        else options4 in
      match accountTxFilter (get options5 "filter") with
      | Return f => (options5, Return (made (Some f)))
      | Throw e => (options5, Throw e)
      end
  else (options4, Return (made None)).

End AccountTx.

End Builders.

(* ===================================================================== *)
(** ** Transactions by type name *)
(* ===================================================================== *)

Module Transactions.

(** The table of [createTransaction]: lower-case name and the method of
    Transaction it stands for. *)
Definition transactionTypes : list (string * string) :=
  [("payment", "payment"); ("inflation", "inflation");
   ("accountdelete", "accountDelete"); ("accountset", "accountSet");
   ("trustset", "trustSet"); ("offercreate", "offerCreate");
   ("offercancel", "offerCancel"); ("claim", "claim");
   ("passwordfund", "passwordFund"); ("passwordset", "passwordSet");
   ("setregularkey", "setRegularKey"); ("walletadd", "walletAdd");
   ("sign", "sign")].

Definition lower (c : ascii) : ascii :=
  let n := nat_of_ascii c in
  if ((65 <=? n)%nat && (n <=? 90)%nat)%bool then ascii_of_nat (n + 32)
  else c.

(** [String.prototype.toLowerCase] on characters below 256, as far as the
    table can see it: only [A] to [Z] become the letters [a] to [z]; the
    other upper-case letters below 256 become letters that no name of the
    table holds, and are left as they are here. *)
Fixpoint toLowerCase (s : string) : string :=
  match s with
  | EmptyString => EmptyString
  | String c rest => String (lower c) (toLowerCase rest)
  end.

(** What the table inherits from [Object.prototype] under a name without
    upper-case letters, as the property key it becomes in
    [transaction[transactionType]]: the function [Object] under
    [constructor] and the prototype itself under [__proto__]. *)
Definition inherited (name : string) : option string :=
  if String.eqb name "constructor"
  then Some "function Object() { [native code] }"
  else if String.eqb name "__proto__" then Some "[object Object]"
  else None.

(** [transactionTypes[type.toLowerCase()]], as a property key when it is
    truthy. *)
Definition type_for (type : string) : option string :=
  let name := toLowerCase type in
  match (list_to_map transactionTypes : gmap string string) !! name with
  | Some method => Some method
  | None => inherited name
  end.

Inductive effect : Type :=
| Submit (callback : value).

Section Create.

(** transaction.js is a collaborator: [T] are its Transaction objects,
    [blank] is [new Transaction(this)], and [method name] is the function
    a Transaction has under [name], if it has one. [prop ref name] reads a
    property of the object behind a reference. *)
Variable T : Type.
Variable blank : T.
Variable method : string -> option (T -> value -> outcome T).
Variable prop : nat -> string -> value.

(** [transaction[transactionType](argument)] after the test of
    [transactionType]. *)
Definition build (transactionType : option string) (argument : value)
    : outcome T :=
  match transactionType with
  | None => Throw (Error "Invalid transaction type: undefined")
  | Some name =>
      match method name with
      | Some f => f blank argument
      | None => Throw (TypeError "undefined is not a function")
      end
  end.

(** [Remote.prototype.createTransaction] on its [arguments]. *)
Definition createTransaction (arguments : list value)
    : outcome (T * list effect) :=
  let source := nth 0 arguments VUndefined in
  let options := nth 1 arguments VUndefined in
  let made :=
    if String.eqb (typeof source) "object" then
      match source with
      | VObject ref =>
          match prop ref "type" with
          | VString type => build (type_for type) source
          | _ => Throw (Error "Missing transaction type")
          end
      | _ => Throw (TypeError "Cannot read property 'type' of null")
      end
    else if String.eqb (typeof source) "string" then
      match source with
      | VString type => build (type_for type) options
      | _ => Return blank
      end
    else Return blank in
  let lastArg := List.last arguments VUndefined in
  match made with
  | Throw e => Throw e
  | Return transaction =>
      Return (transaction,
              if String.eqb (typeof lastArg) "function"
              then [Submit lastArg] else [])
  end.

End Create.

End Transactions.

(* ===================================================================== *)
(** ** Vocabulary of the statements *)
(* ===================================================================== *)

(** *** Order of ledger indices *)

Module LedgerSpec.
Import Ledger.

(** [a <= b] on numbers, as seen through [>=]. *)
Definition le (a b : number) : Prop := JS.ge b a = true.

(** The tracked index did not go down between [before] and [after]. *)
Definition no_decrease (before after : option number) : Prop :=
  after = before
  \/ match before, after with
     | Some a, Some b => le a b
     | _, _ => False
     end.

(** One handler run does not lower the tracked index. *)
Definition monotone_step (t : tracker) (i : inbound) : Prop :=
  no_decrease (_ledger_current_index t)
              (_ledger_current_index (fst (handle t i))).

(** The tracker after an accepted [ledgerClosed] message. *)
Definition advanced (t : tracker) (m : message) : tracker :=
  {| _ledger_time := get m "ledger_time";
     _ledger_hash := get m "ledger_hash";
     _ledger_current_index :=
       Some (JS.add (number_of (get m "ledger_index")) (of_Z 1));
     _stand_alone := _stand_alone t;
     _testnet := _testnet t |}.

(** A subscribe reply that reports ledger [idx]. *)
Definition ack_at (idx : Z) (hash : string) : ack :=
  {| stand_alone := VBool false;
     testnet := VBool false;
     ledger_hash := VString hash;
     ledger_index := Some (of_Z idx);
     ledger_time := VNumber (of_Z 1000) |}.

(** The four messages closing ledgers 5, 7, 6 and 8. *)
Definition four : list inbound :=
  [LedgerClosed (closed 5 "A"); LedgerClosed (closed 7 "B");
   LedgerClosed (closed 6 "C"); LedgerClosed (closed 8 "D")].

End LedgerSpec.

(** *** Sample transaction messages *)

Module DedupSpec.
Import Dedup.

(** A proposed ([validated] absent) or validated payment from [alice] to
    [bob], without metadata. *)
Definition payment (h : string) (is_validated : bool) : message unit :=
  {| hash := h;
     validated := if is_validated then VBool true else VUndefined;
     meta := None;
     tx_Account := Some "alice";
     tx_Destination := Some "bob" |}.

(** A Remote on which an Account object for [alice] is registered. *)
Definition watching_alice : remote :=
  {| _received_tx := LRU.create 100;
     _accounts := {[ "alice" := {| oref := 1; notify_prop := VFunction 7 |} ]};
     _books := ∅ |}.

Definition no_accounts (md : unit) : list string := [].

(** The objects whose [notify] is called for a list of names: for each
    name in turn, the entry the dictionary has under it, if there is one
    and its [notify] is a function. *)
Definition notified (dict : gmap string listener) (names : list string)
    : list nat :=
  omap (fun el =>
          match dict !! el with
          | Some item =>
              if String.eqb (typeof (notify_prop item)) "function"
              then Some (oref item) else None
          | None => None
          end) names.

Section Full.

Context {metadata : Type}.
Variable getAffectedAccounts : metadata -> list string.
Variable getAffectedBooks : metadata -> list string.

(** The account names a message is passed on under: the affected accounts
    of its metadata, or, without metadata, its [Account] and
    [Destination]. *)
Definition account_names (m : message metadata) : list string :=
  match meta m with
  | Some md => getAffectedAccounts md
  | None => [key_of (tx_Account m); key_of (tx_Destination m)]
  end.

(** The order book keys: the affected books of the metadata, if any. *)
Definition book_names (m : message metadata) : list string :=
  match meta m with
  | Some md => getAffectedBooks md
  | None => []
  end.

(** The listener notifications of a message that is fanned out: the
    Account objects first, then the OrderBook objects, each called with
    the message. *)
Definition notifications (r : remote) (m : message metadata)
    : list (effect metadata) :=
  map (fun target => Notify target m)
      (notified (_accounts r) (account_names m)
       ++ notified (_books r) (book_names m)).

End Full.

End DedupSpec.

(** *** Sample pools *)

Module PoolSpec.
Import Core.

Definition idle_server : Server.t :=
  {| Server.opts_primary := false;
     Server._score := of_Z 0;
     Server._fee := of_Z 10;
     Server._connected := false;
     Server._primary := false |}.

(** One server registered, not connected, no primary. *)
Definition one_down : remote := addServer init idle_server.

(** Two servers registered, the second one configured as primary. *)
Definition two_down : remote :=
  addServer one_down
    {| Server.opts_primary := true;
       Server._score := of_Z 0;
       Server._fee := of_Z 10;
       Server._connected := false;
       Server._primary := false |}.

(** No entry of the pool is connected, nor is the primary. *)
Definition none_connected (r : remote) : Prop :=
  Forall (fun ref => is_connected (servers r) ref = false) (_servers r)
  /\ match _primary_server r with
     | Some p => is_connected (servers r) p = false
     | None => True
     end.

Definition reads_undefined : error :=
  TypeError "Cannot read property '_connected' of undefined".

End PoolSpec.

(** *** Calls by name *)

Module DispatchSpec.
Import Core Proto.

(** The name the specification gives: [request_] put in front of the command. *)
Definition prefixed (cmd : string) : string := "request_" +:+ cmd.

Definition does_not_exist (name : string) : error :=
  Error ("Command does not exist: " +:+ name).

(** Builders that change nothing and hand back an object. *)
Definition stub (f : string) (r : remote) (args : list value)
  : remote * list effect * outcome value :=
  (r, [], Return (VObject (String.length f))).

(** A Remote that also has the property [request_ping], bound to
    [requestPing]. *)
Definition with_request_ping : gmap string property :=
  <["request_ping" := Method "requestPing"]> Remote_object.

(** A Remote on which something is bound to [_set_state] as well: the
    function [_setState]. *)
Definition with_set_state : gmap string property :=
  <["_set_state" := Method "_setState"]> Remote_object.

(** The call of a function of remote.js: [_setState] with a state name
    does what [_setState] does; the other functions are builders as in
    [stub]. *)
Definition methods (f : string) (r : remote) (args : list value)
  : remote * list effect * outcome value :=
  match String.eqb f "_setState", args with
  | true, VString s :: _ =>
      let '(r1, e) := _setState r s in (r1, e, Return VUndefined)
  | _, _ => stub f r args
  end.

(** A Remote with one server, online after that server connected. *)
Definition online_one : remote :=
  fst (deliver_all PoolSpec.one_down [Connect 0]).

(** What follows the throw-free part of [disconnect]. *)
Definition disconnect_effects (r : remote) (callback : value)
  : list effect :=
  (if String.eqb (typeof callback) "function"
   then [Once "disconnect" callback] else [])
  ++ map Server_disconnect (_servers r).

End DispatchSpec.

(** *** Outcomes of the constructor *)

Module ConfigSpec.
Import Config.

Definition throws {A} (o : outcome A) : bool :=
  match o with
  | Throw _ => true
  | Return _ => false
  end.

(** The settings the constructor arrives at when it does not throw. *)
Definition settings_of (opts : gmap string value) : settings :=
  let signing :=
    or_default "boolean" (get opts "local_signing") (VBool true) in
  {| trusted := VBool (truthy (get opts "trusted"));
     local_sequence :=
       if truthy signing then VBool true
       else VBool (truthy (get opts "local_sequence"));
     local_fee :=
       if truthy signing then VBool true
       else or_default "boolean" (get opts "local_fee") (VBool true);
     local_signing := signing;
     canonical_signing :=
       or_default "boolean" (get opts "canonical_signing") (VBool true);
     fee_cushion :=
       or_default "number" (get opts "fee_cushion") (VNumber (Fin (12 # 10)));
     max_fee := or_default "number" (get opts "max_fee") (VNumber PosInf);
     _connection_offset :=
       times_1000
         (or_default "number" (get opts "connection_offset")
            (VNumber (of_Z 0)));
     _submission_timeout :=
       times_1000
         (or_default "number" (get opts "submission_timeout")
            (VNumber (of_Z 10))) |}.

Definition bad_ping : error := TypeError (not_a "ping" "a Number").
Definition bad_storage : error := TypeError (not_a "storage" "an Object").

(** A whole number of seconds whose milliseconds a JavaScript number
    holds exactly: [1000 * k] is an integer of at most [2^53] in size. *)
Definition exact_in_ms (k : Z) : Prop :=
  - 2 ^ 53 <= 1000 * k <= 2 ^ 53.

End ConfigSpec.

(** *** Reading the sequence cache *)

Module SeqSpec.
Import SeqCache.

(** The step a modifier stands for: one up, one down, or none. *)
Definition delta (advance : string) : Z :=
  if String.eqb (toUpperCase advance) "ADVANCE" then 1
  else if String.eqb (toUpperCase advance) "REWIND" then -1
  else 0.

(** The integers that a JavaScript number counts exactly one up and one
    down from: those strictly between [-2^53] and [2^53]. A ledger
    sequence number is far inside. *)
Definition safe (n : Z) : Prop := - 2 ^ 53 < n < 2 ^ 53.

(** The property names every object inherits from [Object.prototype]. A
    dictionary lookup under one of them finds the inherited value where the
    dictionary has no entry of its own. *)
Definition inherited_names : list string :=
  ["constructor"; "toString"; "toLocaleString"; "valueOf"; "hasOwnProperty";
   "isPrototypeOf"; "propertyIsEnumerable"; "__proto__";
   "__defineGetter__"; "__defineSetter__"; "__lookupGetter__";
   "__lookupSetter__"].

(** The sequence stored for [account], if the account has an entry. *)
Definition stored (json_rewrite : string -> string) (r : remote)
    (account : string) : option (option number) :=
  seq <$> (accounts r !! json_rewrite account).

(** The entry of [account], or the empty object a first access makes. *)
Definition entry (r : remote) (account : string) : account_info :=
  default empty_info (accounts r !! account).

(** The request a refresh of [account] is waiting for, if any. *)
Definition in_flight (r : remote) (account : string) : option nat :=
  caching_seq_request (entry r account).

(** The entry of [account] with the refresh over and [s] as sequence. *)
Definition settled (s : option number) : account_info :=
  {| seq := s; caching_seq_request := None |}.

End SeqSpec.

(** *** Runs of the connection state machine *)

Module ConnSpec.
Import Core.

(** The steps of a run: the remote before a signal, the signal, the
    effects of its handler, the remote after. *)
Fixpoint steps (r : remote) (ss : list signal)
  : list (remote * signal * list effect * remote) :=
  match ss with
  | [] => []
  | s :: rest =>
      let '(r1, e) := deliver r s in (r, s, e, r1) :: steps r1 rest
  end.

(** What a signal does to the connection count: a connect of a server
    counts one up, a disconnect one down. *)
Definition counted (s : signal) (b a : Z) : Prop :=
  match s with
  | Connect _ => a = b + 1
  | Disconnect _ => a = b - 1
  end.

Definition is_ready (e : effect) : bool :=
  match e with
  | Emit n => String.eqb n "ready"
  | _ => false
  end.

(** What the state machine must emit when the count moves from [b] to
    [a]. *)
Definition transition (b a : Z) : list effect :=
  if (b =? 0) && (a =? 1) then
    [Emit_state "online"; Emit "connect"; Emit "connected"]
  else if (b =? 1) && (a =? 0) then
    [Emit_state "offline"; Emit "disconnect"; Emit "disconnected"]
  else [].

Definition online_iff_connected (r : remote) : Prop :=
  state r = "online" <-> 0 < _connection_count r.

Definition step_ok (st : remote * signal * list effect * remote) : Prop :=
  let '(b, s, es, a) := st in
  online_iff_connected a
  /\ counted s (_connection_count b) (_connection_count a)
  /\ List.filter (fun e => negb (is_ready e)) es
     = transition (_connection_count b) (_connection_count a).

(** The invariant in the form the handlers preserve. *)
Definition inv (r : remote) : Prop :=
  (state r = "online" /\ 0 < _connection_count r)
  \/ (state r = "offline" /\ _connection_count r <= 0).

End ConnSpec.

(** *** The pool as a whole *)

Module PoolMore.
Import Core.

(** [score + fee] of the server behind [ref]. *)
Definition total (h : gmap nat Server.t) (ref : nat) : number :=
  match deref h ref with
  | Some s => JS.add (Server._score s) (Server._fee s)
  | None => NaN
  end.

(** [a] may stand before [b]: [b]'s total is at least [a]'s. *)
Definition before (h : gmap nat Server.t) (a b : nat) : Prop :=
  JS.ge (total h b) (total h a) = true.

(** [ref] is a Server object with a total that can be compared. *)
Definition usable (h : gmap nat Server.t) (ref : nat) : Prop :=
  is_Some (h !! ref) /\ total h ref <> NaN.

(** The primary server is set and connected. *)
Definition primary_up (r : remote) : bool :=
  match _primary_server r with
  | Some p => is_connected (servers r) p
  | None => false
  end.

(** Every entry of the pool is a Server object whose [score + fee] is a
    number that can be compared. *)
Definition comparable (r : remote) : Prop :=
  Forall (fun ref => is_Some (servers r !! ref)
                     /\ total (servers r) ref <> NaN) (_servers r).

(** The entries of the pool are distinct Server objects. *)
Definition pool_ok (r : remote) : Prop :=
  NoDup (_servers r)
  /\ Forall (fun ref => is_Some (servers r !! ref)) (_servers r).

(** Only the primary server carries the [_primary] flag. *)
Definition flags_ok (r : remote) : Prop :=
  forall ref s,
    servers r !! ref = Some s -> Server._primary s = true ->
    _primary_server r = Some ref.

(** The flag [_connected] and the state move together. *)
Definition in_step (r : remote) : Prop :=
  (state r = "online" /\ _connected r = true)
  \/ (state r = "offline" /\ _connected r = false).

(** The outcome of routing is one effect, or a throw with none. *)
Definition one_effect_or_throw (res : remote * list effect * outcome unit)
  : Prop :=
  match res with
  | (_, [_], Return _) => True
  | (_, [], Throw _) => True
  | _ => False
  end.

(** Three servers: [0] busy and connected, [1] idle but down, [2] the
    cheapest one that is connected. *)
Definition three : remote :=
  addServer
    (addServer
       (addServer init
          {| Server.opts_primary := false; Server._score := of_Z 7;
             Server._fee := of_Z 10; Server._connected := true;
             Server._primary := false |})
       {| Server.opts_primary := false; Server._score := of_Z 0;
          Server._fee := of_Z 1; Server._connected := false;
          Server._primary := false |})
    {| Server.opts_primary := false; Server._score := of_Z 2;
       Server._fee := of_Z 10; Server._connected := true;
       Server._primary := false |}.

End PoolMore.

(** *** Connecting *)

Module ConnectSpec.
Import Core Connecting.

(** [online] is an argument for which [connect] goes on to connect: absent,
    a callback, or any truthy value. *)
Definition goes_online (online : value) : bool :=
  String.eqb (typeof online) "undefined"
  || String.eqb (typeof online) "function"
  || truthy online.

(** The listener [connect] registers, if [online] is a callback. *)
Definition on_connect (online : value) : list effect :=
  if String.eqb (typeof online) "function" then [Once_connect online] else [].

(** The servers that a list of effects tells to connect, in order. *)
Definition connected_refs (es : list effect) : list nat :=
  flat_map (fun e => match e with Server_connect _ ref => [ref] | _ => [] end) es.

(** The timer counts at which they are told. *)
Definition connect_times (es : list effect) : list nat :=
  flat_map (fun e => match e with Server_connect n _ => [n] | _ => [] end) es.

(** The timers of a [connect] as they fire one after the other: the timer
    set for index [i] fires on the first Remote of [rs], the timer that
    run sets fires on the next one, and so on until a run sets no timer or
    throws. [rs] are the states of the Remote at those moments. *)
Fixpoint fire (i : nat) (rs : list remote) : list effect :=
  match rs with
  | [] => []
  | r :: rest =>
      match nextServer r i with
      | (e, Some j, Return _) => e ++ fire j rest
      | (e, _, _) => e
      end
  end.

(** Everything a [connect] leads to, given what it did itself and the
    Remote at each timer. *)
Definition in_all (started : list effect * option nat) (rs : list remote)
    : list effect :=
  fst started
  ++ match snd started with
     | Some i => fire i rs
     | None => []
     end.

(** Two servers of which the second one registered has the lower fee; the
    second is connected, so that [getServer] sorts it to the front. *)
Definition cheap_second : remote :=
  addServer
    (addServer init
       {| Server.opts_primary := false;
          Server._score := of_Z 0;
          Server._fee := of_Z 10;
          Server._connected := false;
          Server._primary := false |})
    {| Server.opts_primary := false;
       Server._score := of_Z 0;
       Server._fee := of_Z 5;
       Server._connected := true;
       Server._primary := false |}.

End ConnectSpec.

(** *** The cache as a whole *)

Module LRUSpec.
Import LRU.

Definition keys (c : t) : list string := map fst (items c).

(** No key twice, and no more entries than [max]. *)
Definition well_formed (c : t) : Prop :=
  NoDup (keys c) /\ (length (items c) <= max c)%nat.

Inductive op : Type :=
| Op_get (k : string)
| Op_set (k : string) (v : value).

Definition step (c : t) (o : op) : t :=
  match o with
  | Op_get k => snd (get k c)
  | Op_set k v => set k v c
  end.

(** [set(k, true)] for each key of [ks], first to last. *)
Definition insert_all (ks : list string) (c : t) : t :=
  fold_left (fun c k => set k (VBool true) c) ks c.

End LRUSpec.

(** *** Deliveries of distinct validated transactions *)

Module EvictionSpec.

(** A stream of 150 distinct hashes and 150 validated payments, the first
    one with hash [h0]. *)
Definition tag (n : nat) : string := String (ascii_of_nat n) EmptyString.

Definition hashes : list string := map tag (seq 0 150).

Definition stream : list (Dedup.message unit) :=
  map (fun h => DedupSpec.payment h true) hashes.

End EvictionSpec.

(** *** Runs of inbound messages *)

Module InboundSpec.
Import Ledger.

(** The last subscribe reply of a run, if there is one. *)
Fixpoint last_ack (msgs : list inbound) : option ack :=
  match msgs with
  | [] => None
  | LedgerClosed _ :: rest => last_ack rest
  | SubscribeAck a :: rest =>
      match last_ack rest with
      | Some b => Some b
      | None => Some a
      end
  end.

(** The flag a subscribe reply sets from one of its fields. *)
Definition flag_of (f : ack -> value) (msgs : list inbound) (before : option bool)
  : option bool :=
  match last_ack msgs with
  | Some a => Some (truthy (f a))
  | None => before
  end.

Definition is_NaN (n : option number) : bool :=
  match n with
  | Some NaN => true
  | _ => false
  end.

End InboundSpec.

(** *** Counting subscriptions *)

Module SubscriptionSpec.
Import Subscriptions.

(** Subscribe calls less unsubscribe calls. *)
Fixpoint balance (es : list effect) : Z :=
  match es with
  | [] => 0
  | Subscribe _ :: rest => 1 + balance rest
  | Unsubscribe _ :: rest => balance rest - 1
  end.

(** Listeners of [transaction_all] added less those removed. *)
Fixpoint net (cs : list change) : Z :=
  match cs with
  | [] => 0
  | Added type :: rest =>
      (if String.eqb type "transaction_all" then 1 else 0) + net rest
  | Removed type :: rest =>
      net rest - (if String.eqb type "transaction_all" then 1 else 0)
  end.

Definition indicator (n : Z) : Z := if 0 <? n then 1 else 0.

End SubscriptionSpec.

(** *** Names without separators *)

Module RegistrySpec.

(** [c] does not occur in [s]. *)
Fixpoint free_of (c : ascii) (s : string) : bool :=
  match s with
  | EmptyString => true
  | String a rest => negb (Ascii.eqb a c) && free_of c rest
  end.

(** A currency code with neither [/] nor [:]. *)
Definition plain (currency : string) : bool :=
  free_of "/" currency && free_of ":" currency.

(** The part of a book that the key can tell apart: the currency, and the
    issuer unless the currency is [STR]. *)
Definition same_side (c i c' i' : string) : Prop :=
  c = c' /\ (c = "STR" \/ i = i').

(** An Account object with a [notify] method. *)
Definition account_object (id : string) : Dedup.listener :=
  {| Dedup.oref := String.length id; Dedup.notify_prop := VFunction 0 |}.

Definition book_object (cg ig cp ip key : string) : Dedup.listener :=
  {| Dedup.oref := String.length key; Dedup.notify_prop := VFunction 1 |}.

Definition always (l : Dedup.listener) : bool := true.

End RegistrySpec.

(** *** Options as they reach a message *)

Module BuilderSpec.
Import Builders.

(** The value [requestAccountTx] sends under [k] for an options object:
    [min_ledger] and [max_ledger], when given, stand for
    [ledger_index_min] and [ledger_index_max]. *)
Definition sent (options : gmap string value) (k : string) : option value :=
  if String.eqb k "ledger_index_min" then
    if is_undefined (get options "min_ledger") then options !! k
    else Some (get options "min_ledger")
  else if String.eqb k "ledger_index_max" then
    if is_undefined (get options "max_ledger") then options !! k
    else Some (get options "max_ledger")
  else options !! k.

(** A filter that is given and is neither a name, an object nor a
    function. *)
Definition bad_filter (v : value) : bool :=
  truthy v
  && negb (is_string v "inbound") && negb (is_string v "outbound")
  && negb (String.eqb (typeof v) "object")
  && negb (String.eqb (typeof v) "function").

(** [binary], [map] or [reduce] is set. *)
Definition post_processed (options : gmap string value) : bool :=
  truthy (get options "binary")
  || (truthy (get options "map") || truthy (get options "reduce")).

(** A Transaction that records the method and the argument it was built
    with. *)
Definition recorded : Type := list (string * value).

Definition recording (name : string)
    : option (recorded -> value -> outcome recorded) :=
  Some (fun this argument => Return (this ++ [(name, argument)])).

End BuilderSpec.

(* ===================================================================== *)
(** * Properties *)
(* ===================================================================== *)

(** ** The connection state machine *)

Module ConnFacts.
Import Core ConnSpec.

Lemma inv_online_iff r : inv r -> online_iff_connected r.
Proof.
  unfold inv, online_iff_connected.
  intros [[Hs Hc] | [Hs Hc]]; split; intros H; try done; try lia.
  rewrite Hs in H. discriminate.
Qed.

Lemma setPrimary_state r ref :
  state (_setPrimaryServer r ref) = state r
  /\ _connection_count (_setPrimaryServer r ref) = _connection_count r
  /\ _servers (_setPrimaryServer r ref) = _servers r.
Proof. done. Qed.

Lemma serverConnect_step r ref :
  inv r ->
  inv (fst (serverConnect r ref))
  /\ _connection_count (fst (serverConnect r ref)) = _connection_count r + 1
  /\ List.filter (fun e => negb (is_ready e)) (snd (serverConnect r ref))
     = transition (_connection_count r)
                  (_connection_count (fst (serverConnect r ref))).
Proof.
  intros Hinv. unfold serverConnect.
  set (r1 := with_count r (_connection_count r + 1)).
  set (r2 := if opts_primary_of r1 ref then _setPrimaryServer r1 ref else r1).
  assert (Hst : state r2 = state r) by (subst r2; destruct (opts_primary_of r1 ref); done).
  assert (Hct : _connection_count r2 = _connection_count r + 1)
    by (subst r2; destruct (opts_primary_of r1 ref); done).
  rewrite Hct.
  destruct (Z.eqb_spec (_connection_count r + 1) 1) as [E | E].
  - assert (Hc0 : _connection_count r = 0) by lia.
    destruct Hinv as [[Hs Hc] | [Hs Hc]]; [lia |].
    unfold _setState. rewrite Hst, Hs. cbn [String.eqb Ascii.eqb Bool.eqb].
    cbn [with_state _connection_count _servers state fst snd].
    split; [left; split; [done | cbn; lia] |]. rewrite Hct, Hc0. split; [done |].
    change (0 + 1) with 1. unfold transition.
    destruct (1 =? Z.of_nat (length (_servers r2))); reflexivity.
  - cbn [fst snd app]. rewrite Hct. split.
    + destruct Hinv as [[Hs Hc] | [Hs Hc]]; [left | right];
        (split; [congruence | lia]).
    + split; [done |]. unfold transition.
      replace ((_connection_count r =? 0) && (_connection_count r + 1 =? 1))
        with false by (symmetry; apply andb_false_iff; right; by apply Z.eqb_neq).
      replace ((_connection_count r =? 1) && (_connection_count r + 1 =? 0))
        with false by (symmetry; apply andb_false_iff;
                       destruct (Z.eqb_spec (_connection_count r) 1);
                       [right; apply Z.eqb_neq; lia | by left]).
      destruct (_connection_count r + 1 =? Z.of_nat (length (_servers r2))); done.
Qed.

Lemma serverDisconnect_step r ref :
  inv r ->
  inv (fst (serverDisconnect r ref))
  /\ _connection_count (fst (serverDisconnect r ref)) = _connection_count r - 1
  /\ List.filter (fun e => negb (is_ready e)) (snd (serverDisconnect r ref))
     = transition (_connection_count r)
                  (_connection_count (fst (serverDisconnect r ref))).
Proof.
  intros Hinv. unfold serverDisconnect.
  set (r1 := with_count r (_connection_count r - 1)).
  assert (Hst : state r1 = state r) by done.
  assert (Hct : _connection_count r1 = _connection_count r - 1) by done.
  rewrite Hct.
  destruct (Z.eqb_spec (_connection_count r - 1) 0) as [E | E].
  - assert (Hc1 : _connection_count r = 1) by lia.
    destruct Hinv as [[Hs Hc] | [Hs Hc]]; [| lia].
    unfold _setState. rewrite Hst, Hs. cbn [String.eqb Ascii.eqb Bool.eqb].
    cbn [with_state _connection_count state fst snd].
    split; [right; split; [done | cbn; lia] |]. rewrite Hct, Hc1.
    split; reflexivity.
  - cbn [fst snd]. rewrite Hct. split.
    + destruct Hinv as [[Hs Hc] | [Hs Hc]]; [left | right];
        (split; [congruence | lia]).
    + split; [done |]. unfold transition.
      replace ((_connection_count r =? 1) && (_connection_count r - 1 =? 0))
        with false by (symmetry; apply andb_false_iff; right; by apply Z.eqb_neq).
      replace ((_connection_count r =? 0) && (_connection_count r - 1 =? 1))
        with false by (symmetry; apply andb_false_iff;
                       destruct (Z.eqb_spec (_connection_count r) 0);
                       [right; apply Z.eqb_neq; lia | by left]).
      reflexivity.
Qed.

Lemma deliver_step r s :
  inv r ->
  inv (fst (deliver r s))
  /\ step_ok (r, s, snd (deliver r s), fst (deliver r s)).
Proof.
  intros Hinv. destruct s as [ref | ref]; cbn [deliver].
  - destruct (serverConnect_step r ref Hinv) as (Hi & Hc & Hf).
    split; [done |]. split; [by apply inv_online_iff | done].
  - destruct (serverDisconnect_step r ref Hinv) as (Hi & Hc & Hf).
    split; [done |]. split; [by apply inv_online_iff | done].
Qed.

Lemma steps_ok ss : forall r,
  inv r -> Forall step_ok (steps r ss) /\ inv (fst (deliver_all r ss)).
Proof.
  induction ss as [| s rest IH]; intros r Hinv; cbn [steps deliver_all].
  - split; [constructor | done].
  - destruct (deliver_step r s Hinv) as [Hi Hok].
    destruct (deliver r s) as [r1 e1] eqn:Hd. cbn [fst snd] in Hi, Hok.
    destruct (IH r1 Hi) as [Hall Hlast].
    destruct (deliver_all r1 rest) as [r2 es]. cbn [fst] in *.
    split; [by constructor | done].
Qed.

End ConnFacts.

(** C4. From a Remote that is offline with no connection counted, take
    any sequence of connect and disconnect signals of its servers. Each
    connect counts the connection count one up and each disconnect one
    down, and after every signal the state is [online] exactly when the
    count is positive. The handler of a signal that takes the count from 0
    to 1 emits [state], [connect], [connected] once each and nothing else
    but a possible [ready], the one that takes it from 1 to 0 emits
    [state], [disconnect], [disconnected] once each, and every other signal
    emits none of them. So the first connect puts the Remote online and a
    further connect emits nothing again. *)
Theorem connection_state_machine (r0 : Core.remote) (ss : list Core.signal) :
  Core.state r0 = "offline" ->
  Core._connection_count r0 = 0 ->
  Forall ConnSpec.step_ok (ConnSpec.steps r0 ss)
  /\ ConnSpec.online_iff_connected (fst (Core.deliver_all r0 ss))
  /\ (forall ref,
        let first := Core.deliver r0 (Core.Connect ref) in
        Core.state (fst first) = "online"
        /\ Core._connection_count (fst first) = 1
        /\ List.filter (fun e => negb (ConnSpec.is_ready e)) (snd first)
           = [Core.Emit_state "online"; Core.Emit "connect";
              Core.Emit "connected"]
        /\ forall ref',
             let second := Core.deliver (fst first) (Core.Connect ref') in
             Core.state (fst second) = "online"
             /\ Core._connection_count (fst second) = 2
             /\ List.filter (fun e => negb (ConnSpec.is_ready e)) (snd second)
                = []).
Proof.
  intros Hs Hc.
  assert (Hinv : ConnSpec.inv r0) by (right; split; [done | lia]).
  destruct (ConnFacts.steps_ok ss r0 Hinv) as [Hall Hlast].
  split; [done |]. split; [by apply ConnFacts.inv_online_iff |].
  intros ref. cbv zeta. cbn [Core.deliver].
  destruct (ConnFacts.serverConnect_step r0 ref Hinv) as (Hi1 & Hc1 & He1).
  rewrite Hc in Hc1. change (0 + 1) with 1 in Hc1.
  rewrite Hc, Hc1 in He1.
  assert (Hon : Core.state (fst (Core.serverConnect r0 ref)) = "online").
  { apply (ConnFacts.inv_online_iff _ Hi1). lia. }
  split; [done |]. split; [done |]. split; [done |].
  intros ref'.
  destruct (ConnFacts.serverConnect_step _ ref' Hi1) as (Hi2 & Hc2 & He2).
  rewrite Hc1 in Hc2. change (1 + 1) with 2 in Hc2.
  rewrite Hc1, Hc2 in He2.
  split; [| done]. apply (ConnFacts.inv_online_iff _ Hi2). lia.
Qed.

Lemma connection_state_machine_witness :
  Forall ConnSpec.step_ok
    (ConnSpec.steps PoolSpec.two_down
       [Core.Connect 0; Core.Connect 1; Core.Disconnect 0; Core.Disconnect 1])
  /\ ConnSpec.online_iff_connected
       (fst (Core.deliver_all PoolSpec.two_down
          [Core.Connect 0; Core.Connect 1; Core.Disconnect 0;
           Core.Disconnect 1]))
  /\ snd (Core.deliver_all PoolSpec.two_down
            [Core.Connect 0; Core.Connect 1; Core.Disconnect 0;
             Core.Disconnect 1])
     = [[Core.Emit_state "online"; Core.Emit "connect";
         Core.Emit "connected"];
        [Core.Emit "ready"];
        [];
        [Core.Emit_state "offline"; Core.Emit "disconnect";
         Core.Emit "disconnected"]].
Proof.
  destruct (connection_state_machine PoolSpec.two_down
              [Core.Connect 0; Core.Connect 1; Core.Disconnect 0;
               Core.Disconnect 1]) as (Hsteps & Hlast & _);
    [reflexivity | reflexivity |].
  split; [exact Hsteps |]. split; [exact Hlast | reflexivity].
Defined.

(** ** The ledger tracker *)

Module LedgerFacts.
Import Ledger LedgerSpec.

Lemma ge_add_one x a : JS.ge x a = true -> JS.ge (JS.add x (of_Z 1)) a = true.
Proof.
  destruct x as [q | | |], a as [p | | |]; cbn; try done.
  intros H. apply Qle_bool_iff in H. apply Qle_bool_iff.
  rewrite Qred_correct. unfold inject_Z. lra.
Qed.

Lemma le_trans a b c : le a b -> le b c -> le a c.
Proof.
  unfold le.
  destruct a as [p | | |], b as [q | | |], c as [r | | |]; cbn; try done.
  intros H1 H2. apply Qle_bool_iff in H1, H2. apply Qle_bool_iff. lra.
Qed.

Lemma no_decrease_trans x y z :
  no_decrease x y -> no_decrease y z -> no_decrease x z.
Proof.
  intros [-> | H1] [-> | H2]; try (by left); try (by right).
  right. destruct x as [a |], y as [b |], z as [c |]; try done.
  by apply (le_trans a b c).
Qed.

(** The two ways [_handleLedgerClosed] can end. *)
Lemma handleLedgerClosed_cases t m :
  _handleLedgerClosed t m = (t, [])
  \/ (isValidLedgerData m = true /\ ledgerAdvanced t m = true
      /\ _handleLedgerClosed t m = (advanced t m, [Ledger_closed_msg m])).
Proof.
  unfold _handleLedgerClosed.
  destruct (isValidLedgerData m); cbn [negb]; [| by left].
  destruct (ledgerAdvanced t m); [by right | by left].
Qed.

Lemma handleLedgerClosed_no_decrease t m :
  monotone_step t (LedgerClosed m).
Proof.
  unfold monotone_step. cbn [handle].
  destruct (handleLedgerClosed_cases t m) as [-> | (_ & Hadv & ->)];
    [by left |].
  right. cbn [fst advanced _ledger_current_index].
  unfold ledgerAdvanced in Hadv.
  destruct (_ledger_current_index t) as [a |] eqn:Hi; cbn [to_number] in Hadv.
  - by apply ge_add_one.
  - by destruct (number_of (get m "ledger_index")).
Qed.

Lemma run_closed_no_decrease ms : forall t,
  no_decrease (_ledger_current_index t)
              (_ledger_current_index (fst (run t (map LedgerClosed ms)))).
Proof.
  induction ms as [| m rest IH]; intros t; cbn [map run].
  - by left.
  - pose proof (handleLedgerClosed_no_decrease t m) as Hstep.
    unfold monotone_step in Hstep. cbn [handle] in *.
    destruct (_handleLedgerClosed t m) as [t1 e1]. cbn [fst] in Hstep.
    specialize (IH t1).
    destruct (run t1 (map LedgerClosed rest)) as [t2 e2]. cbn [fst] in *.
    by apply (no_decrease_trans _ (_ledger_current_index t1)).
Qed.

End LedgerFacts.

(** C1, as amended. A [ledgerClosed] message changes the tracker only when
    it is valid and its [ledger_index] is at least the tracked index, and
    then sets the index to one more and emits [ledger_closed]; so no
    sequence of [ledgerClosed] messages lowers the tracked index. A subscribe
    reply follows another rule: it sets the index to its [ledger_index] plus
    one whenever its [ledger_hash] and [ledger_index] are truthy, whatever
    the tracked index is. *)
Theorem ledger_index_updates :
  (forall t m,
      Ledger._handleLedgerClosed t m = (t, [])
      \/ (Ledger.isValidLedgerData m = true
          /\ Ledger.ledgerAdvanced t m = true
          /\ Ledger._handleLedgerClosed t m
             = (LedgerSpec.advanced t m, [Ledger.Ledger_closed_msg m])))
  /\ (forall t ms,
         LedgerSpec.no_decrease
           (Ledger._ledger_current_index t)
           (Ledger._ledger_current_index
              (fst (Ledger.run t (map Ledger.LedgerClosed ms)))))
  /\ (forall t a,
         Ledger._ledger_current_index (fst (Ledger.serverSubscribed t a))
         = if Ledger.ack_has_ledger a
           then Some (JS.add (to_number (Ledger.ledger_index a)) (of_Z 1))
           else Ledger._ledger_current_index t).
Proof.
  split; [apply LedgerFacts.handleLedgerClosed_cases |].
  split; [intros t ms; apply LedgerFacts.run_closed_no_decrease |].
  intros t a. unfold Ledger.serverSubscribed.
  by destruct (Ledger.ack_has_ledger a).
Qed.

(** C1 as stated fails: with index 10 tracked, a subscribe reply that
    reports ledger 3 is taken and leaves index 4. *)
Lemma subscribe_ack_lowers_index :
  let t := fst (Ledger.run Ledger.init
                  [Ledger.SubscribeAck (LedgerSpec.ack_at 9 "A")]) in
  Ledger._ledger_current_index t = Some (of_Z 10)
  /\ Ledger._ledger_current_index
       (fst (Ledger.handle t (Ledger.SubscribeAck (LedgerSpec.ack_at 3 "B"))))
     = Some (of_Z 4)
  /\ ~ LedgerSpec.monotone_step t
         (Ledger.SubscribeAck (LedgerSpec.ack_at 3 "B")).
Proof.
  cbv zeta. split; [reflexivity |]. split; [reflexivity |].
  intros [H | H]; [discriminate H | vm_compute in H; discriminate H].
Qed.

(** C2, on the code. A new Remote has no tracked index, [5 >= undefined] is
    false, and so are the three tests that follow: the four messages closing
    ledgers 5, 7, 6 and 8 are all dropped, nothing is emitted and the index
    stays [undefined]. *)
Theorem fresh_remote_drops_5_7_6_8 :
  Ledger.run Ledger.init LedgerSpec.four = (Ledger.init, []).
Proof. vm_compute. reflexivity. Qed.

(** Once a subscribe reply has set the index (here to 5), the same four
    messages are taken as the specification says: 5, 7 and 8 are accepted, 6
    is dropped, and the index ends at 9. *)
Lemma subscribed_remote_accepts_5_7_8 :
  let t := fst (Ledger.serverSubscribed Ledger.init (LedgerSpec.ack_at 4 "Z")) in
  snd (Ledger.run t LedgerSpec.four)
  = [Ledger.Ledger_closed_msg (Ledger.closed 5 "A");
     Ledger.Ledger_closed_msg (Ledger.closed 7 "B");
     Ledger.Ledger_closed_msg (Ledger.closed 8 "D")]
  /\ Ledger._ledger_current_index (fst (Ledger.run t LedgerSpec.four))
     = Some (of_Z 9).
Proof. cbv zeta. split; vm_compute; reflexivity. Qed.

(** ** Transaction de-duplication *)

Module LRUFacts.
Import LRU.

Lemma get_miss k c : peek k c = None -> get k c = (None, c).
Proof. unfold peek, get. by intros ->. Qed.

Lemma get_hit k c v :
  peek k c = Some v ->
  get k c = (Some v, {| max := max c; items := (k, v) :: without k (items c) |}).
Proof. unfold peek, get. by intros ->. Qed.

Lemma lookup_head k v l : lookup k ((k, v) :: l) = Some v.
Proof. cbn. by rewrite String.eqb_refl. Qed.

Lemma peek_after_hit k c v :
  peek k c = Some v -> peek k (snd (get k c)) = Some v.
Proof.
  intros H. rewrite (get_hit k c v H). unfold peek. cbn [snd items].
  apply lookup_head.
Qed.

Lemma peek_after_set k v c :
  (0 < max c)%nat -> peek k (set k v c) = Some v.
Proof.
  intros Hmax. unfold peek, set. cbn [items].
  destruct (max c) as [| n]; [lia |]. cbn [take]. apply lookup_head.
Qed.

Lemma max_set k v c : max (set k v c) = max c.
Proof. done. Qed.

End LRUFacts.

Section DedupFacts.

Context {metadata : Type}.
Variable getAffectedAccounts : metadata -> list string.
Variable getAffectedBooks : metadata -> list string.

Import Dedup.

Local Abbreviation handle := (_handleTransaction getAffectedAccounts getAffectedBooks).
Local Abbreviation fan := (fan_out getAffectedAccounts getAffectedBooks).
Local Abbreviation run := (deliver_all getAffectedAccounts getAffectedBooks).

Lemma with_cache_same (r : remote) : with_cache r (_received_tx r) = r.
Proof. by destruct r. Qed.

Lemma fan_with_cache (r : remote) c m : fan (with_cache r c) m = fan r m.
Proof. done. Qed.

Lemma notify_notified (dict : gmap string listener) (m : message metadata)
    (names : list string) :
  flat_map (notify metadata dict m) names
  = map (fun target => Notify target m) (DedupSpec.notified dict names).
Proof.
  unfold DedupSpec.notified.
  induction names as [| el names IH]; [done |].
  cbn [flat_map omap list_omap]. rewrite IH. unfold notify.
  destruct (dict !! el) as [item |]; [| done].
  by destruct (String.eqb (typeof (notify_prop item)) "function").
Qed.

(** What [fan_out] produces, spelled out. *)
Lemma fan_in_full (r : remote) (m : message metadata) :
  fan r m
  = DedupSpec.notifications getAffectedAccounts getAffectedBooks r m
    ++ [Emit_transaction m; Emit_transaction_all m].
Proof.
  unfold fan_out, DedupSpec.notifications, DedupSpec.account_names,
    DedupSpec.book_names.
  f_equal. rewrite !notify_notified.
  destruct (meta m) as [md |].
  - by rewrite !notify_notified, map_app.
  - cbn [DedupSpec.notified omap list_omap]. by rewrite app_nil_r.
Qed.

(** A delivery whose hash is not cached and that is not validated. *)
Lemma handle_unvalidated (r : remote) m :
  LRU.peek (hash m) (_received_tx r) = None ->
  truthy (validated m) = false ->
  handle r m = (r, fan r m).
Proof.
  intros Hmiss Hval. unfold _handleTransaction.
  rewrite (LRUFacts.get_miss _ _ Hmiss). cbn [default truthy].
  rewrite Hval. by rewrite with_cache_same.
Qed.

(** The first validated delivery. *)
Lemma handle_validated (r : remote) m :
  LRU.peek (hash m) (_received_tx r) = None ->
  truthy (validated m) = true ->
  handle r m
  = (with_cache r (LRU.set (hash m) (VBool true) (_received_tx r)), fan r m).
Proof.
  intros Hmiss Hval. unfold _handleTransaction.
  rewrite (LRUFacts.get_miss _ _ Hmiss). cbn [default truthy].
  by rewrite Hval.
Qed.

(** A delivery whose hash is cached. *)
Lemma handle_cached (r : remote) m v :
  LRU.peek (hash m) (_received_tx r) = Some v ->
  truthy v = true ->
  handle r m = (with_cache r (snd (LRU.get (hash m) (_received_tx r))), []).
Proof.
  intros Hhit Hv. unfold _handleTransaction.
  rewrite (LRUFacts.get_hit _ _ _ Hhit). cbn [default snd].
  unfold id. by rewrite Hv.
Qed.

Lemma run_app (xs ys : list (message metadata)) : forall r,
  run r (xs ++ ys)
  = let '(r1, e1) := run r xs in
    let '(r2, e2) := run r1 ys in (r2, e1 ++ e2).
Proof.
  induction xs as [| x xs IH]; intros r; cbn [app deliver_all].
  - by destruct (run r ys).
  - destruct (handle r x) as [r1 e1]. rewrite IH.
    destruct (run r1 xs) as [r2 e2]. by destruct (run r2 ys).
Qed.

Lemma run_unvalidated h (us : list (message metadata)) : forall r,
  LRU.peek h (_received_tx r) = None ->
  Forall (fun m => hash m = h /\ truthy (validated m) = false) us ->
  run r us = (r, map (fan r) us).
Proof.
  induction us as [| u us IH]; intros r Hmiss Hall; cbn [deliver_all map].
  - done.
  - inversion Hall as [| ? ? [Hh Hv] Hrest]; subst.
    rewrite handle_unvalidated by done. by rewrite IH.
Qed.

Lemma run_cached h (ds : list (message metadata)) : forall r v,
  LRU.peek h (_received_tx r) = Some v ->
  truthy v = true ->
  Forall (fun m => hash m = h) ds ->
  snd (run r ds) = map (fun _ => []) ds
  /\ LRU.peek h (_received_tx (fst (run r ds))) = Some v
  /\ _accounts (fst (run r ds)) = _accounts r
  /\ _books (fst (run r ds)) = _books r.
Proof.
  induction ds as [| d ds IH]; intros r v Hhit Hv Hall; cbn [deliver_all map].
  - done.
  - inversion Hall as [| ? ? Hh Hrest]; subst.
    rewrite (handle_cached r d v) by done.
    set (r1 := with_cache r (snd (LRU.get (hash d) (_received_tx r)))).
    assert (Hhit1 : LRU.peek (hash d) (_received_tx r1) = Some v)
      by (by apply LRUFacts.peek_after_hit).
    destruct (IH r1 v Hhit1 Hv Hrest) as (He & Hp & Ha & Hb).
    destruct (run r1 ds) as [r2 es]. cbn [fst snd] in *.
    by rewrite He.
Qed.

(** C3. Take a hash [h] that is not in the cache. Deliveries of [h] that
    are not validated, however many, are each fanned out in full: the
    registered Account and OrderBook objects the message concerns are
    notified, and then [transaction] and [transaction_all] are emitted with
    the message. The first validated delivery is fanned out in the same way
    and puts [h] in the cache; every delivery of [h] after that produces
    nothing. The last part holds from any state in which [h] is cached: the
    delivery is dropped, notifies and emits nothing, and leaves [h]
    cached. *)
Theorem dedup_keys_on_validation (r : remote) (h : string)
    (us : list (message metadata)) (v : message metadata)
    (ds : list (message metadata)) :
  (0 < LRU.max (_received_tx r))%nat ->
  LRU.peek h (_received_tx r) = None ->
  Forall (fun m => hash m = h /\ truthy (validated m) = false) us ->
  hash v = h ->
  truthy (validated v) = true ->
  Forall (fun m => hash m = h) ds ->
  let in_full := fun m =>
    DedupSpec.notifications getAffectedAccounts getAffectedBooks r m
    ++ [Emit_transaction m; Emit_transaction_all m] in
  snd (run r (us ++ [v] ++ ds))
  = map in_full us ++ [in_full v] ++ map (fun _ => []) ds
  /\ LRU.peek h (_received_tx (fst (run r (us ++ [v])))) = Some (VBool true)
  /\ (forall (r' : remote) m w,
         LRU.peek (hash m) (_received_tx r') = Some w ->
         truthy w = true ->
         snd (handle r' m) = []
         /\ LRU.peek (hash m) (_received_tx (fst (handle r' m))) = Some w
         /\ _accounts (fst (handle r' m)) = _accounts r'
         /\ _books (fst (handle r' m)) = _books r').
Proof.
  intros Hmax Hmiss Hus Hv Hval Hds. cbv zeta.
  assert (Hfull : forall ms : list (message metadata),
             map (fun m =>
                    DedupSpec.notifications getAffectedAccounts
                      getAffectedBooks r m
                    ++ [Emit_transaction m; Emit_transaction_all m]) ms
             = map (fan r) ms).
  { intros ms. apply map_ext. intros m. by rewrite fan_in_full. }
  rewrite Hfull, <- fan_in_full.
  assert (Hone : run r (us ++ [v])
                 = (with_cache r (LRU.set h (VBool true) (_received_tx r)),
                    map (fan r) us ++ [fan r v])).
  { rewrite run_app, (run_unvalidated h us r Hmiss Hus). cbn [deliver_all].
    rewrite handle_validated by (by rewrite ?Hv). by rewrite Hv. }
  split; [| split].
  - rewrite app_assoc, run_app, Hone.
    set (r1 := with_cache r (LRU.set h (VBool true) (_received_tx r))).
    assert (Hhit : LRU.peek h (_received_tx r1) = Some (VBool true))
      by (by apply LRUFacts.peek_after_set).
    destruct (run_cached h ds r1 (VBool true) Hhit eq_refl Hds) as (He & _).
    destruct (run r1 ds) as [r2 es]. cbn [snd] in *.
    by rewrite He, <- app_assoc.
  - rewrite Hone. cbn [fst]. by apply LRUFacts.peek_after_set.
  - intros r' m w Hhit Hw. rewrite (handle_cached r' m w Hhit Hw).
    cbn [fst snd]. split; [done |]. split; [| done].
    by apply LRUFacts.peek_after_hit.
Qed.

End DedupFacts.

Lemma dedup_keys_on_validation_witness :
  let r := DedupSpec.watching_alice in
  let u := DedupSpec.payment "H" false in
  let v := DedupSpec.payment "H" true in
  snd (Dedup.deliver_all DedupSpec.no_accounts DedupSpec.no_accounts r
         ([u; u] ++ [v] ++ [u; v]))
  = [[Dedup.Notify 1%nat u; Dedup.Emit_transaction u;
      Dedup.Emit_transaction_all u];
     [Dedup.Notify 1%nat u; Dedup.Emit_transaction u;
      Dedup.Emit_transaction_all u];
     [Dedup.Notify 1%nat v; Dedup.Emit_transaction v;
      Dedup.Emit_transaction_all v];
     []; []]
  /\ LRU.peek "H"
       (Dedup._received_tx
          (fst (Dedup.deliver_all DedupSpec.no_accounts DedupSpec.no_accounts r
                  ([u; u] ++ [v]))))
     = Some (VBool true).
Proof.
  cbv zeta.
  pose proof (dedup_keys_on_validation DedupSpec.no_accounts
                DedupSpec.no_accounts DedupSpec.watching_alice "H"
                [DedupSpec.payment "H" false; DedupSpec.payment "H" false]
                (DedupSpec.payment "H" true)
                [DedupSpec.payment "H" false; DedupSpec.payment "H" true])
    as Hthm.
  destruct Hthm as (Hrun & Hpeek & _).
  - cbn. lia.
  - reflexivity.
  - repeat constructor.
  - reflexivity.
  - reflexivity.
  - repeat constructor.
  - split; [exact Hrun | exact Hpeek].
Defined.

Example dedup_fan_out_alice :
  Dedup.fan_out DedupSpec.no_accounts DedupSpec.no_accounts
    DedupSpec.watching_alice (DedupSpec.payment "H" false)
  = [Dedup.Notify 1%nat (DedupSpec.payment "H" false);
     Dedup.Emit_transaction (DedupSpec.payment "H" false);
     Dedup.Emit_transaction_all (DedupSpec.payment "H" false)].
Proof. vm_compute. reflexivity. Qed.

(** ** Server selection *)

Module PoolFacts.
Import Core PoolSpec.

Lemma sort_insert_Forall {A} (P : A -> Prop) cmp x l :
  P x -> Forall P l -> Forall P (sort_insert cmp x l).
Proof.
  intros Hx Hl. induction Hl as [| y l Hy Hl IH]; cbn [sort_insert].
  - by constructor.
  - destruct (cmp x y <=? 0); repeat constructor; done.
Qed.

Lemma array_sort_Forall {A} (P : A -> Prop) cmp l :
  Forall P l -> Forall P (array_sort cmp l).
Proof.
  unfold array_sort. induction 1 as [| x l Hx Hl IH]; cbn [foldr].
  - constructor.
  - by apply sort_insert_Forall.
Qed.

Lemma first_connected_none h l :
  Forall (fun ref => is_connected h ref = false) l ->
  first_connected h l = Throw reads_undefined.
Proof.
  induction 1 as [| ref l Href Hl IH]; cbn [first_connected].
  - done.
  - by rewrite Href.
Qed.

Lemma first_connected_returns h l ref :
  first_connected h l = Return ref -> is_connected h ref = true.
Proof.
  induction l as [| x l IH]; cbn [first_connected]; [done |].
  destruct (is_connected h x) eqn:Hx; [| done].
  intros [= <-]. done.
Qed.

(** With nothing connected [getServer] does not return: it throws. *)
Lemma getServer_none_connected r :
  none_connected r -> snd (getServer r) = Throw reads_undefined.
Proof.
  intros [Hall Hprim]. unfold getServer.
  destruct (_primary_server r) as [p |].
  - rewrite Hprim. cbn [snd].
    by apply first_connected_none, array_sort_Forall.
  - cbn [snd]. by apply first_connected_none, array_sort_Forall.
Qed.

(** Whatever [getServer] returns is a connected server. *)
Lemma getServer_returns_connected r ref :
  snd (getServer r) = Return ref -> is_connected (servers r) ref = true.
Proof.
  unfold getServer.
  destruct (_primary_server r) as [p |].
  - destruct (is_connected (servers r) p) eqn:Hp; cbn [snd].
    + by intros [= <-].
    + apply first_connected_returns.
  - cbn [snd]. apply first_connected_returns.
Qed.

End PoolFacts.

(** C6, on the code. With one server registered and not connected,
    [getServer] runs off the end of the array and throws a [TypeError]; it
    does not return a missing server. So [feeTx], [feeTxUnit] and [reserve]
    fail with that [TypeError] and not with their own error, and a routed
    request makes [request] throw and no error is emitted on the Request. The
    same happens on an empty pool. *)
Theorem getServer_throws_when_none_connected :
  snd (Core.getServer PoolSpec.one_down) = Throw PoolSpec.reads_undefined
  /\ snd (Core.getServer Core.init) = Throw PoolSpec.reads_undefined
  /\ snd (Core.feeTx PoolSpec.one_down (of_Z 10))
     = Throw PoolSpec.reads_undefined
  /\ snd (Core.feeTxUnit PoolSpec.one_down) = Throw PoolSpec.reads_undefined
  /\ snd (Core.reserve PoolSpec.one_down (of_Z 0))
     = Throw PoolSpec.reads_undefined
  /\ (let q := {| Core.rid := 0; Core.server := Core.Unset |} in
      let r := Core.with_state PoolSpec.one_down "online" (Some "open") true in
      snd (fst (Core.route r q)) = []
      /\ snd (Core.route r q) = Throw PoolSpec.reads_undefined).
Proof. cbv zeta. repeat split; vm_compute; reflexivity. Qed.

(** ** Calls through a property name *)

Module DispatchFacts.
Import Core Proto DispatchSpec.

Lemma prefix_append (p s : string) : String.prefix p (p +:+ s) = true.
Proof.
  induction p as [| c p IH].
  - by destruct s.
  - change (String c p +:+ s) with (String c (p +:+ s)).
    cbn [String.prefix]. destruct (ascii_dec c c); [done | congruence].
Qed.

Lemma method_name_prefixed cmd :
  String.prefix "request_" (method_name cmd) = true.
Proof.
  unfold method_name.
  destruct (String.prefix "request_" cmd) eqn:H; [done |].
  apply prefix_append.
Qed.

(** remote.js binds no property named [_set_state]. *)
Lemma no_set_state : Remote_object !! "_set_state" = None.
Proof. vm_compute. reflexivity. Qed.

(** A table without a function under [_set_state] makes [disconnect]
    throw once every server was told to disconnect. *)
Lemma disconnect_without_set_state apply this r callback :
  (forall f, this !! "_set_state" <> Some (Method f)) ->
  disconnect apply this r callback
  = match _servers r with
    | [] => (r, [], Throw (Error "No servers available, not disconnecting"))
    | _ :: _ =>
        (r, disconnect_effects r callback,
         Throw (TypeError "undefined is not a function"))
    end.
Proof.
  intros Hno. unfold disconnect, disconnect_effects.
  destruct (_servers r) as [| s rest] eqn:Hs; cbn [length Nat.eqb]; [done |].
  destruct (this !! "_set_state") as [[f |] |] eqn:Hl; try done.
  by destruct (Hno f).
Qed.

End DispatchFacts.

(** C5, as amended. The name looked up is the command itself when it
    already begins with [request_] and the command with [request_] in front
    otherwise, so it always begins with [request_]. When the Remote has a
    function under that name the call is that function applied to the
    remaining arguments, and its result is the result of [request]; when it
    has none, [request] throws [Command does not exist:] followed by the
    name, and changes and emits nothing. *)
Theorem request_by_name
    (apply : string -> Core.remote -> list value
             -> Core.remote * list Core.effect * outcome value)
    (this : gmap string Proto.property) (r : Core.remote)
    (cmd : string) (args : list value) :
  let name := if String.prefix "request_" cmd then cmd
              else "request_" +:+ cmd in
  String.prefix "request_" name = true
  /\ (forall f, this !! name = Some (Proto.Method f) ->
        Core.request apply this r (Core.By_name cmd args) = apply f r args)
  /\ ((forall f, this !! name <> Some (Proto.Method f)) ->
        Core.request apply this r (Core.By_name cmd args)
        = (r, [], Throw (DispatchSpec.does_not_exist name))).
Proof.
  cbv zeta. split; [apply DispatchFacts.method_name_prefixed |].
  unfold Core.request, Core.method_name. split.
  - intros f Hf. by rewrite Hf.
  - intros Hno.
    destruct (this !! (if String.prefix "request_" cmd then cmd
                       else "request_" +:+ cmd)) as [[f |] |] eqn:Hl;
      try done.
    by destruct (Hno f).
Qed.

Lemma request_by_name_witness :
  Core.request DispatchSpec.stub DispatchSpec.with_request_ping Core.init
    (Core.By_name "ping" [])
  = DispatchSpec.stub "requestPing" Core.init []
  /\ Core.request DispatchSpec.stub DispatchSpec.with_request_ping Core.init
       (Core.By_name "pong" [])
     = (Core.init, [], Throw (DispatchSpec.does_not_exist "request_pong")).
Proof.
  split.
  - apply (request_by_name DispatchSpec.stub DispatchSpec.with_request_ping
             Core.init "ping" []).
    vm_compute. reflexivity.
  - apply (request_by_name DispatchSpec.stub DispatchSpec.with_request_ping
             Core.init "pong" []).
    intros f. vm_compute. discriminate.
Defined.

(** C5 as stated fails: for the command [request_ping] the name with
    [request_] in front is [request_request_ping], which the Remote does not
    have, and yet the call does not fail: it runs the function under
    [request_ping]. *)
Lemma request_keeps_prefixed_command :
  DispatchSpec.with_request_ping !! DispatchSpec.prefixed "request_ping" = None
  /\ Core.request DispatchSpec.stub DispatchSpec.with_request_ping Core.init
       (Core.By_name "request_ping" [])
     = DispatchSpec.stub "requestPing" Core.init []
  /\ snd (Core.request DispatchSpec.stub DispatchSpec.with_request_ping
            Core.init (Core.By_name "request_ping" []))
     <> Throw (DispatchSpec.does_not_exist
                 (DispatchSpec.prefixed "request_ping")).
Proof.
  split; [vm_compute; reflexivity |].
  split; [vm_compute; reflexivity | vm_compute; discriminate].
Qed.

(** On the properties remote.js itself defines, the ping builder is reached
    under [requestPing] and [ping] only: nothing is bound to [request_ping],
    and [request('ping')] throws. *)
Lemma remote_js_binds_no_request_ping :
  Proto.Remote_object !! "request_ping" = None
  /\ Proto.Remote_object !! "requestPing" = Some (Proto.Method "requestPing")
  /\ Proto.Remote_object !! "ping" = Some (Proto.Method "requestPing")
  /\ Core.request DispatchSpec.stub Proto.Remote_object Core.init
       (Core.By_name "ping" [])
     = (Core.init, [], Throw (DispatchSpec.does_not_exist "request_ping")).
Proof. repeat split; vm_compute; reflexivity. Qed.

(** C10. [disconnect] with no server throws [No servers available, not
    disconnecting]. With at least one server it tells each server to
    disconnect and then calls what the Remote has under [_set_state]. On
    a Remote that has no function there, as on one with the properties
    remote.js defines, whose state setter is [_setState], that call throws
    a [TypeError]: the fields of the Remote, its state among them, are as
    before, and [disconnect] does not return. On a Remote that has a
    function there, [disconnect] calls it with [offline] and returns when
    that call returns. *)
Theorem disconnect_throws_without_set_state
    (apply : string -> Core.remote -> list value
             -> Core.remote * list Core.effect * outcome value)
    (this : gmap string Proto.property)
    (r : Core.remote) (callback : value) :
  let res := Core.disconnect apply this r callback in
  (Core._servers r = [] ->
   res = (r, [], Throw (Error "No servers available, not disconnecting")))
  /\ (Core._servers r <> [] ->
      (forall f, this !! "_set_state" <> Some (Proto.Method f)) ->
      res = (r, DispatchSpec.disconnect_effects r callback,
             Throw (TypeError "undefined is not a function")))
  /\ (Core._servers r <> [] ->
      forall f, this !! "_set_state" = Some (Proto.Method f) ->
        let called := apply f r [VString "offline"] in
        fst res
        = (fst (fst called),
           DispatchSpec.disconnect_effects r callback ++ snd (fst called))
        /\ snd res = match snd called with
                     | Return _ => Return tt
                     | Throw err => Throw err
                     end)
  /\ Proto.Remote_object !! "_set_state" = None.
Proof.
  cbv zeta. split; [| split; [| split]].
  - intros Hs. unfold Core.disconnect. by rewrite Hs.
  - intros Hs Hno.
    rewrite (DispatchFacts.disconnect_without_set_state apply this r callback
               Hno).
    by destruct (Core._servers r).
  - intros Hs f Hf. unfold Core.disconnect, DispatchSpec.disconnect_effects.
    destruct (Core._servers r) as [| s rest] eqn:Hl; [done |].
    cbn [length Nat.eqb]. rewrite Hf.
    destruct (apply f r [VString "offline"]) as [[r1 e3] [v | err]];
      cbn [fst snd]; by rewrite app_assoc.
  - apply DispatchFacts.no_set_state.
Qed.

Lemma disconnect_throws_without_set_state_witness :
  Core.disconnect DispatchSpec.stub Proto.Remote_object PoolSpec.one_down
    (VFunction 3)
  = (PoolSpec.one_down,
     [Core.Once "disconnect" (VFunction 3); Core.Server_disconnect 0],
     Throw (TypeError "undefined is not a function")).
Proof.
  apply (proj1 (proj2 (disconnect_throws_without_set_state DispatchSpec.stub
                         Proto.Remote_object PoolSpec.one_down
                         (VFunction 3)))).
  - discriminate.
  - intros f. vm_compute. discriminate.
Defined.

(** On a Remote that is online and has [_setState] bound under
    [_set_state] too, [disconnect] returns and leaves the Remote
    offline. *)
Lemma disconnect_returns_with_set_state :
  Core._servers DispatchSpec.online_one <> []
  /\ Core.state DispatchSpec.online_one = "online"
  /\ snd (Core.disconnect DispatchSpec.methods DispatchSpec.with_set_state
            DispatchSpec.online_one VUndefined)
     = Return tt
  /\ Core.state
       (fst (fst (Core.disconnect DispatchSpec.methods
                    DispatchSpec.with_set_state DispatchSpec.online_one
                    VUndefined)))
     = "offline"
  /\ snd (fst (Core.disconnect DispatchSpec.methods
                 DispatchSpec.with_set_state DispatchSpec.online_one
                 VUndefined))
     = [Core.Server_disconnect 0; Core.Emit_state "offline";
        Core.Emit "disconnect"; Core.Emit "disconnected"].
Proof. vm_compute. repeat split; discriminate. Qed.

(** ** The constructor's options *)

Module ConfigFacts.
Import Config ConfigSpec.

Lemma or_default_type t v d :
  is_type t d = true -> is_type t (or_default t v d) = true.
Proof. intros Hd. unfold or_default. by destruct (is_type t v) eqn:Hv. Qed.

Lemma times_1000_number v : is_type "number" (times_1000 v) = true.
Proof. by destruct v. Qed.

(** The seven checks on the fields never fire: each field was given a
    value of the right type just before. What is left are the two checks
    made on [opts] itself. *)
Lemma Remote_checks opts :
  Remote opts
  = check (undefined_or "number" (get opts "ping"))
      (not_a "ping" "a Number")
      (check (undefined_or "object" (get opts "storage"))
         (not_a "storage" "an Object")
         (Return (settings_of opts))).
Proof.
  unfold Remote.
  rewrite !times_1000_number.
  rewrite !(or_default_type "number") by done.
  rewrite (or_default_type "boolean") by done.
  set (signing := or_default "boolean" (get opts "local_signing") (VBool true)).
  assert (H1 : is_type "boolean"
                 (if truthy signing then VBool true
                  else or_default "boolean" (get opts "local_fee") (VBool true))
               = true)
    by (destruct (truthy signing); [done | by apply or_default_type]).
  assert (H2 : is_type "boolean"
                 (if truthy signing then VBool true
                  else VBool (truthy (get opts "local_sequence"))) = true)
    by (by destruct (truthy signing)).
  rewrite H1, H2. reflexivity.
Qed.

Lemma get_insert_ne (opts : gmap string value) k k' v :
  k <> k' -> get (<[k := v]> opts) k' = get opts k'.
Proof. intros Hne. unfold get. by rewrite lookup_insert_ne. Qed.

End ConfigFacts.

(** C8, as amended. The constructor throws a [TypeError] at once when
    [ping] is set to something that is not a number, and when [storage] is
    set to something whose type is not [object]. A [trusted] or
    [canonical_signing] of another type does not make it throw: setting
    either to any value leaves it throwing or not as before, and when it
    does not throw [trusted] is the truthiness of the option and
    [canonical_signing] is the option if it is a boolean and [true] if not. *)
Theorem option_type_errors (opts : gmap string value) :
  (Config.undefined_or "number" (get opts "ping") = false ->
     Config.Remote opts = Throw ConfigSpec.bad_ping)
  /\ (Config.undefined_or "number" (get opts "ping") = true ->
      Config.undefined_or "object" (get opts "storage") = false ->
      Config.Remote opts = Throw ConfigSpec.bad_storage)
  /\ (forall v w,
         ConfigSpec.throws
           (Config.Remote (<["trusted" := v]> (<["canonical_signing" := w]> opts)))
         = ConfigSpec.throws (Config.Remote opts))
  /\ (forall s, Config.Remote opts = Return s ->
         Config.trusted s = VBool (truthy (get opts "trusted"))
         /\ Config.canonical_signing s
            = Config.or_default "boolean" (get opts "canonical_signing")
                (VBool true)).
Proof.
  rewrite ConfigFacts.Remote_checks. unfold Config.check.
  split; [by intros -> |].
  split; [by intros -> -> |].
  split.
  - intros v w. rewrite ConfigFacts.Remote_checks. unfold Config.check.
    rewrite !ConfigFacts.get_insert_ne by done.
    destruct (Config.undefined_or "number" (get opts "ping")); [| done].
    by destruct (Config.undefined_or "object" (get opts "storage")).
  - intros s.
    destruct (Config.undefined_or "number" (get opts "ping")); [| done].
    destruct (Config.undefined_or "object" (get opts "storage")); [| done].
    by intros [= <-].
Qed.

Lemma option_type_errors_witness :
  Config.Remote {[ "ping" := VString "30" ]} = Throw ConfigSpec.bad_ping
  /\ Config.Remote {[ "ping" := VNumber (of_Z 30); "storage" := VString "disk" ]}
     = Throw ConfigSpec.bad_storage
  /\ (Config.trusted (ConfigSpec.settings_of ∅)
      = VBool (truthy (get ∅ "trusted"))
      /\ Config.canonical_signing (ConfigSpec.settings_of ∅)
         = Config.or_default "boolean" (get ∅ "canonical_signing")
             (VBool true)).
Proof.
  split; [| split].
  - apply (option_type_errors {[ "ping" := VString "30" ]}). reflexivity.
  - apply (option_type_errors
             {[ "ping" := VNumber (of_Z 30); "storage" := VString "disk" ]});
      reflexivity.
  - apply (proj2 (proj2 (proj2 (option_type_errors ∅)))
             (ConfigSpec.settings_of ∅)).
    reflexivity.
Defined.

(** C8 as stated fails: a string for [trusted] and a string for
    [canonical_signing] do not stop the constructor; it goes on with
    [trusted] true and [canonical_signing] true. *)
Lemma wrong_typed_trusted_is_coerced :
  let opts : gmap string value :=
    {[ "trusted" := VString "yes"; "canonical_signing" := VString "no" ]} in
  typeof (get opts "trusted") <> "boolean"
  /\ typeof (get opts "canonical_signing") <> "boolean"
  /\ exists s, Config.Remote opts = Return s
               /\ Config.trusted s = VBool true
               /\ Config.canonical_signing s = VBool true.
Proof.
  cbv zeta. split; [vm_compute; discriminate |].
  split; [vm_compute; discriminate |].
  eexists. split; [vm_compute; reflexivity |]. split; reflexivity.
Qed.

(** The checks written for the numeric and boolean fields do not catch a
    wrong type either: the field has its default by the time it is tested. A
    string for [fee_cushion] gives a Remote with cushion 1.2. *)
Lemma wrong_typed_fee_cushion_is_defaulted :
  Config.Remote {[ "fee_cushion" := VString "high" ]}
  = Return (ConfigSpec.settings_of ∅)
  /\ Config.fee_cushion (ConfigSpec.settings_of ∅) = VNumber (Fin (12 # 10)).
Proof. split; vm_compute; reflexivity. Qed.

(** ** The account sequence cache *)

Module SeqFacts.
Import SeqCache SeqSpec.

Lemma add_of_Z a b : JS.add (of_Z a) (of_Z b) = of_Z (a + b).
Proof.
  unfold JS.add, of_Z. f_equal.
  assert (E : (inject_Z a + inject_Z b)%Q = inject_Z (a + b))
    by (unfold Qplus, inject_Z; cbn; f_equal; lia).
  rewrite E. apply Qcanon.Qred_identity. cbn. apply Z.gcd_1_r.
Qed.

Lemma change_of_delta a : change_of (toUpperCase a) = of_Z (delta a).
Proof.
  unfold change_of, delta.
  destruct (String.eqb (toUpperCase a) "ADVANCE"); [done |].
  by destruct (String.eqb (toUpperCase a) "REWIND").
Qed.

Section Accounts.

Variable json_rewrite : string -> string.

Lemma getAccountSequence_entry r account info a :
  accounts r !! json_rewrite account = Some info ->
  getAccountSequence json_rewrite r account (VString a)
  = (with_accounts r
       (<[json_rewrite account :=
            {| seq := Some (JS.add (to_number (seq info))
                                   (of_Z (delta a)));
               caching_seq_request := caching_seq_request info |}]>
          (accounts r)),
     Return (seq info)).
Proof.
  intros Hl. unfold getAccountSequence. rewrite Hl.
  by rewrite change_of_delta.
Qed.

Lemma getAccountSequence_integer r account info n a :
  accounts r !! json_rewrite account = Some info ->
  seq info = Some (of_Z n) ->
  snd (getAccountSequence json_rewrite r account (VString a))
  = Return (Some (of_Z n))
  /\ stored json_rewrite
       (fst (getAccountSequence json_rewrite r account (VString a)))
       account
     = Some (Some (of_Z (n + delta a))).
Proof.
  intros Hl Hs. rewrite (getAccountSequence_entry r account info a Hl).
  cbn [fst snd]. rewrite Hs. split; [done |].
  unfold stored. cbn [with_accounts accounts].
  rewrite lookup_insert_eq. cbn [fmap option_fmap option_map seq to_number].
  by rewrite add_of_Z.
Qed.

Lemma setAccountSeq_lookup r account n :
  accounts (setAccountSeq json_rewrite r account n)
    !! json_rewrite account
  = Some {| seq := Some n;
            caching_seq_request :=
              caching_seq_request
                (default empty_info (accounts r !! json_rewrite account)) |}.
Proof. unfold setAccountSeq. cbn [with_accounts accounts]. by rewrite lookup_insert_eq. Qed.

Lemma stored_lookup r account n :
  stored json_rewrite r account = Some (Some n) ->
  exists info, accounts r !! json_rewrite account = Some info
               /\ seq info = Some n.
Proof.
  unfold stored. destruct (accounts r !! json_rewrite account) as [i |];
    [| done].
  cbn. intros [= H]. by exists i.
Qed.

End Accounts.

End SeqFacts.

(** C9. After [setAccountSeq(account, 10)], three calls of
    [getAccountSequence(account, 'ADVANCE')] return 10, 11 and 12 and leave
    13 stored. In general a call on an entry that holds the sequence [n],
    an integer that numbers count exactly from, returns [n] and stores
    [n + 1] for ADVANCE, [n - 1] for REWIND and [n] for any other modifier;
    a call for an account without an entry, under a name that is not one
    every object inherits, returns [undefined] and changes nothing. *)
Theorem account_sequence_advance (json_rewrite : string -> string)
    (r : SeqCache.remote) (account : string) :
  let get := SeqCache.getAccountSequence json_rewrite in
  let r0 := SeqCache.setAccountSeq json_rewrite r account (of_Z 10) in
  let c1 := get r0 account (VString "ADVANCE") in
  let c2 := get (fst c1) account (VString "ADVANCE") in
  let c3 := get (fst c2) account (VString "ADVANCE") in
  (snd c1 = Return (Some (of_Z 10))
   /\ snd c2 = Return (Some (of_Z 11))
   /\ snd c3 = Return (Some (of_Z 12))
   /\ SeqSpec.stored json_rewrite (fst c3) account = Some (Some (of_Z 13)))
  /\ (forall r' acct info n a,
         SeqSpec.safe n ->
         SeqCache.accounts r' !! json_rewrite acct = Some info ->
         SeqCache.seq info = Some (of_Z n) ->
         snd (get r' acct (VString a)) = Return (Some (of_Z n))
         /\ SeqSpec.stored json_rewrite (fst (get r' acct (VString a))) acct
            = Some (Some (of_Z (n + SeqSpec.delta a))))
  /\ (forall r' acct advance,
         json_rewrite acct ∉ SeqSpec.inherited_names ->
         SeqCache.accounts r' !! json_rewrite acct = None ->
         get r' acct advance = (r', Return None)).
Proof.
  cbv zeta. split; [| split].
  - pose proof (SeqFacts.setAccountSeq_lookup json_rewrite r account (of_Z 10))
      as H0.
    destruct (SeqFacts.getAccountSequence_integer json_rewrite _ account _ 10
                "ADVANCE" H0 eq_refl) as [R1 S1].
    destruct (SeqFacts.stored_lookup json_rewrite _ _ _ S1) as (i1 & L1 & Q1).
    destruct (SeqFacts.getAccountSequence_integer json_rewrite _ account _ _
                "ADVANCE" L1 Q1) as [R2 S2].
    destruct (SeqFacts.stored_lookup json_rewrite _ _ _ S2) as (i2 & L2 & Q2).
    destruct (SeqFacts.getAccountSequence_integer json_rewrite _ account _ _
                "ADVANCE" L2 Q2) as [R3 S3].
    repeat split; assumption.
  - intros r' acct info n a _ Hl Hs.
    by apply (SeqFacts.getAccountSequence_integer json_rewrite r' acct info).
  - intros r' acct advance _ Hl. unfold SeqCache.getAccountSequence.
    by rewrite Hl.
Qed.

Lemma account_sequence_advance_witness :
  let get := SeqCache.getAccountSequence (fun a => a) in
  let r5 := SeqCache.setAccountSeq (fun a => a) SeqCache.init "alice" (of_Z 5) in
  (snd (get r5 "alice" (VString "rewind")) = Return (Some (of_Z 5))
   /\ SeqSpec.stored (fun a => a) (fst (get r5 "alice" (VString "rewind")))
        "alice"
      = Some (Some (of_Z (5 + SeqSpec.delta "rewind"))))
  /\ get SeqCache.init "bob" VUndefined = (SeqCache.init, Return None).
Proof.
  cbv zeta.
  pose proof (account_sequence_advance (fun a => a) SeqCache.init "alice")
    as (_ & Hgen & Hnone).
  split.
  - apply (Hgen (SeqCache.setAccountSeq (fun a => a) SeqCache.init "alice"
                   (of_Z 5))
                "alice"
                {| SeqCache.seq := Some (of_Z 5);
                   SeqCache.caching_seq_request := None |}
                5 "rewind");
      [split; reflexivity | reflexivity | reflexivity].
  - apply (Hnone SeqCache.init "bob" VUndefined); [| reflexivity].
    refine (bool_decide_unpack _ _). vm_compute. exact I.
Defined.

Example rewind_is_one_down : SeqSpec.delta "rewind" = -1.
Proof. reflexivity. Qed.

Module RefreshFacts.
Import SeqCache SeqSpec.

Lemma accountSeqCache_start r account ledger cb :
  in_flight r account = None ->
  snd (accountSeqCache r account ledger cb) = fresh (dom (requests r))
  /\ accounts (fst (accountSeqCache r account ledger cb)) !! account
     = Some {| seq := seq (entry r account);
               caching_seq_request := Some (fresh (dom (requests r))) |}
  /\ requests (fst (accountSeqCache r account ledger cb))
     = <[fresh (dom (requests r)) :=
           Request_callback
             {| command := "ledger_entry";
                entry_type := "account_root";
                account_root := account;
                ledger := ledger;
                listeners := [("success", AccountRootSuccess account);
                              ("error", AccountRootError account)] |}
             cb "success_account_seq_cache" "error_account_seq_cache"]>
         (requests r).
Proof.
  unfold in_flight, entry. intros Hnone. unfold accountSeqCache.
  rewrite Hnone. cbn [fst snd accounts requests].
  by rewrite lookup_insert_eq.
Qed.


End RefreshFacts.



(* ===================================================================== *)
(** * Further properties *)
(* ===================================================================== *)

(** ** Numbers *)

Module NumFacts.

Lemma ge_total a b : a <> NaN -> b <> NaN -> JS.ge a b = true \/ JS.ge b a = true.
Proof.
  destruct a as [p | | |], b as [q | | |]; cbn; intros Ha Hb; try done;
    try (by left); try (by right).
  destruct (Qlt_le_dec p q) as [H | H].
  - right. apply Qle_bool_iff. lra.
  - left. by apply Qle_bool_iff.
Qed.

Lemma ge_trans a b c : JS.ge a b = true -> JS.ge b c = true -> JS.ge a c = true.
Proof.
  destruct a as [p | | |], b as [q | | |], c as [r | | |]; cbn; try done.
  intros H1 H2. apply Qle_bool_iff in H1, H2. apply Qle_bool_iff. lra.
Qed.

Lemma not_gt_ge a b : a <> NaN -> b <> NaN -> JS.gt a b = false -> JS.ge b a = true.
Proof.
  destruct a as [p | | |], b as [q | | |]; cbn; intros Ha Hb; try done.
  intros H. apply negb_false_iff in H. exact H.
Qed.

Lemma gt_not_ge a b : JS.gt a b = true -> JS.ge a b = true.
Proof.
  destruct a as [p | | |], b as [q | | |]; cbn; try done.
  intros H. apply negb_true_iff in H. apply Qle_bool_iff.
  destruct (Qlt_le_dec q p) as [Hl | Hl]; [lra |].
  apply Qle_bool_iff in Hl. congruence.
Qed.

End NumFacts.

(** ** The pool as a whole *)

Module PoolMoreFacts.
Import Core PoolMore.

Lemma sort_insert_perm {A} (cmp : A -> A -> Z) x l :
  sort_insert cmp x l ≡ₚ x :: l.
Proof.
  induction l as [| y l IH]; cbn [sort_insert]; [done |].
  destruct (cmp x y <=? 0); [done |].
  rewrite IH. apply Permutation_swap.
Qed.

Lemma array_sort_perm {A} (cmp : A -> A -> Z) l : array_sort cmp l ≡ₚ l.
Proof.
  unfold array_sort. induction l as [| x l IH]; cbn [foldr]; [done |].
  by rewrite sort_insert_perm, IH.
Qed.

Lemma compare_le h a b :
  total h a <> NaN -> total h b <> NaN ->
  is_Some (h !! a) -> is_Some (h !! b) ->
  compare_refs h a b <= 0 -> before h a b.
Proof.
  unfold compare_refs, before, total, deref.
  intros Ha Hb [sa Hsa] [sb Hsb]. rewrite Hsa, Hsb in *.
  unfold sortByScore.
  destruct (JS.gt _ _) eqn:Hgt; [lia |].
  intros _. by apply NumFacts.not_gt_ge.
Qed.

Lemma compare_gt h a b :
  is_Some (h !! a) -> is_Some (h !! b) ->
  ~ compare_refs h a b <= 0 -> before h b a.
Proof.
  unfold compare_refs, before, total, deref.
  intros [sa Hsa] [sb Hsb]. rewrite Hsa, Hsb.
  unfold sortByScore.
  destruct (JS.gt _ _) eqn:Hgt.
  - intros _. by apply NumFacts.gt_not_ge.
  - destruct (JS.lt _ _); lia.
Qed.

Lemma sort_insert_sorted h x l :
  usable h x -> Forall (usable h) l ->
  StronglySorted (before h) l ->
  StronglySorted (before h) (sort_insert (compare_refs h) x l).
Proof.
  intros [Hx Hxn] Hl Hs. induction Hs as [| y l Hs IH Hy]; cbn [sort_insert].
  - repeat constructor.
  - inversion Hl as [| ? ? [Hys Hyn] Hl']; subst.
    destruct (Z.leb_spec (compare_refs h x y) 0) as [Hle | Hgt].
    + constructor; [by constructor |].
      assert (Hxy : before h x y) by (by apply compare_le).
      constructor; [done |].
      eapply Forall_impl; [exact Hy |]. cbn. intros z Hz.
      unfold before in *. by apply (NumFacts.ge_trans _ (total h y)).
    + constructor; [by apply IH |].
      assert (Hyx : before h y x) by (apply compare_gt; [done | done | lia]).
      rewrite sort_insert_perm. by constructor.
Qed.

Lemma array_sort_sorted h l :
  Forall (usable h) l ->
  StronglySorted (before h) (array_sort (compare_refs h) l).
Proof.
  unfold array_sort. induction 1 as [| x l Hx Hl IH]; cbn [foldr].
  - constructor.
  - apply sort_insert_sorted; [done | | done].
    fold (array_sort (compare_refs h) l).
    by rewrite array_sort_perm.
Qed.

Lemma first_connected_lowest h l ref :
  StronglySorted (before h) l ->
  first_connected h l = Return ref ->
  ref ∈ l /\ is_connected h ref = true
  /\ forall other, other ∈ l -> is_connected h other = true ->
                   before h ref other \/ other = ref.
Proof.
  induction 1 as [| x l Hs IH Hx]; cbn [first_connected]; [done |].
  destruct (is_connected h x) eqn:Hc.
  - intros [= <-]. split; [by left |]. split; [done |].
    intros other Ho _. apply elem_of_cons in Ho as [-> | Ho]; [by right |].
    left. rewrite Forall_forall in Hx. by apply Hx.
  - intros Hr. destruct (IH Hr) as (Hin & Hcr & Hmin).
    split; [by right |]. split; [done |].
    intros other Ho Hco. apply elem_of_cons in Ho as [-> | Ho]; [congruence |].
    by apply Hmin.
Qed.

End PoolMoreFacts.

(** X1. [getServer] changes nothing on the Remote but the order of the
    pool: the Server objects, the primary, the state and the connection count
    stay, and the pool after the call holds the same entries as before. When
    the primary is connected it is returned and not even the order changes,
    whatever the scores are. *)
Theorem getServer_keeps_pool (r : Core.remote) :
  let r' := fst (Core.getServer r) in
  Core.servers r' = Core.servers r
  /\ Core._primary_server r' = Core._primary_server r
  /\ Core.state r' = Core.state r
  /\ Core._connected r' = Core._connected r
  /\ Core._connection_count r' = Core._connection_count r
  /\ Core._servers r' ≡ₚ Core._servers r
  /\ (forall p, Core._primary_server r = Some p ->
        Core.is_connected (Core.servers r) p = true ->
        Core.getServer r = (r, Return p)).
Proof.
  cbv zeta. unfold Core.getServer.
  destruct (Core._primary_server r) as [p |] eqn:Hp.
  - destruct (Core.is_connected (Core.servers r) p) eqn:Hc; cbn.
    + repeat split; try done. by intros ? [= <-] _.
    + repeat split; try done.
      * apply PoolMoreFacts.array_sort_perm.
      * intros ? [= <-]. congruence.
  - cbn. repeat split; try done. apply PoolMoreFacts.array_sort_perm.
Qed.

(** X2. When the primary is not connected and every entry of the pool has
    a [score + fee] that is not [NaN], the server [getServer] returns is a
    connected entry of the pool, and no connected entry has a lower
    [score + fee]. *)
Theorem getServer_picks_lowest_total (r : Core.remote) (ref : nat) :
  PoolMore.primary_up r = false ->
  PoolMore.comparable r ->
  snd (Core.getServer r) = Return ref ->
  ref ∈ Core._servers r
  /\ Core.is_connected (Core.servers r) ref = true
  /\ forall other,
       other ∈ Core._servers r ->
       Core.is_connected (Core.servers r) other = true ->
       JS.ge (PoolMore.total (Core.servers r) other)
             (PoolMore.total (Core.servers r) ref) = true.
Proof.
  intros Hup Hcmp Hret.
  assert (Hscan : Core.first_connected (Core.servers r)
                    (Core.array_sort (Core.compare_refs (Core.servers r))
                       (Core._servers r)) = Return ref).
  { revert Hup Hret. unfold PoolMore.primary_up, Core.getServer.
    destruct (Core._primary_server r) as [p |]; [| done].
    by intros ->. }
  assert (Hsorted := PoolMoreFacts.array_sort_sorted (Core.servers r)
                       (Core._servers r) Hcmp).
  destruct (PoolMoreFacts.first_connected_lowest _ _ _ Hsorted Hscan)
    as (Hin & Hc & Hmin).
  rewrite PoolMoreFacts.array_sort_perm in Hin.
  split; [done |]. split; [done |].
  intros other Ho Hco.
  destruct (Hmin other) as [Hb | ->]; [by rewrite PoolMoreFacts.array_sort_perm | done | done |].
  unfold PoolMore.comparable in Hcmp. rewrite Forall_forall in Hcmp.
  destruct (Hcmp ref Hin) as [_ Hn].
  by destruct (NumFacts.ge_total _ _ Hn Hn).
Qed.

Lemma getServer_picks_lowest_total_witness :
  2%nat ∈ Core._servers PoolMore.three
  /\ Core.is_connected (Core.servers PoolMore.three) 2 = true
  /\ forall other,
       other ∈ Core._servers PoolMore.three ->
       Core.is_connected (Core.servers PoolMore.three) other = true ->
       JS.ge (PoolMore.total (Core.servers PoolMore.three) other)
             (PoolMore.total (Core.servers PoolMore.three) 2) = true.
Proof.
  apply (getServer_picks_lowest_total PoolMore.three 2).
  - reflexivity.
  - repeat constructor; vm_compute; try done; by eexists.
  - vm_compute. reflexivity.
Defined.

Module RouteFacts.
Import Core PoolMore.

Lemma scan_returns_connected h l ref :
  first_connected h l = Return ref -> is_connected h ref = true.
Proof.
  induction l as [| x l IH]; cbn [first_connected]; [done |].
  destruct (is_connected h x) eqn:Hx; [| done]. by intros [= <-].
Qed.

Lemma getServer_result r :
  (exists ref, snd (getServer r) = Return ref
               /\ is_connected (servers r) ref = true)
  \/ exists e, snd (getServer r) = Throw e.
Proof.
  unfold getServer.
  destruct (_primary_server r) as [p |].
  - destruct (is_connected (servers r) p) eqn:Hp; cbn [snd].
    + left. by exists p.
    + destruct (first_connected _ _) as [ref | e] eqn:Hs.
      * left. exists ref. split; [done |]. by apply (scan_returns_connected _ _ _ Hs).
      * right. by exists e.
  - cbn [snd]. destruct (first_connected _ _) as [ref | e] eqn:Hs.
    + left. exists ref. split; [done |]. by apply (scan_returns_connected _ _ _ Hs).
    + right. by exists e.
Qed.

Lemma setState_frame r s :
  servers (fst (_setState r s)) = servers r
  /\ _servers (fst (_setState r s)) = _servers r
  /\ _primary_server (fst (_setState r s)) = _primary_server r
  /\ _connection_count (fst (_setState r s)) = _connection_count r.
Proof.
  unfold _setState.
  destruct (String.eqb (state r) s); [done |].
  destruct (String.eqb s "online"); [done |].
  by destruct (String.eqb s "offline").
Qed.

Lemma setState_in_step r s :
  in_step r -> s = "online" \/ s = "offline" -> in_step (fst (_setState r s)).
Proof.
  intros Hin Hs. unfold _setState.
  destruct (String.eqb (state r) s) eqn:He; [done |].
  destruct Hs as [-> | ->]; cbn; [by left | by right].
Qed.

Lemma deliver_in_step r s : in_step r -> in_step (fst (deliver r s)).
Proof.
  intros Hin. destruct s as [ref | ref]; cbn [deliver].
  - unfold serverConnect.
    set (r1 := with_count r (_connection_count r + 1)).
    set (r2 := if opts_primary_of r1 ref then _setPrimaryServer r1 ref else r1).
    assert (H2 : in_step r2) by (subst r2 r1; by destruct (opts_primary_of _ ref)).
    destruct (_connection_count r2 =? 1).
    + pose proof (setState_in_step r2 "online" H2 (or_introl eq_refl)) as H3.
      by destruct (_setState r2 "online").
    + done.
  - unfold serverDisconnect.
    set (r1 := with_count r (_connection_count r - 1)).
    assert (H1 : in_step r1) by done.
    destruct (_connection_count r1 =? 0); [| done].
    by apply setState_in_step; [| right].
Qed.

Lemma deliver_servers r s : _servers (fst (deliver r s)) = _servers r.
Proof.
  destruct s as [ref | ref]; cbn [deliver].
  - unfold serverConnect.
    set (r1 := with_count r (_connection_count r + 1)).
    set (r2 := if opts_primary_of r1 ref then _setPrimaryServer r1 ref else r1).
    assert (H2 : _servers r2 = _servers r)
      by (subst r2 r1; by destruct (opts_primary_of _ ref)).
    destruct (_connection_count r2 =? 1); [| done].
    destruct (setState_frame r2 "online") as (_ & Hs & _).
    destruct (_setState r2 "online"). cbn [fst] in *. congruence.
  - unfold serverDisconnect.
    set (r1 := with_count r (_connection_count r - 1)).
    destruct (_connection_count r1 =? 0); [| done].
    by destruct (setState_frame r1 "offline") as (_ & -> & _).
Qed.

Lemma run_in_step ss : forall r,
  in_step r ->
  in_step (fst (deliver_all r ss))
  /\ _servers (fst (deliver_all r ss)) = _servers r.
Proof.
  induction ss as [| s rest IH]; intros r Hin; cbn [deliver_all]; [done |].
  pose proof (deliver_in_step r s Hin) as H1.
  pose proof (deliver_servers r s) as Hs.
  destruct (deliver r s) as [r1 e1]. cbn [fst] in *.
  destruct (IH r1 H1) as [H2 Hs2].
  destruct (deliver_all r1 rest) as [r2 es]. cbn [fst] in *.
  split; [done | congruence].
Qed.

End RouteFacts.

(** X3. Routing a Request does one thing or throws: the result is exactly
    one effect and a normal return, or a throw and no effect. The Request is
    handed to a server only while the Remote is connected, and then to the
    server it is pinned to or, when it is not pinned, to a server that is
    connected. *)
Theorem route_dispatches_once (r : Core.remote) (q : Core.Request) :
  PoolMore.one_effect_or_throw (Core.route r q)
  /\ forall ref q',
       In (Core.Server_request ref q') (snd (fst (Core.route r q))) ->
       q' = q
       /\ Core._connected r = true
       /\ (Core.server q = Core.Pinned ref
           \/ (Core.server q = Core.Unset
               /\ Core.is_connected (Core.servers r) ref = true)).
Proof.
  unfold Core.route.
  destruct (length (Core._servers r) =? 0)%nat.
  { split; [done |]. intros ref q' [H | []]. discriminate H. }
  destruct (Core._connected r) eqn:Hc; cbn [negb].
  2:{ split; [done |]. intros ref q' [H | []]. discriminate H. }
  destruct (Core.server q) as [| | p] eqn:Hq.
  - destruct (RouteFacts.getServer_result r) as [(ref & Hr & Hup) | (e & Hr)];
      destruct (Core.getServer r) as [r1 o]; cbn [snd] in Hr; subst o.
    + split; [done |]. intros ref' q' [[= <- <-] | []]. auto.
    + split; [done |]. intros ref' q' [].
  - split; [done |]. intros ref q' [H | []]. discriminate H.
  - split; [done |]. intros ref q' [[= <- <-] | []]. auto.
Qed.

(** X4. From a new Remote, after any sequence of connect and disconnect
    signals the flag [_connected], which [request] tests, is set exactly
    when the connection count is positive, and the pool is as it was. So
    while no connection is counted a Request given to a Remote that has
    servers is neither sent nor failed: it waits for [connect]. *)
Theorem requests_wait_while_offline (r0 : Core.remote)
    (ss : list Core.signal) (q : Core.Request) :
  Core.state r0 = "offline" ->
  Core._connected r0 = false ->
  Core._connection_count r0 = 0 ->
  let r := fst (Core.deliver_all r0 ss) in
  (Core._connected r = true <-> 0 < Core._connection_count r)
  /\ Core._servers r = Core._servers r0
  /\ (Core._connection_count r <= 0 ->
      Core._servers r0 <> [] ->
      Core.route r q = (r, [Core.Once_connect_request q], Return tt)).
Proof.
  intros Hs Hc Hn. cbv zeta.
  assert (Hinv : ConnSpec.inv r0) by (right; split; [done | lia]).
  destruct (ConnFacts.steps_ok ss r0 Hinv) as [_ Hlast].
  destruct (RouteFacts.run_in_step ss r0) as [Hstep Hsame]; [by right |].
  set (r := fst (Core.deliver_all r0 ss)) in *.
  assert (Hiff : Core._connected r = true <-> 0 < Core._connection_count r).
  { destruct Hlast as [[H1 H2] | [H1 H2]], Hstep as [[H3 H4] | [H3 H4]];
      try congruence; split; intros; try done; try lia; congruence. }
  split; [done |]. split; [done |].
  intros Hle Hne. unfold Core.route. rewrite Hsame.
  destruct (Core._servers r0) as [| s rest]; [done |]. cbn [length Nat.eqb].
  destruct (Core._connected r) eqn:Hcr; [| done].
  destruct Hiff as [Hiff _]. specialize (Hiff eq_refl). lia.
Qed.

Lemma requests_wait_while_offline_witness :
  let r := fst (Core.deliver_all PoolSpec.two_down
                  [Core.Connect 0; Core.Disconnect 0]) in
  let q := {| Core.rid := 1; Core.server := Core.Unset |} in
  (Core._connected r = true <-> 0 < Core._connection_count r)
  /\ Core._servers r = Core._servers PoolSpec.two_down
  /\ (Core._connection_count r <= 0 ->
      Core._servers PoolSpec.two_down <> [] ->
      Core.route r q = (r, [Core.Once_connect_request q], Return tt)).
Proof.
  apply (requests_wait_while_offline PoolSpec.two_down
           [Core.Connect 0; Core.Disconnect 0]
           {| Core.rid := 1; Core.server := Core.Unset |}); reflexivity.
Defined.

Module FlagFacts.
Import Core PoolMore.

Lemma setPrimary_flags r ref : flags_ok r -> flags_ok (_setPrimaryServer r ref).
Proof.
  intros Hok a s. unfold _setPrimaryServer. cbn [servers _primary_server with_pool].
  rewrite lookup_alter. destruct (decide (ref = a)) as [-> | Hne]; [done |].
  intros Hl Hf. exfalso.
  destruct (_primary_server r) as [old |] eqn:Hold.
  - rewrite lookup_alter in Hl. destruct (decide (old = a)) as [-> | Hne'].
    + destruct (servers r !! a) as [sa |]; [| done].
      cbn in Hl. injection Hl as <-. done.
    + specialize (Hok a s Hl Hf). congruence.
  - specialize (Hok a s Hl Hf). congruence.
Qed.

Lemma setState_flags r s : flags_ok r -> flags_ok (fst (_setState r s)).
Proof.
  intros Hok a sa. destruct (RouteFacts.setState_frame r s) as (-> & _ & -> & _).
  apply Hok.
Qed.

Lemma deliver_flags r s : flags_ok r -> flags_ok (fst (deliver r s)).
Proof.
  intros Hok. destruct s as [ref | ref]; cbn [deliver].
  - unfold serverConnect.
    set (r1 := with_count r (_connection_count r + 1)).
    set (r2 := if opts_primary_of r1 ref then _setPrimaryServer r1 ref else r1).
    assert (H2 : flags_ok r2).
    { subst r2. destruct (opts_primary_of r1 ref); [| done].
      by apply setPrimary_flags. }
    destruct (_connection_count r2 =? 1); [| done].
    pose proof (setState_flags r2 "online" H2).
    by destruct (_setState r2 "online").
  - unfold serverDisconnect.
    set (r1 := with_count r (_connection_count r - 1)).
    destruct (_connection_count r1 =? 0); [| done].
    by apply setState_flags.
Qed.

Lemma run_flags ss : forall r, flags_ok r -> flags_ok (fst (deliver_all r ss)).
Proof.
  induction ss as [| s rest IH]; intros r Hok; cbn [deliver_all]; [done |].
  pose proof (deliver_flags r s Hok) as H1.
  destruct (deliver r s) as [r1 e1]. cbn [fst] in *.
  specialize (IH r1 H1).
  by destruct (deliver_all r1 rest) as [r2 es].
Qed.

Lemma addServer_fresh r : servers r !! fresh (dom (servers r)) = None.
Proof. apply not_elem_of_dom, is_fresh. Qed.

Lemma init_flags : flags_ok init.
Proof. intros a s. cbn. by rewrite lookup_empty. Qed.

Lemma addServer_flags r s :
  Server._primary s = false -> flags_ok r -> flags_ok (addServer r s).
Proof.
  intros Hs Hok a sa. unfold addServer.
  cbn [servers _primary_server with_pool].
  rewrite lookup_insert.
  destruct (decide (fresh (dom (servers r)) = a)) as [<- | Hne].
  - intros [= <-]. congruence.
  - apply Hok.
Qed.

End FlagFacts.

(** X5. Only the primary server carries the [_primary] flag: if that holds
    of a Remote, it holds after [setPrimaryServer], after adding a server
    that is not flagged, and after every sequence of connect and disconnect
    signals, so no two Server objects are flagged at once. Setting a server
    of the pool as primary flags it and unflags the one before. *)
Theorem one_primary_flag (r : Core.remote) :
  PoolMore.flags_ok r ->
  (forall ss a b sa sb,
      let r' := fst (Core.deliver_all r ss) in
      Core.servers r' !! a = Some sa -> Server._primary sa = true ->
      Core.servers r' !! b = Some sb -> Server._primary sb = true ->
      a = b)
  /\ (forall ref, PoolMore.flags_ok (Core._setPrimaryServer r ref))
  /\ (forall s, Server._primary s = false ->
                PoolMore.flags_ok (Core.addServer r s))
  /\ (forall ref s,
         Core.servers r !! ref = Some s ->
         Core.servers (Core._setPrimaryServer r ref) !! ref
         = Some (Server.set_primary true s)
         /\ forall old so,
              Core._primary_server r = Some old -> old <> ref ->
              Core.servers r !! old = Some so ->
              Core.servers (Core._setPrimaryServer r ref) !! old
              = Some (Server.set_primary false so)).
Proof.
  intros Hok. split; [| split; [| split]].
  - intros ss a b sa sb r' Ha Hfa Hb Hfb.
    pose proof (FlagFacts.run_flags ss r Hok) as Hok'. fold r' in Hok'.
    pose proof (Hok' a sa Ha Hfa). pose proof (Hok' b sb Hb Hfb). congruence.
  - intros ref. by apply FlagFacts.setPrimary_flags.
  - intros s Hs. by apply FlagFacts.addServer_flags.
  - intros ref s Hl. unfold Core._setPrimaryServer.
    cbn [Core.servers Core.with_pool]. split.
    + rewrite lookup_alter_eq.
      destruct (Core._primary_server r) as [old |].
      * rewrite lookup_alter. destruct (decide (old = ref)) as [-> | Hne];
          rewrite Hl; by destruct s.
      * by rewrite Hl.
    + intros old so -> Hne Hlo.
      rewrite lookup_alter_ne by done. rewrite lookup_alter_eq. by rewrite Hlo.
Qed.

Lemma one_primary_flag_witness :
  let r' := fst (Core.deliver_all PoolSpec.two_down
                   [Core.Connect 1; Core.Connect 0]) in
  (forall a b sa sb,
      Core.servers r' !! a = Some sa -> Server._primary sa = true ->
      Core.servers r' !! b = Some sb -> Server._primary sb = true ->
      a = b)
  /\ PoolMore.flags_ok (Core._setPrimaryServer PoolSpec.two_down 1).
Proof.
  assert (Hok : PoolMore.flags_ok PoolSpec.two_down).
  { apply FlagFacts.addServer_flags; [reflexivity |].
    apply FlagFacts.addServer_flags; [reflexivity |].
    apply FlagFacts.init_flags. }
  cbv zeta. split.
  - apply (proj1 (one_primary_flag PoolSpec.two_down Hok)
             [Core.Connect 1; Core.Connect 0]).
  - apply (proj1 (proj2 (one_primary_flag PoolSpec.two_down Hok)) 1%nat).
Defined.

(** X6. [addServer] puts the new Server object at the end of the pool
    under a reference no entry has: the pool keeps its entries in
    registration order, they stay distinct, and the Server objects already
    there are not touched. *)
Theorem addServer_appends (r : Core.remote) (s : Server.t) :
  PoolMore.pool_ok r ->
  let r' := Core.addServer r s in
  let ref := fresh (dom (Core.servers r)) in
  PoolMore.pool_ok r'
  /\ Core._servers r' = Core._servers r ++ [ref]
  /\ Core.servers r' !! ref = Some s
  /\ (forall old, old ∈ Core._servers r ->
                  Core.servers r' !! old = Core.servers r !! old)
  /\ Core._primary_server r' = Core._primary_server r
  /\ Core.state r' = Core.state r
  /\ Core._connection_count r' = Core._connection_count r.
Proof.
  intros [Hnd Hall]. cbv zeta. unfold PoolMore.pool_ok, Core.addServer.
  cbn [Core.servers Core._servers Core._primary_server Core.state
         Core._connection_count Core.with_pool].
  set (ref := fresh (dom (Core.servers r))).
  assert (Hfresh : Core.servers r !! ref = None)
    by apply FlagFacts.addServer_fresh.
  assert (Hnew : ref ∉ Core._servers r).
  { intros Hin. rewrite Forall_forall in Hall.
    destruct (Hall ref Hin) as [x Hx]. congruence. }
  assert (Hold : forall old, old ∈ Core._servers r ->
                   <[ref := s]> (Core.servers r) !! old = Core.servers r !! old).
  { intros old Hin. apply lookup_insert_ne. intros ->. done. }
  split; [split |].
  - apply NoDup_app. split; [done |]. split; [| apply NoDup_singleton].
    intros x Hx Hx'. apply list_elem_of_singleton in Hx'. by subst.
  - apply Forall_app. split.
    + rewrite Forall_forall in *. intros x Hx. rewrite (Hold x Hx). by apply Hall.
    + constructor; [| constructor]. rewrite lookup_insert_eq. by eexists.
  - split; [done |]. split; [by rewrite lookup_insert_eq |]. done.
Qed.

Lemma addServer_appends_witness :
  let r' := Core.addServer PoolSpec.one_down PoolSpec.idle_server in
  let ref := fresh (dom (Core.servers PoolSpec.one_down)) in
  PoolMore.pool_ok r'
  /\ Core._servers r' = Core._servers PoolSpec.one_down ++ [ref]
  /\ Core.servers r' !! ref = Some PoolSpec.idle_server
  /\ (forall old, old ∈ Core._servers PoolSpec.one_down ->
                  Core.servers r' !! old = Core.servers PoolSpec.one_down !! old)
  /\ Core._primary_server r' = Core._primary_server PoolSpec.one_down
  /\ Core.state r' = Core.state PoolSpec.one_down
  /\ Core._connection_count r' = Core._connection_count PoolSpec.one_down.
Proof.
  apply (addServer_appends PoolSpec.one_down PoolSpec.idle_server).
  split.
  - vm_compute. repeat constructor; set_solver.
  - vm_compute. repeat constructor. by eexists.
Defined.

Module ConnectFacts.
Import Core Connecting ConnectSpec.

Lemma of_disconnect_no_connect es :
  connected_refs (map Of_disconnect es) = [].
Proof. induction es as [| e es IH]; cbn; done. Qed.

Lemma connected_refs_app a b :
  connected_refs (a ++ b) = connected_refs a ++ connected_refs b.
Proof. unfold connected_refs. by rewrite flat_map_app. Qed.

Lemma connect_times_app a b :
  connect_times (a ++ b) = connect_times a ++ connect_times b.
Proof. unfold connect_times. by rewrite flat_map_app. Qed.

(** The timers on an untouched pool [l]: the run for index [i] and those
    after it connect the servers of [l] from [i] on, one run each. *)
Lemma fire_same_pool (l : list nat) (rs : list remote) : forall i,
  Forall (fun r' => _servers r' = l) rs ->
  (i < length l)%nat ->
  (length l - i <= length rs)%nat ->
  connected_refs (fire i rs) = drop i l
  /\ connect_times (fire i rs) = seq i (length l - i).
Proof.
  induction rs as [| r rest IH]; intros i Hall Hi Hlen; [cbn in Hlen; lia |].
  apply Forall_cons in Hall as [Hr Hall].
  cbn [fire]. unfold nextServer. rewrite Hr.
  destruct (l !! i) as [ref |] eqn:Hl;
    [| apply lookup_ge_None in Hl; lia].
  destruct (Nat.ltb_spec (S i) (length l)) as [Hnext | Hlast].
  - destruct (IH (S i) Hall Hnext ltac:(cbn in Hlen; lia)) as [Hrefs Htimes].
    rewrite connected_refs_app, connect_times_app, Hrefs, Htimes.
    cbn [connected_refs connect_times flat_map app].
    split.
    + by rewrite (drop_S l ref i Hl).
    + replace (length l - i)%nat with (S (length l - S i)) by lia. done.
  - cbn [connected_refs connect_times flat_map app].
    assert (Hi' : length l = S i) by lia.
    split.
    + rewrite (drop_S l ref i Hl). rewrite drop_ge by lia. done.
    + replace (length l - i)%nat with 1%nat by lia. done.
Qed.

End ConnectFacts.

(** X7. [connect] on a Remote without servers throws [No servers
    available.] When there are servers and the argument is absent, a
    callback or truthy, [connect] tells the first server of the pool to
    connect, sets the timer for the next one if there is one, and returns.
    Each timer reads the pool when it fires: as long as the pool is the
    same at every timer, every server is told to connect exactly once, in
    pool order, each a further connection offset later, and no timer is
    left. For any other argument [connect] is [disconnect] without a
    callback, whatever that does on this Remote, and tells no server to
    connect. *)
Theorem connect_staggers_or_disconnects
    (apply : string -> Core.remote -> list value
             -> Core.remote * list Core.effect * outcome value)
    (this : gmap string Proto.property)
    (r : Core.remote) (online : value) :
  let res := Connecting.connect apply this r online in
  match Core._servers r with
  | [] => res = (r, [], None, Throw (Error "No servers available."))
  | first :: others =>
      if ConnectSpec.goes_online online then
        res = (r,
               ConnectSpec.on_connect online
               ++ [Connecting.Server_connect 0 first],
               match others with [] => None | _ :: _ => Some 1%nat end,
               Return tt)
        /\ forall rs,
             Forall (fun r' => Core._servers r' = Core._servers r) rs ->
             (length others <= length rs)%nat ->
             let all := ConnectSpec.in_all (snd (fst (fst res)),
                                            snd (fst res)) rs in
             ConnectSpec.connected_refs all = Core._servers r
             /\ ConnectSpec.connect_times all
                = seq 0 (length (Core._servers r))
      else
        let off := Core.disconnect apply this r VUndefined in
        res = (fst (fst off), map Connecting.Of_disconnect (snd (fst off)),
               None, snd off)
        /\ ConnectSpec.connected_refs (snd (fst (fst res))) = []
  end.
Proof.
  cbv zeta. unfold Connecting.connect.
  destruct (Core._servers r) as [| first others] eqn:Hs;
    cbn [length Nat.eqb]; [done |].
  assert (Hnext : Connecting.nextServer r 0
                  = ([Connecting.Server_connect 0 first],
                     match others with [] => None | _ :: _ => Some 1%nat end,
                     Return tt)).
  { unfold Connecting.nextServer. rewrite Hs. cbn [lookup list_lookup length].
    by destruct others. }
  assert (Hall : forall pre rs,
             ConnectSpec.connected_refs pre = [] ->
             ConnectSpec.connect_times pre = [] ->
             Forall (fun r' => Core._servers r' = first :: others) rs ->
             (length others <= length rs)%nat ->
             ConnectSpec.connected_refs
               (ConnectSpec.in_all
                  (pre ++ [Connecting.Server_connect 0 first],
                   match others with [] => None | _ :: _ => Some 1%nat end)
                  rs)
             = first :: others
             /\ ConnectSpec.connect_times
                  (ConnectSpec.in_all
                     (pre ++ [Connecting.Server_connect 0 first],
                      match others with [] => None | _ :: _ => Some 1%nat end)
                     rs)
                = seq 0 (length (first :: others))).
  { intros pre rs Hp1 Hp2 Hsame Hlen. unfold ConnectSpec.in_all.
    cbn [fst snd].
    rewrite !ConnectFacts.connected_refs_app, !ConnectFacts.connect_times_app,
      Hp1, Hp2.
    destruct others as [| second rest]; [by cbn |].
    destruct (ConnectFacts.fire_same_pool (first :: second :: rest) rs 1
                Hsame ltac:(cbn; lia) ltac:(cbn in *; lia)) as [Hrefs Htimes].
    rewrite Hrefs, Htimes. by cbn. }
  unfold ConnectSpec.goes_online, ConnectSpec.on_connect.
  destruct (String.eqb (typeof online) "undefined") eqn:Hu; cbn [orb].
  { destruct (String.eqb (typeof online) "function") eqn:Hf.
    - apply String.eqb_eq in Hu, Hf. congruence.
    - rewrite Hnext. cbn [fst snd app]. split; [done |].
      intros rs Hsame Hlen. by apply (Hall [] rs). }
  destruct (String.eqb (typeof online) "function") eqn:Hf; cbn [orb].
  { rewrite Hnext. cbn [fst snd]. split; [done |].
    intros rs Hsame Hlen. by apply (Hall [Connecting.Once_connect online] rs). }
  destruct (truthy online) eqn:Ht; cbn [negb].
  { rewrite Hnext. cbn [fst snd app]. split; [done |].
    intros rs Hsame Hlen. by apply (Hall [] rs). }
  destruct (Core.disconnect apply this r VUndefined) as [[r1 e] o].
  cbn [fst snd]. split; [done |]. apply ConnectFacts.of_disconnect_no_connect.
Qed.

Lemma connect_staggers_or_disconnects_witness :
  let started :=
    Connecting.connect DispatchSpec.stub Proto.Remote_object
      PoolSpec.two_down VUndefined in
  let all :=
    ConnectSpec.in_all (snd (fst (fst started)), snd (fst started))
      [PoolSpec.two_down] in
  ConnectSpec.connected_refs all = [0%nat; 1%nat]
  /\ ConnectSpec.connect_times all = [0%nat; 1%nat].
Proof.
  cbv zeta.
  pose proof (connect_staggers_or_disconnects DispatchSpec.stub
                Proto.Remote_object PoolSpec.two_down VUndefined) as Hthm.
  destruct Hthm as [_ Hall].
  apply (Hall [PoolSpec.two_down]).
  - repeat constructor.
  - cbn. lia.
Defined.

(** When the pool is put in another order between two timers, which a
    [getServer] in between does, a server is told to connect a second
    time and another one not at all. *)
Example connect_after_getServer_repeats :
  let r := ConnectSpec.cheap_second in
  let started :=
    Connecting.connect DispatchSpec.stub Proto.Remote_object r VUndefined in
  let sorted := fst (Core.getServer r) in
  Core._servers r = [0%nat; 1%nat]
  /\ Core._servers sorted = [1%nat; 0%nat]
  /\ ConnectSpec.connected_refs
       (ConnectSpec.in_all (snd (fst (fst started)), snd (fst started))
          [sorted])
     = [0%nat; 0%nat].
Proof. vm_compute. repeat split. Qed.

(** ** The transaction cache as a whole *)

Module LRUMoreFacts.
Import LRU LRUSpec.

Lemma lookup_None k l : lookup k l = None <-> k ∉ map fst l.
Proof.
  induction l as [| [k' v] l IH]; cbn.
  - split; [intros _; apply not_elem_of_nil | done].
  - destruct (String.eqb_spec k' k) as [-> | Hne].
    + split; [done |]. intros H. exfalso. apply H. by left.
    + rewrite IH. rewrite not_elem_of_cons. naive_solver.
Qed.

Lemma keys_without k k' l :
  k' ∈ map fst (without k l) <-> k' ∈ map fst l /\ k' <> k.
Proof.
  unfold without. induction l as [| [a v] l IH]; cbn.
  - split; [by intros H%elem_of_nil | by intros [H%elem_of_nil _]].
  - destruct (String.eqb_spec a k) as [-> | Hne]; cbn.
    + rewrite IH, elem_of_cons. naive_solver.
    + rewrite !elem_of_cons, IH. naive_solver.
Qed.

Lemma NoDup_without k l : NoDup (map fst l) -> NoDup (map fst (without k l)).
Proof.
  unfold without. induction l as [| [a v] l IH]; cbn; [done |].
  intros [Ha Hl]%NoDup_cons.
  destruct (String.eqb_spec a k) as [-> | Hne]; cbn; [by apply IH |].
  apply NoDup_cons. split; [| by apply IH].
  intros Hin. apply (keys_without k a l) in Hin as [Hin _]. done.
Qed.

Lemma length_without k l : (length (without k l) <= length l)%nat.
Proof.
  unfold without. induction l as [| [a v] l IH]; cbn; [done |].
  destruct (negb (String.eqb a k)); cbn; lia.
Qed.

Lemma length_without_hit k l v :
  lookup k l = Some v -> (length (without k l) < length l)%nat.
Proof.
  unfold without. induction l as [| [a w] l IH]; cbn; [done |].
  destruct (String.eqb_spec a k) as [-> | Hne]; cbn.
  - intros _. pose proof (length_without k l). unfold without in *. lia.
  - intros H. specialize (IH H). lia.
Qed.

Lemma without_absent k l : k ∉ map fst l -> without k l = l.
Proof.
  unfold without. induction l as [| [a v] l IH]; cbn; [done |].
  rewrite not_elem_of_cons. intros [Hne Hl].
  destruct (String.eqb_spec a k) as [-> | _]; [done |]. cbn. by rewrite IH.
Qed.

Lemma front_NoDup k (v : value) l :
  NoDup (map fst l) -> NoDup (map fst ((k, v) :: without k l)).
Proof.
  intros Hl. cbn. apply NoDup_cons. split; [| by apply NoDup_without].
  intros Hin. by apply keys_without in Hin as [_ Hne].
Qed.

Lemma NoDup_take_keys n (l : list (string * value)) :
  NoDup (map fst l) -> NoDup (map fst (take n l)).
Proof.
  intros Hl. rewrite <- List.firstn_map.
  apply (sublist_NoDup _ _ Hl), sublist_take.
Qed.

Lemma step_well_formed c o : well_formed c -> well_formed (step c o).
Proof.
  intros [Hnd Hlen]. destruct o as [k | k v]; cbn [step].
  - unfold get. destruct (lookup k (items c)) as [v |] eqn:Hl; cbn [snd]; [| done].
    split; unfold keys; cbn [items max].
    + by apply front_NoDup.
    + pose proof (length_without_hit k _ v Hl). cbn [length]. lia.
  - unfold set. split; unfold keys; cbn [items max].
    + by apply NoDup_take_keys, front_NoDup.
    + rewrite length_take. lia.
Qed.

Lemma set_absent k v c :
  k ∉ keys c -> items (set k v c) = take (max c) ((k, v) :: items c).
Proof. intros Hk. unfold set. cbn [items]. by rewrite without_absent. Qed.

Lemma insert_all_max ks : forall c, max (insert_all ks c) = max c.
Proof.
  unfold insert_all. induction ks as [| k ks IH]; intros c; cbn; [done |].
  by rewrite IH.
Qed.

Lemma take_app_take {A} (a b : list A) : forall n k,
  (n <= k)%nat -> take n (a ++ take k b) = take n (a ++ b).
Proof.
  induction a as [| x a IH]; intros n k Hle; cbn [app].
  - rewrite take_take. f_equal. lia.
  - destruct n as [| n]; cbn [take]; [done |].
    f_equal. apply IH. lia.
Qed.

Lemma keys_set_subset k v c x : x ∈ keys (set k v c) -> x = k \/ x ∈ keys c.
Proof.
  unfold keys, set. cbn [items]. rewrite <- List.firstn_map.
  intros Hin. apply (subseteq_take (max c)) in Hin.
  cbn in Hin. apply elem_of_cons in Hin as [-> | Hin]; [by left |].
  right. by apply keys_without in Hin as [Hin _].
Qed.

Lemma insert_all_items ks : forall c,
  well_formed c ->
  NoDup (ks ++ keys c) ->
  items (insert_all ks c)
  = take (max c) (rev (map (fun k => (k, VBool true)) ks) ++ items c).
Proof.
  unfold insert_all.
  induction ks as [| k ks IH]; intros c Hwf Hnd; cbn [fold_left map rev app].
  - destruct Hwf as [_ Hlen]. by rewrite take_ge.
  - cbn [app] in Hnd. apply NoDup_cons in Hnd as [Hk Hnd].
    rewrite not_elem_of_app in Hk. destruct Hk as [Hk1 Hk2].
    apply NoDup_app in Hnd as (Hks & Hdisj & Hkc).
    rewrite IH.
    + cbn [max set]. rewrite (set_absent k _ c Hk2).
      rewrite <- app_assoc. cbn [app]. by apply take_app_take.
    + apply (step_well_formed c (Op_set k (VBool true)) Hwf).
    + apply NoDup_app. split; [done |]. split.
      * intros x Hx Hx'. apply keys_set_subset in Hx' as [-> | Hx']; [done |].
        by apply (Hdisj x).
      * apply (step_well_formed c (Op_set k (VBool true)) Hwf).
Qed.

End LRUMoreFacts.

Module EvictionFacts.
Import LRU LRUSpec.

Lemma run_well_formed ops : forall c,
  well_formed c ->
  well_formed (fold_left step ops c) /\ max (fold_left step ops c) = max c.
Proof.
  induction ops as [| o ops IH]; intros c Hwf; cbn [fold_left]; [done |].
  destruct (IH (step c o) (LRUMoreFacts.step_well_formed c o Hwf)) as [H1 H2].
  split; [done |]. rewrite H2.
  destruct o as [k | k v]; cbn [step]; [| done].
  unfold get. by destruct (lookup k (items c)).
Qed.

Lemma lookup_tagged (v : value) k (l : list string) :
  lookup k (map (fun k => (k, v)) l) = if decide (k ∈ l) then Some v else None.
Proof.
  induction l as [| a l IH]; cbn.
  - destruct (decide (k ∈ [])) as [H%elem_of_nil | _]; done.
  - destruct (String.eqb_spec a k) as [-> | Hne].
    + destruct (decide (k ∈ k :: l)) as [_ | H]; [done |].
      exfalso. apply H. by left.
    + rewrite IH. destruct (decide (k ∈ l)) as [Hin | Hout].
      * destruct (decide (k ∈ a :: l)) as [_ | H]; [done |].
        exfalso. apply H. by right.
      * destruct (decide (k ∈ a :: l)) as [H | _]; [| done].
        apply elem_of_cons in H as [-> | H]; done.
Qed.

Lemma recent_tagged (v : value) n (ks : list string) :
  take n (rev (map (fun k => (k, v)) ks))
  = map (fun k => (k, v)) (take n (rev ks)).
Proof. by rewrite <- map_rev, List.firstn_map. Qed.

End EvictionFacts.

(** X8. The transaction cache never outgrows its bound: whatever [get]
    and [set] calls are made on a cache created with [max: n], it holds at
    most [n] entries, holds no key twice, and its bound is still [n]. *)
Theorem lru_stays_bounded (n : nat) (ops : list LRUSpec.op) :
  let c := fold_left LRUSpec.step ops (LRU.create n) in
  (length (LRU.items c) <= n)%nat
  /\ NoDup (LRUSpec.keys c)
  /\ LRU.max c = n.
Proof.
  cbv zeta.
  assert (Hwf : LRUSpec.well_formed (LRU.create n)).
  { split; cbn; [apply NoDup_nil_2 | lia]. }
  destruct (EvictionFacts.run_well_formed ops _ Hwf) as [[Hnd Hlen] Hmax].
  cbn [LRU.create LRU.max] in Hmax. rewrite Hmax in Hlen. done.
Qed.

Lemma lru_keeps_most_recent_aux (n : nat) (ks : list string) :
  NoDup ks ->
  let c := LRUSpec.insert_all ks (LRU.create n) in
  LRUSpec.keys c = take n (rev ks)
  /\ forall k,
       LRU.peek k c
       = if decide (k ∈ take n (rev ks)) then Some (VBool true) else None.
Proof.
  intros Hnd. cbv zeta.
  assert (Hitems : LRU.items (LRUSpec.insert_all ks (LRU.create n))
                   = map (fun k => (k, VBool true)) (take n (rev ks))).
  { rewrite LRUMoreFacts.insert_all_items.
    - cbn [LRU.create LRU.max LRU.items]. rewrite app_nil_r.
      apply EvictionFacts.recent_tagged.
    - split; cbn; [apply NoDup_nil_2 | lia].
    - unfold LRUSpec.keys. cbn. by rewrite app_nil_r. }
  split.
  - unfold LRUSpec.keys. rewrite Hitems, map_map. cbn. apply map_id.
  - intros k. unfold LRU.peek. rewrite Hitems. apply EvictionFacts.lookup_tagged.
Qed.

(** X9. After distinct keys are put into a new cache with [max: n], the
    cache holds exactly the last [n] of them, most recent first: each of
    these is found, and each key put in earlier is gone. *)
Theorem lru_keeps_most_recent (n : nat) (ks : list string) :
  NoDup ks ->
  let c := LRUSpec.insert_all ks (LRU.create n) in
  LRUSpec.keys c = take n (rev ks)
  /\ forall k,
       LRU.peek k c
       = if decide (k ∈ take n (rev ks)) then Some (VBool true) else None.
Proof. apply lru_keeps_most_recent_aux. Qed.

Lemma lru_keeps_most_recent_witness :
  let c := LRUSpec.insert_all ["a"; "b"; "c"] (LRU.create 2) in
  LRUSpec.keys c = take 2 (rev ["a"; "b"; "c"])
  /\ forall k,
       LRU.peek k c
       = if decide (k ∈ take 2 (rev ["a"; "b"; "c"]))
         then Some (VBool true) else None.
Proof.
  apply (lru_keeps_most_recent 2 ["a"; "b"; "c"]).
  repeat (apply NoDup_cons; split; [set_solver |]). apply NoDup_nil_2.
Defined.

Section EvictionDedup.

Context {metadata : Type}.
Variable getAffectedAccounts : metadata -> list string.
Variable getAffectedBooks : metadata -> list string.

Import Dedup.

Local Abbreviation handle' :=
  (_handleTransaction getAffectedAccounts getAffectedBooks).
Local Abbreviation fan' := (fan_out getAffectedAccounts getAffectedBooks).
Local Abbreviation run' := (deliver_all getAffectedAccounts getAffectedBooks).

Lemma run_validated_distinct (ms : list (message metadata)) : forall r,
  LRUSpec.well_formed (_received_tx r) ->
  NoDup (map hash ms ++ LRUSpec.keys (_received_tx r)) ->
  Forall (fun m => truthy (validated m) = true) ms ->
  run' r ms
  = (with_cache r (LRUSpec.insert_all (map hash ms) (_received_tx r)),
     map (fan' r) ms).
Proof.
  induction ms as [| m ms IH]; intros r Hwf Hnd Hval;
    cbn [deliver_all map LRUSpec.insert_all fold_left].
  - by rewrite with_cache_same.
  - cbn [map app] in Hnd. apply NoDup_cons in Hnd as [Hm Hnd].
    rewrite not_elem_of_app in Hm. destruct Hm as [Hm1 Hm2].
    inversion Hval as [| ? ? Hv Hrest]; subst.
    assert (Hmiss : LRU.peek (hash m) (_received_tx r) = None)
      by (by apply LRUMoreFacts.lookup_None).
    rewrite (handle_validated _ _ r m Hmiss Hv).
    set (c1 := LRU.set (hash m) (VBool true) (_received_tx r)).
    assert (Hwf1 : LRUSpec.well_formed c1)
      by apply (LRUMoreFacts.step_well_formed _ (LRUSpec.Op_set _ _) Hwf).
    rewrite (IH (with_cache r c1)); [done | done | | done].
    cbn [with_cache _received_tx].
    apply NoDup_app in Hnd as (Hms & Hdisj & Hkc).
    apply NoDup_app. split; [done |]. split; [| apply Hwf1].
    intros x Hx Hx'. apply LRUMoreFacts.keys_set_subset in Hx' as [-> | Hx'];
      [done | by apply (Hdisj x)].
Qed.

(** X10. Let validated transactions with distinct hashes arrive at a
    Remote whose cache is new. Each is fanned out in full: the Account and
    OrderBook objects it concerns are notified and [transaction] and
    [transaction_all] are emitted with it. The cache then holds the last
    [n] hashes. A transaction of the stream that comes once more produces
    nothing if its hash is among those [n], and is fanned out in full
    again, like a new one, if it came earlier than that. *)
Theorem evicted_hash_is_new_again (n : nat) (r : remote)
    (ms : list (message metadata)) :
  _received_tx r = LRU.create n ->
  NoDup (map hash ms) ->
  Forall (fun m => truthy (validated m) = true) ms ->
  let after := fst (run' r ms) in
  let in_full := fun m =>
    DedupSpec.notifications getAffectedAccounts getAffectedBooks r m
    ++ [Emit_transaction m; Emit_transaction_all m] in
  snd (run' r ms) = map in_full ms
  /\ LRUSpec.keys (_received_tx after) = take n (rev (map hash ms))
  /\ forall m,
       snd (handle' after m)
       = if decide (hash m ∈ take n (rev (map hash ms))) then []
         else in_full m.
Proof.
  intros Hnew Hnd Hval. cbv zeta.
  assert (Hfull : forall ms' : list (message metadata),
             map (fun m =>
                    DedupSpec.notifications getAffectedAccounts
                      getAffectedBooks r m
                    ++ [Emit_transaction m; Emit_transaction_all m]) ms'
             = map (fan' r) ms').
  { intros ms'. apply map_ext. intros m.
    by rewrite (fan_in_full getAffectedAccounts getAffectedBooks). }
  rewrite Hfull.
  assert (Hwf : LRUSpec.well_formed (_received_tx r)).
  { rewrite Hnew. split; cbn; [apply NoDup_nil_2 | lia]. }
  rewrite run_validated_distinct; [| done | | done].
  2:{ rewrite Hnew. unfold LRUSpec.keys. cbn. by rewrite app_nil_r. }
  cbn [fst snd with_cache _received_tx]. rewrite Hnew.
  destruct (lru_keeps_most_recent_aux n (map hash ms) Hnd) as [Hkeys Hpeek].
  split; [done |]. split; [done |].
  intros m. specialize (Hpeek (hash m)).
  rewrite <- (fan_in_full getAffectedAccounts getAffectedBooks).
  set (r1 := with_cache r (LRUSpec.insert_all (map hash ms) (LRU.create n))).
  destruct (decide (hash m ∈ take n (rev (map hash ms)))) as [Hin | Hout].
  - by rewrite (handle_cached _ _ r1 m (VBool true) Hpeek eq_refl).
  - unfold _handleTransaction. subst r1. cbn [_received_tx with_cache].
    rewrite (LRUFacts.get_miss _ _ Hpeek). cbn.
    by destruct (truthy (validated m)).
Qed.

End EvictionDedup.

Lemma evicted_hash_is_new_again_witness :
  let in_full := fun m : Dedup.message unit =>
    [Dedup.Notify 1%nat m; Dedup.Emit_transaction m;
     Dedup.Emit_transaction_all m] in
  let after :=
    fst (Dedup.deliver_all DedupSpec.no_accounts DedupSpec.no_accounts
           DedupSpec.watching_alice EvictionSpec.stream) in
  snd (Dedup.deliver_all DedupSpec.no_accounts DedupSpec.no_accounts
         DedupSpec.watching_alice EvictionSpec.stream)
  = map in_full EvictionSpec.stream
  /\ LRUSpec.keys (Dedup._received_tx after)
     = take 100 (rev (map Dedup.hash EvictionSpec.stream))
  /\ snd (Dedup._handleTransaction DedupSpec.no_accounts
            DedupSpec.no_accounts after
            (DedupSpec.payment (EvictionSpec.tag 0) true))
     = in_full (DedupSpec.payment (EvictionSpec.tag 0) true)
  /\ snd (Dedup._handleTransaction DedupSpec.no_accounts
            DedupSpec.no_accounts after
            (DedupSpec.payment (EvictionSpec.tag 50) true))
     = [].
Proof.
  cbv zeta.
  destruct (evicted_hash_is_new_again DedupSpec.no_accounts
              DedupSpec.no_accounts 100 DedupSpec.watching_alice
              EvictionSpec.stream) as (Hrun & Hkeys & Hagain).
  - reflexivity.
  - refine (bool_decide_unpack _ _). vm_compute. exact I.
  - refine (bool_decide_unpack _ _). vm_compute. exact I.
  - split; [| split; [exact Hkeys | split]].
    + rewrite Hrun. apply map_ext_in. intros m Hm.
      apply in_map_iff in Hm as (h & <- & _). reflexivity.
    + rewrite (Hagain (DedupSpec.payment (EvictionSpec.tag 0) true)).
      rewrite decide_False; [reflexivity |].
      refine (bool_decide_unpack _ _). vm_compute. exact I.
    + rewrite (Hagain (DedupSpec.payment (EvictionSpec.tag 50) true)).
      rewrite decide_True; [reflexivity |].
      refine (bool_decide_unpack _ _). vm_compute. exact I.
Defined.

Example first_of_150_is_evicted :
  (EvictionSpec.tag 0 ∉ take 100 (rev (map Dedup.hash EvictionSpec.stream)))
  /\ EvictionSpec.tag 50 ∈ take 100 (rev (map Dedup.hash EvictionSpec.stream)).
Proof. split; refine (bool_decide_unpack _ _); vm_compute; exact I. Qed.

(** ** Inbound messages *)

Module InboundFacts.
Import Ledger LedgerSpec InboundSpec.

Lemma closed_ignored_without_index t m :
  _ledger_current_index t = None -> _handleLedgerClosed t m = (t, []).
Proof.
  intros Hnone. unfold _handleLedgerClosed, ledgerAdvanced. rewrite Hnone.
  destruct (isValidLedgerData m); cbn [negb to_number]; [| done].
  by destruct (number_of (get m "ledger_index")).
Qed.

Lemma add_one_not_NaN n :
  n <> NaN -> JS.add n (of_Z 1) <> NaN.
Proof. by destruct n. Qed.

Lemma ge_left_not_NaN a b : JS.ge a b = true -> a <> NaN.
Proof. by destruct a. Qed.

Lemma truthy_not_NaN n : number_truthy n = true -> n <> NaN.
Proof. by destruct n. Qed.

Lemma handle_not_NaN t i :
  is_NaN (_ledger_current_index t) = false ->
  is_NaN (_ledger_current_index (fst (handle t i))) = false.
Proof.
  intros Hok. destruct i as [m | a]; cbn [handle].
  - destruct (LedgerFacts.handleLedgerClosed_cases t m) as [-> | (_ & Hadv & ->)];
      [done |].
    cbn [fst advanced _ledger_current_index].
    unfold ledgerAdvanced in Hadv. apply ge_left_not_NaN, add_one_not_NaN in Hadv.
    cbn. by destruct (JS.add _ _).
  - unfold serverSubscribed, ack_has_ledger.
    destruct (truthy (ledger_hash a)); cbn [andb]; [| done].
    destruct (ledger_index a) as [n |]; [| done].
    destruct (number_truthy n) eqn:Hn; [| done].
    cbn [fst _ledger_current_index to_number].
    apply truthy_not_NaN, add_one_not_NaN in Hn. cbn. by destruct (JS.add _ _).
Qed.

Lemma handle_flags t i :
  _stand_alone (fst (handle t i))
  = match i with
    | LedgerClosed _ => _stand_alone t
    | SubscribeAck a => Some (truthy (stand_alone a))
    end
  /\ _testnet (fst (handle t i))
     = match i with
       | LedgerClosed _ => _testnet t
       | SubscribeAck a => Some (truthy (testnet a))
       end.
Proof.
  destruct i as [m | a]; cbn [handle].
  - by destruct (LedgerFacts.handleLedgerClosed_cases t m) as [-> | (_ & _ & ->)].
  - unfold serverSubscribed. by destruct (ack_has_ledger a).
Qed.

Lemma run_last_ack msgs : forall t,
  _stand_alone (fst (run t msgs)) = flag_of stand_alone msgs (_stand_alone t)
  /\ _testnet (fst (run t msgs)) = flag_of testnet msgs (_testnet t)
  /\ (is_NaN (_ledger_current_index t) = false ->
      is_NaN (_ledger_current_index (fst (run t msgs))) = false).
Proof.
  unfold flag_of.
  induction msgs as [| i rest IH]; intros t; cbn [run last_ack]; [done |].
  destruct (handle_flags t i) as [Hs Ht].
  pose proof (handle_not_NaN t i) as Hn.
  destruct (handle t i) as [t1 e1]. cbn [fst] in *.
  destruct (IH t1) as (IHs & IHt & IHn).
  destruct (run t1 rest) as [t2 e2]. cbn [fst] in *.
  rewrite IHs, IHt.
  destruct i as [m | a].
  - rewrite Hs, Ht. repeat split; auto.
  - destruct (last_ack rest) as [b |]; rewrite ?Hs, ?Ht; repeat split; auto.
Qed.

End InboundFacts.

(** X11. While no ledger index is tracked, every [ledgerClosed] message is
    dropped: any number of them, valid or not, leave the tracker as it is
    and emit nothing. Only a subscribe reply can start the tracking. *)
Theorem ledger_closed_needs_an_index (t : Ledger.tracker)
    (ms : list Ledger.message) :
  Ledger._ledger_current_index t = None ->
  Ledger.run t (map Ledger.LedgerClosed ms) = (t, []).
Proof.
  intros Hnone. induction ms as [| m ms IH]; cbn [map Ledger.run Ledger.handle];
    [done |].
  rewrite InboundFacts.closed_ignored_without_index by done.
  by rewrite IH.
Qed.

Lemma ledger_closed_needs_an_index_witness :
  Ledger.run Ledger.init
    (map Ledger.LedgerClosed [Ledger.closed 1 "A"; Ledger.closed 2 "B"])
  = (Ledger.init, []).
Proof.
  apply (ledger_closed_needs_an_index Ledger.init
           [Ledger.closed 1 "A"; Ledger.closed 2 "B"]).
  reflexivity.
Defined.

(** X12. After any run of [ledgerClosed] messages and subscribe replies on
    a new Remote, [_stand_alone] and [_testnet] are the truthiness of the
    fields of the last subscribe reply, and undefined if there was none; the
    tracked index is never [NaN]. So [ledgerAccept] sends its request
    exactly when the last subscribe reply said [stand_alone], and emits the
    [notStandAlone] error before any reply. *)
Theorem flags_follow_last_subscribe (msgs : list Ledger.inbound) :
  let t := fst (Ledger.run Ledger.init msgs) in
  Ledger._stand_alone t
  = (fun a => truthy (Ledger.stand_alone a)) <$> InboundSpec.last_ack msgs
  /\ Ledger._testnet t
     = (fun a => truthy (Ledger.testnet a)) <$> InboundSpec.last_ack msgs
  /\ InboundSpec.is_NaN (Ledger._ledger_current_index t) = false
  /\ Inbound.ledgerAccept t
     = match InboundSpec.last_ack msgs with
       | Some a => if truthy (Ledger.stand_alone a)
                   then Inbound.Ledger_accept_requested
                   else Inbound.Not_stand_alone
       | None => Inbound.Not_stand_alone
       end.
Proof.
  cbv zeta.
  destruct (InboundFacts.run_last_ack msgs Ledger.init) as (Hs & Ht & Hn).
  unfold InboundSpec.flag_of in *. cbn [Ledger.init Ledger._stand_alone
    Ledger._testnet Ledger._ledger_current_index] in *.
  unfold Inbound.ledgerAccept. rewrite Hs, Ht.
  destruct (InboundSpec.last_ack msgs) as [a |]; cbn.
  - repeat split; try done; [by apply Hn | by destruct (truthy _)].
  - repeat split; try done. by apply Hn.
Qed.

(** X13. [_handleMessage] changes the ledger tracker only for an object
    whose [type] is the string [ledgerClosed], and then as
    [_handleLedgerClosed] does. An object without a string [type] and a
    value that is not an object leave the tracker as it is and raise one
    [remoteUnexpected] error: it is emitted and the handler returns when
    the Remote has a listener for [error], and it is thrown out of the
    handler when it has none, as on a new Remote. A payload that parses to
    [null] makes the handler throw a [TypeError], and so does a message of
    type [transaction] that has no [transaction]; no error event is emitted
    for either. An object of a type other than the four handled ones gives
    nothing at all. *)
Theorem handleMessage_cases (listens : bool) (t : Ledger.tracker)
    (p : Inbound.parsed) :
  let res := Inbound._handleMessage listens t p in
  let unexpected :=
    fst res = (t, [Inbound.Emit_error "remoteUnexpected"])
    /\ if listens then snd res = Return tt
       else exists e, snd res = Throw e in
  match p with
  | Inbound.P_null => exists msg, res = (t, [], Throw (TypeError msg))
  | Inbound.P_other _ => unexpected
  | Inbound.P_object o =>
      match get o "type" with
      | VString type =>
          (type = "ledgerClosed" ->
           res = (fst (Ledger._handleLedgerClosed t o),
                  map Inbound.Ledger_event
                    (snd (Ledger._handleLedgerClosed t o)),
                  Return tt))
          /\ (type <> "ledgerClosed" -> fst (fst res) = t)
          /\ (type = "transaction" ->
              if Inbound.nullish (get o "transaction")
              then exists msg, res = (t, [], Throw (TypeError msg))
              else res = (t, [Inbound.To_handleTransaction o], Return tt))
          /\ (type <> "ledgerClosed" -> type <> "serverStatus" ->
              type <> "transaction" -> type <> "find_path" ->
              res = (t, [], Return tt))
      | _ => unexpected
      end
  end.
Proof.
  cbv zeta.
  assert (Hun : fst (t, fst (Inbound.emit_error listens),
                     snd (Inbound.emit_error listens))
                = (t, [Inbound.Emit_error "remoteUnexpected"])
                /\ if listens
                   then snd (t, fst (Inbound.emit_error listens),
                             snd (Inbound.emit_error listens)) = Return tt
                   else exists e,
                       snd (t, fst (Inbound.emit_error listens),
                            snd (Inbound.emit_error listens)) = Throw e).
  { split; [done |]. destruct listens; [done | by eexists]. }
  destruct p as [| o | v]; cbn [Inbound._handleMessage];
    [by eexists | | exact Hun].
  unfold Inbound.isValidMessage, Ledger.is_type.
  destruct (get o "type") as [| | b | n | type | ref | ref] eqn:Hty;
    try exact Hun.
  cbn [typeof String.eqb Ascii.eqb Bool.eqb negb Inbound.string_of].
  destruct (String.eqb_spec type "ledgerClosed") as [-> | H1].
  { destruct (Ledger._handleLedgerClosed t o) as [t1 es]. cbn.
    repeat split; done. }
  destruct (String.eqb_spec type "serverStatus") as [-> | H2].
  { repeat split; done. }
  destruct (String.eqb_spec type "transaction") as [-> | H3].
  { destruct (Inbound.nullish (get o "transaction")) eqn:Hn.
    - repeat split; try done. intros _. by eexists.
    - repeat split; done. }
  destruct (String.eqb_spec type "find_path") as [-> | H4].
  { repeat split; done. }
  repeat split; done.
Qed.

Lemma handleMessage_cases_witness :
  Inbound._handleMessage false
    (fst (Ledger.serverSubscribed Ledger.init (LedgerSpec.ack_at 4 "Z")))
    (Inbound.P_object (Ledger.closed 5 "A"))
  = (fst (Ledger._handleLedgerClosed
            (fst (Ledger.serverSubscribed Ledger.init (LedgerSpec.ack_at 4 "Z")))
            (Ledger.closed 5 "A")),
     map Inbound.Ledger_event
       (snd (Ledger._handleLedgerClosed
               (fst (Ledger.serverSubscribed Ledger.init
                       (LedgerSpec.ack_at 4 "Z")))
               (Ledger.closed 5 "A"))),
     Return tt)
  /\ (exists msg,
        Inbound._handleMessage false Ledger.init
          (Inbound.P_object {[ "type" := VString "transaction" ]})
        = (Ledger.init, [], Throw (TypeError msg))).
Proof.
  split.
  - apply (proj1 (handleMessage_cases false
                    (fst (Ledger.serverSubscribed Ledger.init
                            (LedgerSpec.ack_at 4 "Z")))
                    (Inbound.P_object (Ledger.closed 5 "A")))).
    reflexivity.
  - pose proof (handleMessage_cases false Ledger.init
                  (Inbound.P_object {[ "type" := VString "transaction" ]}))
      as Hcases.
    vm_compute in Hcases. destruct Hcases as (_ & _ & Htx & _).
    exact (Htx eq_refl).
Defined.

(** ** Listeners of [transaction_all] *)

Module SubscriptionFacts.
Import Subscriptions SubscriptionSpec.

Lemma balance_app a b : balance (a ++ b) = balance a + balance b.
Proof.
  induction a as [| [s | s] a IH]; cbn [app balance]; lia.
Qed.

Lemma change_connected r c : _connected (fst (apply_change r c)) = _connected r.
Proof.
  destruct c as [type | type]; cbn [apply_change];
    unfold listenerAdded, listenerRemoved;
    by destruct (String.eqb type "transaction_all").
Qed.

Lemma change_count r c :
  _transaction_subs (fst (apply_change r c)) = _transaction_subs r + net [c].
Proof.
  destruct c as [type | type]; cbn [apply_change net];
    unfold listenerAdded, listenerRemoved;
    destruct (String.eqb type "transaction_all"); cbn; lia.
Qed.

Lemma change_balance r c :
  _connected r = true ->
  indicator (_transaction_subs (fst (apply_change r c)))
  = indicator (_transaction_subs r) + balance (snd (apply_change r c)).
Proof.
  intros Hc. destruct c as [type | type]; cbn [apply_change];
    unfold listenerAdded, listenerRemoved, none_and_connected, indicator;
    destruct (String.eqb type "transaction_all"); cbn [fst snd _transaction_subs
      _connected balance]; rewrite ?Hc, ?andb_true_r; try lia.
  - destruct (Z.eqb_spec (_transaction_subs r) 0) as [E | E]; cbn [balance].
    + rewrite E. reflexivity.
    + destruct (Z.ltb_spec 0 (_transaction_subs r + 1)),
        (Z.ltb_spec 0 (_transaction_subs r)); lia.
  - destruct (Z.eqb_spec (_transaction_subs r - 1) 0) as [E | E]; cbn [balance].
    + assert (_transaction_subs r = 1) as -> by lia. reflexivity.
    + destruct (Z.ltb_spec 0 (_transaction_subs r - 1)),
        (Z.ltb_spec 0 (_transaction_subs r)); lia.
Qed.

Lemma change_silent r c :
  _connected r = false -> snd (apply_change r c) = [].
Proof.
  intros Hc. destruct c as [type | type]; cbn [apply_change];
    unfold listenerAdded, listenerRemoved, none_and_connected;
    destruct (String.eqb type "transaction_all"); cbn [snd _connected];
    rewrite ?Hc, ?andb_false_r; done.
Qed.

Lemma net_cons c cs : net (c :: cs) = net [c] + net cs.
Proof. destruct c; cbn [net]; lia. Qed.

Lemma run_counts cs : forall r,
  _connected (fst (run r cs)) = _connected r
  /\ _transaction_subs (fst (run r cs)) = _transaction_subs r + net cs
  /\ (_connected r = true ->
      indicator (_transaction_subs (fst (run r cs)))
      = indicator (_transaction_subs r) + balance (snd (run r cs)))
  /\ (_connected r = false -> snd (run r cs) = []).
Proof.
  induction cs as [| c cs IH]; intros r; cbn [run].
  - cbn. repeat split; try done; lia.
  - pose proof (change_connected r c) as H1.
    pose proof (change_count r c) as H2.
    pose proof (change_balance r c) as H3.
    pose proof (change_silent r c) as H4.
    destruct (apply_change r c) as [r1 e1]. cbn [fst snd] in *.
    destruct (IH r1) as (I1 & I2 & I3 & I4).
    destruct (run r1 cs) as [r2 e2]. cbn [fst snd] in *.
    rewrite (net_cons c cs).
    split; [congruence |]. split; [lia |]. split.
    + intros Hc. rewrite balance_app, I3, H3 by congruence. lia.
    + intros Hc. rewrite H4, I4 by congruence. done.
Qed.

End SubscriptionFacts.

(** X14. The count of [transaction_all] listeners is the number added less
    the number removed. On a connected Remote that starts without such
    listeners, the subscribe calls made so far exceed the unsubscribe calls
    by one while the count is positive and by none otherwise: a subscribe
    goes out exactly when the first listener comes and an unsubscribe
    exactly when the last one leaves. On a Remote that is not connected no
    call is made at all, and the feeds of the next subscribe request include
    [transactions] exactly when the count is not zero. *)
Theorem transaction_feed_follows_listeners (connected : bool)
    (cs : list Subscriptions.change) :
  let r0 := {| Subscriptions._transaction_subs := 0;
               Subscriptions._connected := connected |} in
  let r := fst (Subscriptions.run r0 cs) in
  let es := snd (Subscriptions.run r0 cs) in
  Subscriptions._transaction_subs r = SubscriptionSpec.net cs
  /\ Subscriptions._connected r = connected
  /\ (if connected
      then SubscriptionSpec.balance es
           = SubscriptionSpec.indicator (Subscriptions._transaction_subs r)
      else es = [])
  /\ (In "transactions" (Subscriptions.feeds r)
      <-> Subscriptions._transaction_subs r <> 0).
Proof.
  cbv zeta.
  destruct (SubscriptionFacts.run_counts cs
              {| Subscriptions._transaction_subs := 0;
                 Subscriptions._connected := connected |})
    as (H1 & H2 & H3 & H4).
  cbn [Subscriptions._transaction_subs Subscriptions._connected] in *.
  split; [lia |]. split; [done |]. split.
  - destruct connected; [| by apply H4].
    rewrite (H3 eq_refl). change (SubscriptionSpec.indicator 0) with 0. lia.
  - unfold Subscriptions.feeds.
    destruct (Z.eqb_spec (Subscriptions._transaction_subs
                (fst (Subscriptions.run
                   {| Subscriptions._transaction_subs := 0;
                      Subscriptions._connected := connected |} cs))) 0)
      as [E | E]; cbn.
    + split; [| done]. intros [H | [H | []]]; discriminate H.
    + split; [done |]. intros _. right. right. by left.
Qed.

(** ** The sequence cache as a whole *)

Module SeqMoreFacts.
Import SeqCache SeqSpec.

Lemma reply_success_entry r account ledger cb m :
  in_flight r account = None ->
  let started := accountSeqCache r account ledger cb in
  accounts (fst (reply (fst started) (snd started) (Ok m))) !! account
  = Some (settled (node_Sequence m))
  /\ forall other, other <> account ->
       accounts (fst (reply (fst started) (snd started) (Ok m))) !! other
       = accounts r !! other.
Proof.
  intros Hidle. cbv zeta.
  destruct (RefreshFacts.accountSeqCache_start r account ledger cb Hidle)
    as (Hrid & Hacc & Hreq).
  assert (Hother : forall other, other <> account ->
            accounts (fst (accountSeqCache r account ledger cb)) !! other
            = accounts r !! other).
  { intros other Hne. unfold accountSeqCache.
    unfold in_flight, entry in Hidle. rewrite Hidle. cbn [fst accounts].
    by rewrite !lookup_insert_ne. }
  destruct (accountSeqCache r account ledger cb) as [r1 rid]. cbn [fst snd] in *.
  subst rid. unfold reply. rewrite Hreq, lookup_insert_eq.
  destruct cb as [cb |]; cbn; unfold emit_cache_event; cbn [requests];
    rewrite lookup_insert_eq; cbn; rewrite lookup_insert_eq;
    (split; [done |]); intros other Hne; rewrite lookup_insert_ne by done;
    by apply Hother.
Qed.

End SeqMoreFacts.

(** X15. The sequence cache keeps accounts apart: reading or setting the
    sequence of one account, or starting a refresh for it, leaves the entry
    of every other account as it is, and reading or setting never touches a
    Request. *)
Theorem sequence_cache_keeps_accounts_apart (json_rewrite : string -> string)
    (r : SeqCache.remote) (account other : string) :
  (json_rewrite account <> other ->
   (forall advance,
       SeqCache.accounts
         (fst (SeqCache.getAccountSequence json_rewrite r account advance))
         !! other
       = SeqCache.accounts r !! other)
   /\ (forall n,
          SeqCache.accounts (SeqCache.setAccountSeq json_rewrite r account n)
            !! other
          = SeqCache.accounts r !! other))
  /\ (account <> other ->
      forall ledger cb,
        SeqCache.accounts (fst (SeqCache.accountSeqCache r account ledger cb))
          !! other
        = SeqCache.accounts r !! other)
  /\ (forall advance,
         SeqCache.requests
           (fst (SeqCache.getAccountSequence json_rewrite r account advance))
         = SeqCache.requests r)
  /\ (forall n,
         SeqCache.requests (SeqCache.setAccountSeq json_rewrite r account n)
         = SeqCache.requests r).
Proof.
  split; [| split; [| split]].
  - intros Hne. split.
    + intros advance. unfold SeqCache.getAccountSequence.
      destruct (SeqCache.accounts r !! json_rewrite account); [| done].
      destruct advance; cbn; try done. by rewrite lookup_insert_ne.
    + intros n. unfold SeqCache.setAccountSeq. cbn. by rewrite lookup_insert_ne.
  - intros Hne ledger cb. unfold SeqCache.accountSeqCache.
    destruct (SeqCache.caching_seq_request _); cbn;
      by rewrite ?lookup_insert_ne.
  - intros advance. unfold SeqCache.getAccountSequence.
    destruct (SeqCache.accounts r !! json_rewrite account); [| done].
    by destruct advance.
  - done.
Qed.

Lemma sequence_cache_keeps_accounts_apart_witness :
  let r := SeqCache.setAccountSeq (fun a => a) SeqCache.init "bob" (of_Z 7) in
  SeqCache.accounts
    (fst (SeqCache.getAccountSequence (fun a => a) r "alice" (VString "ADVANCE")))
    !! "bob"
  = SeqCache.accounts r !! "bob".
Proof.
  cbv zeta.
  apply (sequence_cache_keeps_accounts_apart (fun a => a)
           (SeqCache.setAccountSeq (fun a => a) SeqCache.init "bob" (of_Z 7))
           "alice" "bob").
  discriminate.
Defined.

(** X16. Reserving a sequence number and giving it back: on an entry that
    holds [n], an integer that numbers count exactly from (strictly
    between [-2^53] and [2^53]), a call with ADVANCE returns [n], a call
    with REWIND after it returns [n + 1], and [n] is stored again. *)
Theorem advance_then_rewind_restores (json_rewrite : string -> string)
    (r : SeqCache.remote) (account : string) (info : SeqCache.account_info)
    (n : Z) :
  SeqSpec.safe n ->
  SeqCache.accounts r !! json_rewrite account = Some info ->
  SeqCache.seq info = Some (of_Z n) ->
  let c1 := SeqCache.getAccountSequence json_rewrite r account
              (VString "ADVANCE") in
  let c2 := SeqCache.getAccountSequence json_rewrite (fst c1) account
              (VString "REWIND") in
  snd c1 = Return (Some (of_Z n))
  /\ snd c2 = Return (Some (of_Z (n + 1)))
  /\ SeqSpec.stored json_rewrite (fst c2) account = Some (Some (of_Z n))
  /\ SeqCache.caching_seq_request
       <$> (SeqCache.accounts (fst c2) !! json_rewrite account)
     = Some (SeqCache.caching_seq_request info).
Proof.
  intros _ Hl Hs. cbv zeta.
  rewrite (SeqFacts.getAccountSequence_entry json_rewrite r account info
             "ADVANCE" Hl).
  cbn [fst snd]. rewrite Hs.
  set (r1 := SeqCache.with_accounts r _).
  assert (Hl1 : SeqCache.accounts r1 !! json_rewrite account
                = Some {| SeqCache.seq := Some (of_Z (n + 1));
                          SeqCache.caching_seq_request :=
                            SeqCache.caching_seq_request info |}).
  { subst r1. cbn [SeqCache.with_accounts SeqCache.accounts].
    rewrite lookup_insert_eq. cbn [to_number].
    by rewrite SeqFacts.add_of_Z. }
  rewrite (SeqFacts.getAccountSequence_entry json_rewrite r1 account _
             "REWIND" Hl1).
  cbn [fst snd SeqCache.seq]. split; [done |]. split; [done |].
  unfold SeqSpec.stored. cbn [SeqCache.with_accounts SeqCache.accounts].
  rewrite lookup_insert_eq. cbn [fmap option_fmap option_map SeqCache.seq
    SeqCache.caching_seq_request to_number].
  rewrite SeqFacts.add_of_Z. split; [| done].
  do 3 f_equal. change (SeqSpec.delta "REWIND") with (-1). lia.
Qed.

Lemma advance_then_rewind_restores_witness :
  let r := SeqCache.setAccountSeq (fun a => a) SeqCache.init "alice" (of_Z 10) in
  let c1 := SeqCache.getAccountSequence (fun a => a) r "alice"
              (VString "ADVANCE") in
  let c2 := SeqCache.getAccountSequence (fun a => a) (fst c1) "alice"
              (VString "REWIND") in
  snd c1 = Return (Some (of_Z 10))
  /\ snd c2 = Return (Some (of_Z (10 + 1)))
  /\ SeqSpec.stored (fun a => a) (fst c2) "alice" = Some (Some (of_Z 10))
  /\ SeqCache.caching_seq_request
       <$> (SeqCache.accounts (fst c2) !! "alice")
     = Some None.
Proof.
  apply (advance_then_rewind_restores (fun a => a)
           (SeqCache.setAccountSeq (fun a => a) SeqCache.init "alice" (of_Z 10))
           "alice"
           {| SeqCache.seq := Some (of_Z 10);
              SeqCache.caching_seq_request := None |} 10);
    [split; reflexivity | reflexivity | reflexivity].
Defined.

(** X17. A refresh and the read after it meet only under a canonical
    account name. [accountSeqCache] files the fetched sequence under the
    account as given, [getAccountSequence] reads under the rewritten
    account. When rewriting leaves the account as it is, the read after a
    successful refresh returns the fetched sequence; when it does not, and
    nothing is stored under the rewritten name, the read still returns
    [undefined]. *)
Theorem refresh_is_read_under_canonical_name
    (json_rewrite : string -> string) (r : SeqCache.remote)
    (account : string) (ledger : value) (cb : option nat)
    (m : SeqCache.response) :
  SeqSpec.in_flight r account = None ->
  let started := SeqCache.accountSeqCache r account ledger cb in
  let after := fst (SeqCache.reply (fst started) (snd started) (SeqCache.Ok m)) in
  (json_rewrite account = account ->
   forall advance,
     snd (SeqCache.getAccountSequence json_rewrite after account
            (VString advance))
     = Return (SeqCache.node_Sequence m))
  /\ (json_rewrite account <> account ->
      SeqCache.accounts r !! json_rewrite account = None ->
      forall advance,
        SeqCache.getAccountSequence json_rewrite after account advance
        = (after, Return None)).
Proof.
  intros Hidle. cbv zeta.
  destruct (SeqMoreFacts.reply_success_entry r account ledger cb m Hidle)
    as [Hhere Helse].
  split.
  - intros Hcanon advance.
    rewrite (SeqFacts.getAccountSequence_entry json_rewrite _ account
               (SeqSpec.settled (SeqCache.node_Sequence m)) advance);
      [done | by rewrite Hcanon].
  - intros Hne Hnone advance. unfold SeqCache.getAccountSequence.
    by rewrite (Helse _ Hne), Hnone.
Qed.

Lemma refresh_is_read_under_canonical_name_witness :
  let started := SeqCache.accountSeqCache SeqCache.init "alice" VUndefined None in
  let m := {| SeqCache.node_Sequence := Some (of_Z 42) |} in
  let after := fst (SeqCache.reply (fst started) (snd started) (SeqCache.Ok m)) in
  (forall advance,
     snd (SeqCache.getAccountSequence (fun a => a) after "alice"
            (VString advance))
     = Return (Some (of_Z 42)))
  /\ (forall advance,
        SeqCache.getAccountSequence (fun a => String "r" a)
          after "alice" advance
        = (after, Return None)).
Proof.
  cbv zeta. split.
  - pose proof (refresh_is_read_under_canonical_name (fun a => a)
                  SeqCache.init "alice" VUndefined None
                  {| SeqCache.node_Sequence := Some (of_Z 42) |} eq_refl)
      as [Hcanon _].
    apply Hcanon. reflexivity.
  - pose proof (refresh_is_read_under_canonical_name
                  (fun a => String "r" a) SeqCache.init "alice" VUndefined
                  None {| SeqCache.node_Sequence := Some (of_Z 42) |} eq_refl)
      as [_ Hother].
    apply Hother; [discriminate | reflexivity].
Defined.

(** ** The constructor as a whole *)

Module ConfigMoreFacts.
Import Config ConfigSpec.

Lemma Remote_returns opts s : Remote opts = Return s -> s = settings_of opts.
Proof.
  rewrite ConfigFacts.Remote_checks. unfold check.
  destruct (undefined_or "number" (get opts "ping")); [| done].
  destruct (undefined_or "object" (get opts "storage")); [| done].
  by intros [= <-].
Qed.

Lemma scale_of_Z k n : JS.scale k (of_Z n) = of_Z (k * n).
Proof.
  unfold JS.scale, of_Z. f_equal.
  assert (E : (inject_Z k * inject_Z n)%Q = inject_Z (k * n))
    by (unfold Qmult, inject_Z; cbn; f_equal).
  rewrite E. apply Qcanon.Qred_identity. cbn. apply Z.gcd_1_r.
Qed.

Lemma boolean_cases v :
  is_type "boolean" v = true -> v = VBool true \/ v = VBool false.
Proof. destruct v as [| | [|] | | | |]; cbn; auto; discriminate. Qed.

End ConfigMoreFacts.

(** X18. Whenever the constructor does not throw, every field it derived
    from the options has its documented type: the five flags are booleans
    and the four numeric fields are numbers. Local signing is on unless the
    option is the boolean [false], and when it is on, local sequence
    numbers and local fees are on as well, whatever their own options say.
    An offset given as a whole number of seconds, of at most [2^53]
    milliseconds, is stored in milliseconds. *)
Theorem constructed_fields_are_typed (opts : gmap string value)
    (s : Config.settings) :
  Config.Remote opts = Return s ->
  (Forall (fun v => typeof v = "boolean")
     [Config.trusted s; Config.local_sequence s; Config.local_fee s;
      Config.local_signing s; Config.canonical_signing s]
   /\ Forall (fun v => typeof v = "number")
        [Config.fee_cushion s; Config.max_fee s; Config._connection_offset s;
         Config._submission_timeout s])
  /\ (get opts "local_signing" <> VBool false ->
      Config.local_signing s = VBool true)
  /\ (Config.local_signing s = VBool true ->
      Config.local_sequence s = VBool true
      /\ Config.local_fee s = VBool true)
  /\ (forall k, ConfigSpec.exact_in_ms k ->
                get opts "connection_offset" = VNumber (of_Z k) ->
                Config._connection_offset s = VNumber (of_Z (1000 * k))).
Proof.
  intros Hret. apply ConfigMoreFacts.Remote_returns in Hret. subst s.
  unfold ConfigSpec.settings_of.
  cbn [Config.trusted Config.local_sequence Config.local_fee
         Config.local_signing Config.canonical_signing Config.fee_cushion
         Config.max_fee Config._connection_offset Config._submission_timeout].
  set (signing := Config.or_default "boolean" (get opts "local_signing")
                    (VBool true)).
  assert (Hsig : Config.is_type "boolean" signing = true)
    by (by apply ConfigFacts.or_default_type).
  assert (Hty : forall t v, Config.is_type t v = true -> typeof v = t)
    by (intros t v H; by apply String.eqb_eq in H).
  split; [split |].
  - repeat constructor.
    + by destruct (truthy signing).
    + destruct (truthy signing); [done |].
      by apply Hty, ConfigFacts.or_default_type.
    + by apply Hty.
    + by apply Hty, ConfigFacts.or_default_type.
  - repeat constructor.
    + by apply Hty, ConfigFacts.or_default_type.
    + by apply Hty, ConfigFacts.or_default_type.
    + apply Hty, ConfigFacts.times_1000_number.
    + apply Hty, ConfigFacts.times_1000_number.
  - split; [| split].
    + intros Hne. subst signing. unfold Config.or_default.
      destruct (Config.is_type "boolean" (get opts "local_signing")) eqn:Hb;
        [| done].
      destruct (ConfigMoreFacts.boolean_cases _ Hb) as [E | E]; congruence.
    + intros ->. by cbn.
    + intros k _ Hk. rewrite Hk.
      change (Config.or_default "number" (VNumber (of_Z k)) (VNumber (of_Z 0)))
        with (VNumber (of_Z k)).
      cbn [Config.times_1000]. by rewrite ConfigMoreFacts.scale_of_Z.
Qed.

Lemma constructed_fields_are_typed_witness :
  let opts : gmap string value :=
    {[ "connection_offset" := VNumber (of_Z 5);
       "local_fee" := VBool false ]} in
  let s := ConfigSpec.settings_of opts in
  Config.local_signing s = VBool true
  /\ (Config.local_sequence s = VBool true /\ Config.local_fee s = VBool true)
  /\ Config._connection_offset s = VNumber (of_Z (1000 * 5)).
Proof.
  cbv zeta.
  pose proof (constructed_fields_are_typed
                {[ "connection_offset" := VNumber (of_Z 5);
                   "local_fee" := VBool false ]}
                (ConfigSpec.settings_of
                   {[ "connection_offset" := VNumber (of_Z 5);
                      "local_fee" := VBool false ]})
                eq_refl) as (_ & Hdef & Hforce & Hms).
  split; [apply Hdef; discriminate |].
  split; [apply Hforce, Hdef; discriminate |].
  apply Hms; [split; discriminate | reflexivity].
Defined.

(** ** The account root cache *)

(** X19. While no ledger hash is known, the account root cache works as a
    cache: a request for an account that is not cached goes to the server,
    the node of the reply is filed under its own [Account], and from then on
    a request for that account is answered with that node and is not sent.
    The node is filed under the name the server gives: if that is not the
    name asked for, the name asked for is still not cached. *)
Theorem account_root_round_trip (r : RootCache.remote)
    (q : RootCache.request) (n : RootCache.node) :
  truthy (Ledger._ledger_hash (RootCache.ledger r)) = false ->
  RootCache.account_root r !! RootCache.message_account_root q = None ->
  let sent := RootCache.request_request r q in
  let after := fst (RootCache.success r (fst sent) n) in
  snd sent = [RootCache.Request_default]
  /\ RootCache.account_root after
     = <[RootCache.Account n := n]> (RootCache.account_root r)
  /\ (forall q', RootCache.message_account_root q' = RootCache.Account n ->
                 RootCache.request_request after q'
                 = (q', [RootCache.Emit_success n]))
  /\ (RootCache.Account n <> RootCache.message_account_root q ->
      snd (RootCache.request_request after q) = [RootCache.Request_default]).
Proof.
  intros Hhash Hmiss. cbv zeta. unfold RootCache.request_request.
  rewrite Hhash, Hmiss. cbn [negb fst snd RootCache.success RootCache.caching
    RootCache.ledger RootCache.account_root RootCache.message_account_root].
  rewrite Hhash. cbn [negb].
  split; [done |]. split; [done |]. split.
  - intros q' ->. by rewrite lookup_insert_eq.
  - intros Hne. rewrite lookup_insert_ne by done. by rewrite Hmiss.
Qed.

Lemma account_root_round_trip_witness :
  let r := {| RootCache.ledger := Ledger.init; RootCache.account_root := ∅ |} in
  let q := {| RootCache.message_account_root := "alice";
              RootCache.caching := false |} in
  let n := {| RootCache.Account := "alice";
              RootCache.Sequence := Some (of_Z 3) |} in
  let sent := RootCache.request_request r q in
  let after := fst (RootCache.success r (fst sent) n) in
  snd sent = [RootCache.Request_default]
  /\ RootCache.account_root after
     = <[RootCache.Account n := n]> (RootCache.account_root r)
  /\ (forall q', RootCache.message_account_root q' = RootCache.Account n ->
                 RootCache.request_request after q'
                 = (q', [RootCache.Emit_success n]))
  /\ (RootCache.Account n <> RootCache.message_account_root q ->
      snd (RootCache.request_request after q) = [RootCache.Request_default]).
Proof.
  apply (account_root_round_trip
           {| RootCache.ledger := Ledger.init; RootCache.account_root := ∅ |}
           {| RootCache.message_account_root := "alice";
              RootCache.caching := false |}
           {| RootCache.Account := "alice";
              RootCache.Sequence := Some (of_Z 3) |});
    reflexivity.
Defined.

(** X20. [dirtyAccountRoot] takes one account out of the cache and no
    other: the next request for the rewritten name of that account is sent
    to the server, and a request for any other account is answered or sent
    as before. *)
Theorem dirty_evicts_one_account (json_rewrite : string -> string)
    (r : RootCache.remote) (account : string) (q : RootCache.request) :
  let r' := RootCache.dirtyAccountRoot json_rewrite r account in
  (RootCache.message_account_root q = json_rewrite account ->
   snd (RootCache.request_request r' q) = [RootCache.Request_default])
  /\ (RootCache.message_account_root q <> json_rewrite account ->
      RootCache.request_request r' q = RootCache.request_request r q)
  /\ RootCache.ledger r' = RootCache.ledger r.
Proof.
  cbv zeta. unfold RootCache.request_request, RootCache.dirtyAccountRoot.
  cbn [RootCache.ledger RootCache.account_root].
  split; [| split; [| done]].
  - intros ->. rewrite lookup_delete_eq.
    by destruct (negb (truthy _)).
  - intros Hne. by rewrite lookup_delete_ne.
Qed.

Lemma dirty_evicts_one_account_witness :
  let n := {| RootCache.Account := "alice";
              RootCache.Sequence := Some (of_Z 3) |} in
  let r := {| RootCache.ledger := Ledger.init;
              RootCache.account_root := {[ "alice" := n ]} |} in
  let q := {| RootCache.message_account_root := "alice";
              RootCache.caching := false |} in
  snd (RootCache.request_request r q) = [RootCache.Emit_success n]
  /\ snd (RootCache.request_request
            (RootCache.dirtyAccountRoot (fun a => a) r "alice") q)
     = [RootCache.Request_default].
Proof.
  cbv zeta. split; [reflexivity |].
  apply (dirty_evicts_one_account (fun a => a)
           {| RootCache.ledger := Ledger.init;
              RootCache.account_root :=
                {[ "alice" := {| RootCache.Account := "alice";
                                 RootCache.Sequence := Some (of_Z 3) |} ]} |}
           "alice"
           {| RootCache.message_account_root := "alice";
              RootCache.caching := false |}).
  reflexivity.
Defined.

(** X21. The cache is in use only until a ledger hash is known. Once a
    subscribe reply that carries a ledger was handled, every request is
    sent to the server, also for an account that is cached, no request gets
    the listener that fills the cache, and so a reply adds nothing to it. *)
Theorem account_root_cache_off_after_subscribe (r : RootCache.remote)
    (a : Ledger.ack) (q : RootCache.request) (n : RootCache.node) :
  Ledger.ack_has_ledger a = true ->
  RootCache.caching q = false ->
  let r' := {| RootCache.ledger :=
                 fst (Ledger.serverSubscribed (RootCache.ledger r) a);
               RootCache.account_root := RootCache.account_root r |} in
  RootCache.request_request r' q = (q, [RootCache.Request_default])
  /\ fst (RootCache.success r' (fst (RootCache.request_request r' q)) n) = r'.
Proof.
  intros Hack Hq. cbv zeta.
  assert (Hhash : truthy (Ledger._ledger_hash
                    (fst (Ledger.serverSubscribed (RootCache.ledger r) a)))
                  = true).
  { unfold Ledger.serverSubscribed. rewrite Hack. cbn.
    unfold Ledger.ack_has_ledger in Hack. by apply andb_true_iff in Hack as [-> _]. }
  unfold RootCache.request_request. cbn [RootCache.ledger]. rewrite Hhash.
  cbn [negb fst]. split; [done |].
  unfold RootCache.success. by rewrite Hq.
Qed.

Lemma account_root_cache_off_after_subscribe_witness :
  let n := {| RootCache.Account := "alice";
              RootCache.Sequence := Some (of_Z 3) |} in
  let r := {| RootCache.ledger := Ledger.init;
              RootCache.account_root := {[ "alice" := n ]} |} in
  let q := {| RootCache.message_account_root := "alice";
              RootCache.caching := false |} in
  let r' := {| RootCache.ledger :=
                 fst (Ledger.serverSubscribed (RootCache.ledger r)
                        (LedgerSpec.ack_at 4 "Z"));
               RootCache.account_root := RootCache.account_root r |} in
  RootCache.request_request r' q = (q, [RootCache.Request_default])
  /\ fst (RootCache.success r' (fst (RootCache.request_request r' q)) n) = r'.
Proof.
  apply (account_root_cache_off_after_subscribe
           {| RootCache.ledger := Ledger.init;
              RootCache.account_root :=
                {[ "alice" := {| RootCache.Account := "alice";
                                 RootCache.Sequence := Some (of_Z 3) |} ]} |}
           (LedgerSpec.ack_at 4 "Z")
           {| RootCache.message_account_root := "alice";
              RootCache.caching := false |}
           {| RootCache.Account := "alice";
              RootCache.Sequence := Some (of_Z 3) |});
    reflexivity.
Defined.

(** ** Accounts and order books by name *)

Module RegistryFacts.
Import Registry RegistrySpec.

Lemma append_nil b : EmptyString +:+ b = b.
Proof. reflexivity. Qed.

Lemma append_cons x a b : String x a +:+ b = String x (a +:+ b).
Proof. reflexivity. Qed.

Lemma append_empty s : s +:+ EmptyString = s.
Proof.
  induction s as [| a s IH]; [done |].
  by rewrite append_cons, IH.
Qed.

Lemma free_of_app c a b : free_of c (a +:+ b) = free_of c a && free_of c b.
Proof.
  induction a as [| x a IH]; [done |].
  rewrite append_cons. cbn. rewrite IH. by rewrite andb_assoc.
Qed.

Lemma free_of_sep c a b : free_of c (a +:+ String c b) = false.
Proof.
  rewrite free_of_app. cbn. rewrite Ascii.eqb_refl. cbn.
  by rewrite andb_false_r.
Qed.

Lemma split_at c a : forall a' b b',
  free_of c a = true -> free_of c a' = true ->
  a +:+ String c b = a' +:+ String c b' -> a = a' /\ b = b'.
Proof.
  induction a as [| x a IH]; intros [| x' a'] b b';
    rewrite ?append_nil, ?append_cons; cbn.
  - intros _ _ [= ->]. done.
  - intros _ Hf [= <- _]. rewrite Ascii.eqb_refl in Hf. done.
  - intros Hf _ [= -> _]. rewrite Ascii.eqb_refl in Hf. done.
  - intros [_ Hf]%andb_true_iff [_ Hf']%andb_true_iff [= -> Hrest].
    destruct (IH a' b b' Hf Hf' Hrest) as [-> ->]. done.
Qed.

Lemma prepareTrade_STR i : prepareTrade "STR" i = "STR".
Proof. done. Qed.

Lemma prepareTrade_other c i :
  c <> "STR" -> prepareTrade c i = c +:+ String "/" i.
Proof.
  intros Hne. unfold prepareTrade.
  by destruct (String.eqb_spec c "STR").
Qed.

Lemma prepareTrade_same c i c' i' :
  free_of "/" c = true -> free_of "/" c' = true ->
  prepareTrade c i = prepareTrade c' i' -> same_side c i c' i'.
Proof.
  intros Hc Hc' Heq. unfold same_side.
  destruct (String.eqb_spec c "STR") as [-> | Hn];
    destruct (String.eqb_spec c' "STR") as [-> | Hn'].
  - auto.
  - rewrite prepareTrade_STR, (prepareTrade_other c' i' Hn') in Heq.
    assert (H : free_of "/" "STR" = false)
      by (rewrite Heq; apply free_of_sep).
    discriminate H.
  - rewrite prepareTrade_STR, (prepareTrade_other c i Hn) in Heq.
    assert (H : free_of "/" "STR" = false)
      by (rewrite <- Heq; apply free_of_sep).
    discriminate H.
  - rewrite (prepareTrade_other c i Hn), (prepareTrade_other c' i' Hn') in Heq.
    destruct (split_at "/" c c' i i' Hc Hc' Heq) as [-> ->]. auto.
Qed.

Lemma prepareTrade_free c i :
  free_of ":" c = true -> free_of ":" i = true ->
  free_of ":" (prepareTrade c i) = true.
Proof.
  intros Hc Hi. unfold prepareTrade. rewrite free_of_app, Hc.
  destruct (String.eqb c "STR"); [done |].
  cbn. exact Hi.
Qed.

End RegistryFacts.

(** X22. [findAccount] finds again what it made only under a canonical
    name. For a name that rewriting leaves as it is and that gives a valid
    Account, the first call makes the Account and files it, and every later
    call returns that Account and makes none. For a name that rewriting
    changes, with nothing filed under the rewritten name, the Account is
    filed under the name as given and looked for under the rewritten one: a
    second call does not find it and makes another. An Account that is not
    valid is never filed. *)
Theorem findAccount_needs_canonical_name
    (json_rewrite : string -> string) (Account_new : string -> Dedup.listener)
    (isValid : Dedup.listener -> bool) (r : Dedup.remote) (id : string) :
  Dedup._accounts r !! json_rewrite id = None ->
  let find := Registry.findAccount json_rewrite Account_new isValid in
  let first := find r id in
  let second := find (fst (fst first)) id in
  first = (fst (fst first), Account_new id, [Registry.New_Account id])
  /\ (json_rewrite id = id -> isValid (Account_new id) = true ->
      second = (fst (fst first), Account_new id, []))
  /\ (json_rewrite id <> id ->
      snd second = [Registry.New_Account id])
  /\ (isValid (Account_new id) = false ->
      fst (fst first) = r /\ snd second = [Registry.New_Account id]).
Proof.
  intros Hmiss. cbv zeta. unfold Registry.findAccount, Registry.getAccount.
  rewrite Hmiss. unfold Registry.addAccount. cbn [fst snd].
  split; [done |]. split; [| split].
  - intros Hcanon ->. cbn [Dedup._accounts Registry.with_accounts].
    by rewrite Hcanon, lookup_insert_eq.
  - intros Hne. destruct (isValid (Account_new id)).
    + cbn [Dedup._accounts Registry.with_accounts].
      rewrite lookup_insert_ne by done. by rewrite Hmiss.
    + by rewrite Hmiss.
  - intros ->. by rewrite Hmiss.
Qed.

Lemma findAccount_needs_canonical_name_witness :
  let find := Registry.findAccount (fun a => a) RegistrySpec.account_object
                RegistrySpec.always in
  let first := find Dedup.init "alice" in
  find (fst (fst first)) "alice"
  = (fst (fst first), RegistrySpec.account_object "alice", []).
Proof.
  cbv zeta.
  apply (findAccount_needs_canonical_name (fun a => a)
           RegistrySpec.account_object RegistrySpec.always Dedup.init "alice"
           eq_refl); reflexivity.
Defined.

(** X23. The key of an order book tells books apart as long as the names
    hold no separator: for currencies without [/] and [:] and issuers
    without [:], two books have the same key only if they have the same two
    currencies and, for each currency other than [STR], the same issuer.
    The issuer of [STR] is not part of the key. Without the condition keys
    do collide: currency [A/B] of issuer [C] and currency [A] of issuer
    [B/C] both give [A/B/C]. *)
Theorem book_key_tells_books_apart (cg ig cp ip cg' ig' cp' ip' : string) :
  RegistrySpec.plain cg = true -> RegistrySpec.plain cg' = true ->
  RegistrySpec.plain cp = true -> RegistrySpec.plain cp' = true ->
  RegistrySpec.free_of ":" ig = true -> RegistrySpec.free_of ":" ig' = true ->
  (Registry.book_key cg ig cp ip = Registry.book_key cg' ig' cp' ip' ->
   RegistrySpec.same_side cg ig cg' ig'
   /\ RegistrySpec.same_side cp ip cp' ip')
  /\ (forall i i', Registry.prepareTrade "STR" i = Registry.prepareTrade "STR" i')
  /\ Registry.prepareTrade "A/B" "C" = Registry.prepareTrade "A" "B/C".
Proof.
  unfold RegistrySpec.plain.
  intros [Hg1 Hg2]%andb_true_iff [Hg1' Hg2']%andb_true_iff
         [Hp1 Hp2]%andb_true_iff [Hp1' Hp2']%andb_true_iff Hi Hi'.
  split; [| split; done].
  unfold Registry.book_key. intros Heq.
  change (":" +:+ ?x) with (String ":" x) in Heq.
  apply RegistryFacts.split_at in Heq as [Hgets Hpays];
    [| by apply RegistryFacts.prepareTrade_free
       | by apply RegistryFacts.prepareTrade_free].
  split; by apply RegistryFacts.prepareTrade_same.
Qed.

Lemma book_key_tells_books_apart_witness :
  (Registry.book_key "USD" "bank" "STR" "x"
   = Registry.book_key "USD" "bank" "STR" "y" ->
   RegistrySpec.same_side "USD" "bank" "USD" "bank"
   /\ RegistrySpec.same_side "STR" "x" "STR" "y")
  /\ (forall i i',
        Registry.prepareTrade "STR" i = Registry.prepareTrade "STR" i')
  /\ Registry.prepareTrade "A/B" "C" = Registry.prepareTrade "A" "B/C".
Proof.
  apply (book_key_tells_books_apart
           "USD" "bank" "STR" "x" "USD" "bank" "STR" "y");
    reflexivity.
Defined.

(** X24. [createOrderBook] makes a book once per key: after a call that
    gave a valid book, a call with the same four names, or with names that
    differ only in the issuer of [STR], returns that book and makes none. A
    book that is not valid is handed back but not kept. *)
Theorem createOrderBook_once_per_key
    (OrderBook_new : string -> string -> string -> string -> string
                     -> Dedup.listener)
    (is_valid : Dedup.listener -> bool) (r : Dedup.remote)
    (cg ig cp ip : string) :
  let create := Registry.createOrderBook OrderBook_new is_valid in
  let key := Registry.book_key cg ig cp ip in
  let book := OrderBook_new cg ig cp ip key in
  Dedup._books r !! key = None ->
  let first := create r cg ig cp ip in
  first = (fst (fst first), book, [Registry.New_OrderBook key])
  /\ (is_valid book = true ->
      create (fst (fst first)) cg ig cp ip = (fst (fst first), book, [])
      /\ (cg = "STR" ->
          forall other,
            create (fst (fst first)) cg other cp ip
            = (fst (fst first), book, [])))
  /\ (is_valid book = false -> fst (fst first) = r).
Proof.
  cbv zeta. intros Hmiss. unfold Registry.createOrderBook.
  rewrite Hmiss. cbn [fst snd]. split; [done |]. split.
  - intros ->. cbn [Dedup._books Registry.with_books]. split.
    + by rewrite lookup_insert_eq.
    + intros -> other.
      change (Registry.book_key "STR" other cp ip)
        with (Registry.book_key "STR" ig cp ip).
      by rewrite lookup_insert_eq.
  - by intros ->.
Qed.

Lemma createOrderBook_once_per_key_witness :
  let create := Registry.createOrderBook RegistrySpec.book_object
                  RegistrySpec.always in
  let first := create Dedup.init "STR" "nobody" "USD" "bank" in
  create (fst (fst first)) "STR" "somebody" "USD" "bank"
  = (fst (fst first),
     RegistrySpec.book_object "STR" "nobody" "USD" "bank"
       (Registry.book_key "STR" "nobody" "USD" "bank"), []).
Proof.
  cbv zeta.
  destruct (createOrderBook_once_per_key RegistrySpec.book_object
              RegistrySpec.always Dedup.init "STR" "nobody" "USD" "bank"
              eq_refl) as (_ & Hvalid & _).
  destruct (Hvalid eq_refl) as [_ Hstr].
  apply (Hstr eq_refl "somebody").
Defined.

(** ** Requests built from options *)

Module BuilderFacts.
Import Builders BuilderSpec.

Lemma flags_fold (l : list string) :
  forall (m : gmap string value) (k : string),
  foldl (fun m o =>
           if bool_decide (o ∈ ledger_flags)
           then <[o := VBool true]> m else m) m l !! k
  = if bool_decide (k ∈ ledger_flags /\ k ∈ l)
    then Some (VBool true) else m !! k.
Proof.
  induction l as [| o l IH]; intros m k; cbn [foldl].
  - rewrite bool_decide_eq_false_2; [done |].
    intros [_ H]. by apply elem_of_nil in H.
  - rewrite IH. destruct (decide (k ∈ ledger_flags /\ k ∈ l)) as [Hin | Hout].
    + rewrite !bool_decide_eq_true_2; [done | | done].
      destruct Hin. split; [done | by apply list_elem_of_further].
    + rewrite (bool_decide_eq_false_2 _ Hout).
      destruct (decide (o ∈ ledger_flags)) as [Hflag | Hflag].
      * rewrite (bool_decide_eq_true_2 _ Hflag). cbv iota.
        destruct (decide (k = o)) as [-> | Hne].
        -- rewrite lookup_insert_eq. rewrite bool_decide_eq_true_2; [done |].
           split; [done | apply list_elem_of_here].
        -- rewrite lookup_insert_ne by done.
           rewrite bool_decide_eq_false_2; [done |].
           intros [Hk [-> | Hl]%elem_of_cons]; [done | by apply Hout].
      * rewrite (bool_decide_eq_false_2 _ Hflag). cbv iota.
        rewrite bool_decide_eq_false_2; [done |].
        intros [Hk [-> | Hl]%elem_of_cons]; [done | by apply Hout].
Qed.

Lemma fields_fold (message0 : gmap string value) (options : gmap string value)
    (k : string) :
  map_fold (fun o v (m : gmap string value) =>
              if bool_decide (o ∈ account_tx_fields)
              then <[o := v]> m else m) message0 options !! k
  = if bool_decide (k ∈ account_tx_fields)
    then match options !! k with
         | Some v => Some v
         | None => message0 !! k
         end
    else message0 !! k.
Proof.
  revert options.
  apply (map_fold_weak_ind
           (fun (r : gmap string value) (m : gmap string value) =>
              r !! k
              = if bool_decide (k ∈ account_tx_fields)
                then match m !! k with
                     | Some v => Some v
                     | None => message0 !! k
                     end
                else message0 !! k)).
  - rewrite lookup_empty. by destruct (bool_decide _).
  - intros o v m r Hfresh IH.
    destruct (decide (k = o)) as [-> | Hne].
    + rewrite lookup_insert_eq.
      destruct (bool_decide (o ∈ account_tx_fields)) eqn:Hin.
      * by rewrite lookup_insert_eq.
      * rewrite IH. done.
    + rewrite (lookup_insert_ne m) by done.
      destruct (bool_decide (o ∈ account_tx_fields));
        [rewrite lookup_insert_ne by done |]; exact IH.
Qed.

Lemma get_alias from to options k :
  k <> to -> get (alias from to options) k = get options k.
Proof.
  intros Hne. unfold alias, get.
  destruct (is_undefined _); [done |].
  by rewrite lookup_insert_ne.
Qed.

Lemma lookup_aliases options k :
  alias "max_ledger" "ledger_index_max"
    (alias "min_ledger" "ledger_index_min" options) !! k
  = sent options k.
Proof.
  unfold sent.
  destruct (String.eqb_spec k "ledger_index_min") as [-> | Hmin].
  - unfold alias at 1. rewrite get_alias by done.
    destruct (is_undefined (get options "max_ledger"));
      [| rewrite lookup_insert_ne by done];
      unfold alias; destruct (is_undefined (get options "min_ledger"));
      by rewrite ?lookup_insert_eq.
  - destruct (String.eqb_spec k "ledger_index_max") as [-> | Hmax].
    + unfold alias at 1. rewrite get_alias by done.
      destruct (is_undefined (get options "max_ledger"));
        [| by rewrite lookup_insert_eq].
      unfold alias. destruct (is_undefined (get options "min_ledger"));
        by rewrite ?lookup_insert_ne.
    + unfold alias.
      destruct (is_undefined (get _ "max_ledger"));
        rewrite ?lookup_insert_ne by done;
        destruct (is_undefined (get _ "min_ledger"));
        by rewrite ?lookup_insert_ne.
Qed.

Lemma get_aliases options k :
  k <> "ledger_index_min" -> k <> "ledger_index_max" ->
  get (alias "max_ledger" "ledger_index_max"
         (alias "min_ledger" "ledger_index_min" options)) k
  = get options k.
Proof. intros. by rewrite !get_alias. Qed.

Lemma get_written (o : gmap string value) k v : get (<[k := v]> o) k = v.
Proof. unfold get. by rewrite lookup_insert_eq. Qed.

Lemma get_beside (o : gmap string value) k k' v :
  k <> k' -> get (<[k := v]> o) k' = get o k'.
Proof. intros. unfold get. by rewrite lookup_insert_ne. Qed.

End BuilderFacts.

(** X25. [requestLedger] turns a flag on because it is named in the
    options, not because it is true: with an options object the message
    gets [true] under each of [full], [expand], [transactions] and
    [accounts] that is a key of the object, and nothing else is changed.
    With a function in the place of the options no flag is set and that
    function is the callback; with [null] the call throws; with anything
    else, also with no options at all, [full] is set. *)
Theorem requestLedger_flags (keys : nat -> list string)
    (message0 : gmap string value) (ledger options callback : value) :
  let m1 := if truthy ledger then <["ledger" := ledger]> message0
            else message0 in
  let result := Builders.requestLedger keys message0 ledger options callback in
  match options with
  | VObject ref =>
      exists m,
        result = Return (m, callback)
        /\ forall k,
             m !! k
             = if bool_decide (k ∈ Builders.ledger_flags /\ k ∈ keys ref)
               then Some (VBool true) else m1 !! k
  | VNull => exists e, result = Throw e
  | VFunction _ => result = Return (m1, options)
  | _ => result = Return (<["full" := VBool true]> m1, callback)
  end.
Proof.
  cbv zeta. destruct options; try reflexivity.
  - by eexists.
  - eexists. split; [reflexivity |]. intros k. apply BuilderFacts.flags_fold.
Qed.

(** X26. The message of an account_tx request holds the options the code
    knows and no other: when [requestAccountTx] returns a request, each of
    the ten known names that the options give is in the message with the
    value given, where a [min_ledger] or [max_ledger] that is not undefined
    is sent as [ledger_index_min] or [ledger_index_max] and wins over a
    value given under that name; every other entry of the message is as
    the new request had it. The callback is the one passed. *)
Theorem requestAccountTx_message (Boolean : nat)
    (propertiesFilter : value -> nat) (message0 : gmap string value)
    (options : gmap string value) (callback : value)
    (q : Builders.account_tx) :
  snd (Builders.requestAccountTx Boolean propertiesFilter message0 options
         callback) = Return q ->
  Builders.tx_callback q = callback
  /\ forall k,
       Builders.tx_message q !! k
       = if bool_decide (k ∈ Builders.account_tx_fields)
         then match BuilderSpec.sent options k with
              | Some v => Some v
              | None => message0 !! k
              end
         else message0 !! k.
Proof.
  unfold Builders.requestAccountTx. cbv zeta.
  set (options2 := Builders.alias "max_ledger" "ledger_index_max" _).
  set (message1 := map_fold _ _ _).
  assert (Hm : forall k,
             message1 !! k
             = if bool_decide (k ∈ Builders.account_tx_fields)
               then match BuilderSpec.sent options k with
                    | Some v => Some v
                    | None => message0 !! k
                    end
               else message0 !! k).
  { intros k. unfold message1. rewrite BuilderFacts.fields_fold.
    unfold options2. by rewrite BuilderFacts.lookup_aliases. }
  clearbody message1. clearbody options2.
  intros Hq.
  repeat match type of Hq with
         | context [if ?b then _ else _] => destruct b; cbn [snd] in Hq
         | context [match ?o with Return _ => _ | Throw _ => _ end] =>
             destruct o; cbn [snd] in Hq
         end;
    try discriminate Hq; injection Hq as <-; by split.
Qed.

Lemma requestAccountTx_message_witness :
  let options : gmap string value :=
    {[ "account" := VString "alice"; "min_ledger" := VNumber (of_Z 7);
       "ledger_index_min" := VNumber (of_Z 3); "secret" := VString "s" ]} in
  let q := {| Builders.tx_message :=
                {[ "account" := VString "alice";
                   "ledger_index_min" := VNumber (of_Z 7) ]};
              Builders.tx_filter := None;
              Builders.tx_callback := VFunction 1 |} in
  Builders.tx_callback q = VFunction 1
  /\ forall k,
       Builders.tx_message q !! k
       = if bool_decide (k ∈ Builders.account_tx_fields)
         then match BuilderSpec.sent options k with
              | Some v => Some v
              | None => (∅ : gmap string value) !! k
              end
         else (∅ : gmap string value) !! k.
Proof.
  cbv zeta.
  apply (requestAccountTx_message 0 (fun _ => 1%nat) ∅
           {[ "account" := VString "alice"; "min_ledger" := VNumber (of_Z 7);
              "ledger_index_min" := VNumber (of_Z 3);
              "secret" := VString "s" ]}
           (VFunction 1)).
  vm_compute. reflexivity.
Defined.

(** X27. [requestAccountTx] fails only on a filter it was given: it throws
    [Missing filter function] exactly when [options.filter] is truthy and
    is neither [inbound] nor [outbound], nor an object, nor a function.
    Otherwise it returns the request; when no filter is given, the request
    gets the built-in [Boolean] as its filter if [binary], [map] or
    [reduce] is set, and no filter if none is. In every case the options
    object of the caller ends with a boolean [parseBinary]. *)
Theorem requestAccountTx_filter (Boolean : nat)
    (propertiesFilter : value -> nat) (message0 : gmap string value)
    (options : gmap string value) (callback : value) :
  let result :=
    Builders.requestAccountTx Boolean propertiesFilter message0 options
      callback in
  let given := get options "filter" in
  (if BuilderSpec.bad_filter given
   then snd result = Throw (Error "Missing filter function")
   else exists q,
       snd result = Return q
       /\ (if truthy given then Builders.tx_filter q <> None
           else Builders.tx_filter q
                = if BuilderSpec.post_processed options
                  then Some (Builders.By_function (VFunction Boolean))
                  else None))
  /\ typeof (get (fst result) "parseBinary") = "boolean".
Proof.
  cbv zeta. unfold Builders.requestAccountTx. cbv zeta.
  set (o2 := Builders.alias "max_ledger" _ _).
  assert (H2 : forall k, k <> "ledger_index_min" -> k <> "ledger_index_max" ->
                         get o2 k = get options k)
    by (intros; by apply BuilderFacts.get_aliases).
  clearbody o2.
  set (o3 := if negb (String.eqb (typeof (get o2 "parseBinary")) "boolean")
             then _ else o2).
  assert (H3 : forall k, k <> "parseBinary" -> k <> "ledger_index_min" ->
                         k <> "ledger_index_max" -> get o3 k = get options k).
  { intros k ? ? ?. unfold o3.
    destruct (negb _); rewrite ?BuilderFacts.get_beside by done; by apply H2. }
  assert (Hp : typeof (get o3 "parseBinary") = "boolean").
  { unfold o3.
    destruct (String.eqb_spec (typeof (get o2 "parseBinary")) "boolean");
      cbn [negb]; [done | by rewrite BuilderFacts.get_written]. }
  clearbody o3. set (message1 := map_fold _ _ _). clearbody message1.
  rewrite (H3 "binary"), (H3 "map"), (H3 "reduce"), (H3 "filter") by done.
  fold (BuilderSpec.post_processed options).
  set (f := get options "filter").
  set (o4 := if BuilderSpec.post_processed options then _ else o3).
  assert (H4 : get o4 "filter"
               = if BuilderSpec.post_processed options
                 then (if truthy f then f else VFunction Boolean) else f).
  { unfold o4. destruct (BuilderSpec.post_processed options);
      [by rewrite BuilderFacts.get_written | by apply H3]. }
  assert (Hp4 : typeof (get o4 "parseBinary") = "boolean").
  { unfold o4. destruct (BuilderSpec.post_processed options);
      [by rewrite BuilderFacts.get_beside | done]. }
  clearbody o4. unfold BuilderSpec.bad_filter.
  destruct (truthy f) eqn:Htruthy.
  - assert (H4' : get o4 "filter" = f)
      by (rewrite H4; by destruct (BuilderSpec.post_processed options)).
    clear H4. rewrite !H4', Htruthy. cbn [andb].
    destruct (Builders.is_string f "inbound") eqn:Hin; cbn [negb andb fst snd].
    { split; [by eexists | done]. }
    destruct (Builders.is_string f "outbound") eqn:Hout;
      cbn [negb andb fst snd].
    { split; [by eexists | done]. }
    destruct (String.eqb (typeof f) "object") eqn:Hobj; cbn [negb andb].
    { rewrite BuilderFacts.get_written. cbn [Builders.accountTxFilter typeof
        String.eqb Ascii.eqb Bool.eqb negb fst snd].
      split; [by eexists |]. by rewrite BuilderFacts.get_beside. }
    rewrite H4'. unfold Builders.accountTxFilter.
    destruct (String.eqb (typeof f) "function"); cbn [negb fst snd].
    { split; [by eexists | done]. }
    by split.
  - assert (H4' : get o4 "filter"
                  = if BuilderSpec.post_processed options
                    then VFunction Boolean else f)
      by (by rewrite H4).
    clear H4. rewrite !H4'. cbn [andb].
    destruct (BuilderSpec.post_processed options).
    + cbn [truthy Builders.is_string typeof String.eqb Ascii.eqb Bool.eqb].
      rewrite H4'.
      cbn [Builders.accountTxFilter typeof String.eqb Ascii.eqb Bool.eqb
           negb fst snd].
      split; [by eexists | done].
    + rewrite Htruthy. cbn [fst snd]. split; [by eexists | done].
Qed.

(** ** Transactions by type name *)

Module TransactionFacts.
Import Transactions.

Lemma lower_lower (c : ascii) : lower (lower c) = lower c.
Proof. by destruct c as [[] [] [] [] [] [] [] []]. Qed.

Lemma toLowerCase_idem (s : string) :
  toLowerCase (toLowerCase s) = toLowerCase s.
Proof.
  induction s as [| c s IH]; [done |].
  cbn [toLowerCase]. by rewrite lower_lower, IH.
Qed.

Lemma type_for_same (s s' : string) :
  toLowerCase s = toLowerCase s' -> type_for s = type_for s'.
Proof. intros H. unfold type_for. by rewrite H. Qed.

Lemma last_string (s s' : string) (rest : list value) :
  String.eqb (typeof (List.last (VString s :: rest) VUndefined)) "function"
  = String.eqb (typeof (List.last (VString s' :: rest) VUndefined)) "function"
  /\ (String.eqb (typeof (List.last (VString s :: rest) VUndefined))
                 "function" = true ->
      List.last (VString s :: rest) VUndefined
      = List.last (VString s' :: rest) VUndefined).
Proof.
  destruct rest as [| v rest]; [by split |].
  change (List.last (VString s :: v :: rest) VUndefined)
    with (List.last (v :: rest) VUndefined).
  change (List.last (VString s' :: v :: rest) VUndefined)
    with (List.last (v :: rest) VUndefined).
  by split.
Qed.

Section Create.

Variable T : Type.
Variable blank : T.
Variable method : string -> option (T -> value -> outcome T).
Variable prop : nat -> string -> value.

Lemma create_same (s s' : string) (rest : list value) :
  toLowerCase s = toLowerCase s' ->
  createTransaction T blank method prop (VString s :: rest)
  = createTransaction T blank method prop (VString s' :: rest).
Proof.
  intros Hsame. unfold createTransaction.
  cbn [nth typeof String.eqb Ascii.eqb Bool.eqb].
  rewrite (type_for_same s s' Hsame).
  destruct (build T blank method (type_for s') _); [| done].
  destruct (last_string s s' rest) as [Htype Hlast].
  rewrite <- Htype.
  destruct (String.eqb (typeof (List.last (VString s :: rest) VUndefined))
              "function"); [| done].
  by rewrite Hlast.
Qed.

End Create.

End TransactionFacts.

(** X28. The letter case of a transaction type does not matter: two type
    names that are the same in lower case are treated alike by
    [createTransaction], also in the callback it submits with, and so a
    name is treated like its lower-case form. A name that in lower case is
    no entry of the table (and is not [constructor] or [__proto__], which
    the table inherits) is refused with [Invalid transaction type:
    undefined]: the message never names the type that was given. *)
Theorem createTransaction_ignores_case (T : Type) (blank : T)
    (method : string -> option (T -> value -> outcome T))
    (prop : nat -> string -> value) (type : string) (rest : list value) :
  let create := Transactions.createTransaction T blank method prop in
  (forall type',
      Transactions.toLowerCase type = Transactions.toLowerCase type' ->
      create (VString type :: rest) = create (VString type' :: rest))
  /\ create (VString (Transactions.toLowerCase type) :: rest)
     = create (VString type :: rest)
  /\ (Transactions.toLowerCase type ∉ Transactions.transactionTypes.*1 ->
      Transactions.toLowerCase type <> "constructor" ->
      Transactions.toLowerCase type <> "__proto__" ->
      create (VString type :: rest)
      = Throw (Error "Invalid transaction type: undefined")).
Proof.
  cbv zeta. split; [| split].
  - intros type' Hsame. by apply TransactionFacts.create_same.
  - apply TransactionFacts.create_same, TransactionFacts.toLowerCase_idem.
  - intros Hkey Hc Hp. unfold Transactions.createTransaction.
    cbn [nth typeof String.eqb Ascii.eqb Bool.eqb].
    assert (Hnone : Transactions.type_for type = None).
    { unfold Transactions.type_for.
      rewrite (proj1 (not_elem_of_list_to_map _ _)) by exact Hkey.
      unfold Transactions.inherited.
      destruct (String.eqb_spec (Transactions.toLowerCase type) "constructor");
        [done |].
      by destruct (String.eqb_spec (Transactions.toLowerCase type) "__proto__"). }
    by rewrite Hnone.
Qed.

Lemma createTransaction_ignores_case_witness :
  Transactions.createTransaction BuilderSpec.recorded [] BuilderSpec.recording
    (fun _ _ => VUndefined) [VString "Refund"; VNull; VFunction 0]
  = Throw (Error "Invalid transaction type: undefined")
  /\ Transactions.createTransaction BuilderSpec.recorded []
       BuilderSpec.recording (fun _ _ => VUndefined)
       [VString "TRUSTSET"; VNull; VFunction 0]
     = Transactions.createTransaction BuilderSpec.recorded []
         BuilderSpec.recording (fun _ _ => VUndefined)
         [VString "TrustSet"; VNull; VFunction 0]
  /\ Transactions.createTransaction BuilderSpec.recorded []
       BuilderSpec.recording (fun _ _ => VUndefined)
       [VString "TrustSet"; VNull; VFunction 0]
     = Return ([("trustSet", VNull)], [Transactions.Submit (VFunction 0)]).
Proof.
  split; [| split; [| reflexivity]].
  - apply (createTransaction_ignores_case BuilderSpec.recorded []
             BuilderSpec.recording (fun _ _ => VUndefined) "Refund"
             [VNull; VFunction 0]).
    + refine (bool_decide_unpack _ _). vm_compute. exact I.
    + discriminate.
    + discriminate.
  - exact (proj1 (createTransaction_ignores_case BuilderSpec.recorded []
                    BuilderSpec.recording (fun _ _ => VUndefined) "TRUSTSET"
                    [VNull; VFunction 0])
                 "TrustSet" eq_refl).
Defined.
